(** * Timetable generator: a shallow embedding of
      [client/src/lib/timetable-generator.ts]

    The development follows the source top to bottom: JavaScript string
    primitives used by the generator, the entity records, the constraint
    index, the availability oracle [isSlotAvailable], the slot allocator
    [generateTimetable] and the auditor [checkConflicts].

    Conventions.
    - JavaScript numbers that are identifiers, capacities and credits are
      integers ([Z]); the only non-integer a run can create is the [NaN]
      that [parseInt] returns, so object keys that may come from [parseInt]
      are [JsNum].
    - Strings are ASCII text ([string]); [undefined] is [None].
    - A JavaScript object used as a dictionary is a [gmap]; an array is a
      [list] and [push] appends at the end.
    - A [TypeError] thrown inside the async function rejects the promise:
      the model returns [None].
    - [Math.random] is a hidden global; its state is threaded explicitly. *)

From Stdlib Require Import ZArith Ascii String List.
From stdpp Require Import base decidable option list strings gmap fin_maps.

Open Scope string_scope.
Open Scope list_scope.
Open Scope Z_scope.

(** ** JavaScript string primitives *)

Module Js.

(** Numbers that can serve as course identifiers in the conflict index. *)
Inductive JsNum := NaN | Num (z : Z).

#[export] Instance JsNum_eq_dec : EqDecision JsNum.
Proof. solve_decision. Defined.

Definition JsNum_to_option (x : JsNum) : option Z :=
  match x with NaN => None | Num z => Some z end.

Definition JsNum_of_option (o : option Z) : JsNum :=
  match o with None => NaN | Some z => Num z end.

#[export] Instance JsNum_countable : Countable JsNum.
Proof.
  apply (inj_countable' JsNum_to_option JsNum_of_option).
  by intros [].
Defined.

(** ASCII members of the ECMAScript WhiteSpace and LineTerminator
    productions: TAB, LF, VT, FF, CR and SPACE. *)
Definition isWhiteSpace (c : ascii) : bool :=
  let n := nat_of_ascii c in
  ((9 <=? n)%nat && (n <=? 13)%nat) || (n =? 32)%nat.

Fixpoint trimStart (s : string) : string :=
  match s with
  | EmptyString => EmptyString
  | String c rest => if isWhiteSpace c then trimStart rest else s
  end.

Fixpoint trimEnd (s : string) : string :=
  match s with
  | EmptyString => EmptyString
  | String c rest =>
      match trimEnd rest with
      | EmptyString => if isWhiteSpace c then EmptyString else String c EmptyString
      | rest' => String c rest'
      end
  end.

(** [s.trim()] *)
Definition trim (s : string) : string := trimEnd (trimStart s).

(** [s.split('-')]: the pieces between dashes, at least one piece. *)
Fixpoint split_dash (s : string) : list string :=
  match s with
  | EmptyString => [EmptyString]
  | String c rest =>
      if Ascii.eqb c "-"%char then EmptyString :: split_dash rest
      else match split_dash rest with
           | [] => [String c EmptyString]
           | piece :: pieces => String c piece :: pieces
           end
  end.

(** Value of a digit in the given radix, if it is one. *)
Definition digitValue (radix : Z) (c : ascii) : option Z :=
  let n := Z.of_nat (nat_of_ascii c) in
  let v := if (48 <=? n) && (n <=? 57) then Some (n - 48)
           else if (97 <=? n) && (n <=? 122) then Some (n - 87)
           else if (65 <=? n) && (n <=? 90) then Some (n - 55)
           else None in
  match v with
  | Some d => if d <? radix then Some d else None
  | None => None
  end.

(** Longest prefix of digits, accumulated left to right; [None] when the
    prefix is empty. *)
Fixpoint parseDigits (radix : Z) (acc : option Z) (s : string) : option Z :=
  match s with
  | EmptyString => acc
  | String c rest =>
      match digitValue radix c with
      | Some d => parseDigits radix (Some (default 0 acc * radix + d)) rest
      | None => acc
      end
  end.

(** [parseInt(s)] without a radix argument: leading white space is
    skipped, a sign is read, a [0x]/[0X] prefix selects radix 16, then the
    longest digit prefix is read; no digit gives [NaN].  The value is
    kept exact, as it is in JavaScript for safe integers. *)
Definition parseInt (s : string) : JsNum :=
  let s1 := trimStart s in
  let '(sign, s2) :=
    match s1 with
    | String c rest =>
        if Ascii.eqb c "-"%char then (-1, rest)
        else if Ascii.eqb c "+"%char then (1, rest)
        else (1, s1)
    | EmptyString => (1, s1)
    end in
  let '(radix, s3) :=
    match s2 with
    | String c0 (String c1 rest) =>
        if Ascii.eqb c0 "0"%char && (Ascii.eqb c1 "x"%char || Ascii.eqb c1 "X"%char)
        then (16, rest) else (10, s2)
    | _ => (10, s2)
    end in
  match parseDigits radix None s3 with
  | None => NaN
  | Some n => Num (sign * n)
  end.

End Js.

Export Js.


(** ** Entities ([@shared/schema]) *)

Module Course.
Record t := mk {
  id : Z;
  code : string;
  credits : Z;
  capacity : Z;
  instructorId : Z;
  departmentId : Z
}.
End Course.

Module Instructor.
Record t := mk { id : Z }.
End Instructor.

Module Classroom.
Record t := mk { id : Z; capacity : Z }.
End Classroom.

(** A constraint row; [type] is free text that the generator compares with
    three literals, and for a course conflict [timeSlot] carries the second
    course identifier. *)
Module Constraint.
Record t := mk {
  type : string;
  entityId : Z;
  day : string;
  timeSlot : string
}.
End Constraint.

(** Output row.  [endTime] is [None] when the source leaves it
    [undefined]. *)
Module ScheduledClass.
Record t := mk {
  id : Z;
  courseId : Z;
  instructorId : Z;
  classroomId : Z;
  day : string;
  startTime : string;
  endTime : option string;
  timetableId : Z
}.
End ScheduledClass.

#[export] Instance ScheduledClass_eq_dec : EqDecision ScheduledClass.t.
Proof. solve_decision. Defined.

(** A class slot (day + time). *)
Record ClassSlot := mkSlot { day : string; timeSlot : string }.

#[export] Instance ClassSlot_eq_dec : EqDecision ClassSlot.
Proof. solve_decision. Defined.

Record TimetableGeneratorOptions := mkOptions {
  courses : list Course.t;
  instructors : list Instructor.t;
  classrooms : list Classroom.t;
  constraints : list Constraint.t;
  timetableId : Z
}.

(** The two enumerations that the generator imports from [@shared/schema].
    That module is not among the sources, so the week-day labels and the
    time-slot labels are parameters of the development. *)
Class Schema := {
  weekDays : list string;
  timeSlots : list string
}.

(** The hidden global behind [Math.random].  The generator uses it in one
    way only, [[...xs].sort(() => Math.random() - 0.5)]: a fresh copy of
    [xs] is rearranged by a comparator that ignores its arguments.  Which
    arrangement comes out depends on the engine's sort and on the numbers
    drawn, so the source is abstract: a state and a [shuffle] that returns
    some permutation of its argument and the next state. *)
Class RandomSource := {
  Rng : Type;
  shuffle : forall {A : Type}, list A -> Rng -> list A * Rng;
  shuffle_perm : forall (A : Type) (l : list A) (g : Rng), (shuffle l g).1 ≡ₚ l
}.

(** The two [console.warn] messages, by their holes. *)
Inductive Warning :=
| NoSuitableRooms (code : string)
| CouldOnlyAssign (assignedSlots slotsNeeded : nat) (code : string).

#[export] Instance Warning_eq_dec : EqDecision Warning.
Proof. solve_decision. Defined.

(** ** Dictionaries of arrays *)

(** [if (!m[k]) { m[k] = []; }] *)
Definition ensureList `{Countable K} {V : Type} (k : K) (m : gmap K (list V))
  : gmap K (list V) :=
  match m !! k with
  | Some _ => m
  | None => <[k := []]> m
  end.

(** [m[k].push(v)], for a key that holds an array. *)
Definition pushList `{Countable K} {V : Type} (k : K) (v : V) (m : gmap K (list V))
  : gmap K (list V) :=
  alter (fun l => l ++ [v]) k m.

(** [if (!m[k]) { m[k] = []; } m[k].push(v);] *)
Definition pushTo `{Countable K} {V : Type} (k : K) (v : V) (m : gmap K (list V))
  : gmap K (list V) :=
  pushList k v (ensureList k m).

(** [m[k]?.length || 0] *)
Definition lengthAt `{Countable K} {V : Type} (k : K) (m : gmap K (list V)) : Z :=
  match m !! k with
  | Some l => Z.of_nat (length l)
  | None => 0
  end.

(** [xs?.some(s => s.day === day && s.timeSlot === timeSlot)], which is
    falsy for a missing array. *)
Definition someSlot (xs : option (list ClassSlot)) (slot : ClassSlot) : bool :=
  match xs with
  | Some l =>
      existsb (fun s => bool_decide (day s = day slot)
                        && bool_decide (timeSlot s = timeSlot slot)) l
  | None => false
  end.

(** [Array.prototype.sort] with a consistent comparator: the sort is stable,
    so the outcome is the one arrangement that insertion from the right
    builds. *)
Fixpoint insertSorted {A : Type} (cmp : A -> A -> Z) (x : A) (l : list A) : list A :=
  match l with
  | [] => [x]
  | y :: l' => if cmp x y <=? 0 then x :: l else y :: insertSorted cmp x l'
  end.

Definition sortBy {A : Type} (cmp : A -> A -> Z) (l : list A) : list A :=
  foldr (insertSorted cmp) [] l.

(** ** ConstraintIndex *)

Record ConstraintIndex := mkIndex {
  instructorUnavailable : gmap Z (list ClassSlot);
  roomUnavailable : gmap Z (list ClassSlot);
  courseConflicts : gmap JsNum (list JsNum)
}.

Definition emptyIndex : ConstraintIndex := mkIndex ∅ ∅ ∅.

(** One turn of the loop over [constraints]. *)
Definition indexConstraint (idx : ConstraintIndex) (c : Constraint.t) : ConstraintIndex :=
  let slot := mkSlot (Constraint.day c) (Constraint.timeSlot c) in
  if decide (Constraint.type c = "instructor_unavailable") then
    mkIndex (pushTo (Constraint.entityId c) slot (instructorUnavailable idx))
            (roomUnavailable idx) (courseConflicts idx)
  else if decide (Constraint.type c = "room_unavailable") then
    mkIndex (instructorUnavailable idx)
            (pushTo (Constraint.entityId c) slot (roomUnavailable idx))
            (courseConflicts idx)
  else if decide (Constraint.type c = "course_conflict") then
    let courseId := Num (Constraint.entityId c) in
    let conflictingCourseId := parseInt (Constraint.timeSlot c) in
    mkIndex (instructorUnavailable idx) (roomUnavailable idx)
            (pushList conflictingCourseId courseId
               (pushList courseId conflictingCourseId
                  (ensureList conflictingCourseId
                     (ensureList courseId (courseConflicts idx)))))
  else idx.

Definition buildIndex (cs : list Constraint.t) : ConstraintIndex :=
  fold_left indexConstraint cs emptyIndex.

(** Conflict list of a course in the index, empty when the key is absent. *)
Definition conflictsOf (idx : ConstraintIndex) (c : JsNum) : list JsNum :=
  default [] (courseConflicts idx !! c).

(** ** Course Orderer *)

Definition constraintCount (idx : ConstraintIndex) (a : Course.t) : Z :=
  lengthAt (Num (Course.id a)) (courseConflicts idx)
  + lengthAt (Course.instructorId a) (instructorUnavailable idx).

Definition sortedCourses (idx : ConstraintIndex) (cs : list Course.t) : list Course.t :=
  sortBy (fun a b => constraintCount idx b - constraintCount idx a) cs.

(** [classrooms.filter(room => room.capacity >= course.capacity)
      .sort((a, b) => a.capacity - b.capacity)] *)
Definition suitableRooms (rooms : list Classroom.t) (course : Course.t) : list Classroom.t :=
  sortBy (fun a b => Classroom.capacity a - Classroom.capacity b)
    (List.filter (fun room => Course.capacity course <=? Classroom.capacity room) rooms).

(** [course.credits >= 4 ? 3 : (course.credits >= 3 ? 2 : 1)] *)
Definition slotsNeeded (course : Course.t) : nat :=
  if 4 <=? Course.credits course then 3%nat
  else if 3 <=? Course.credits course then 2%nat
  else 1%nat.

(** [label.split('-')[0].trim()] *)
Definition startOf (label : string) : string :=
  trim (hd EmptyString (split_dash label)).

(** [label.split('-')[1]], trimmed when it exists. *)
Definition endOf (label : string) : option string :=
  trim <$> (split_dash label !! 1%nat).

(** ** Slot Allocator *)

Section Allocator.
Context {schema : Schema} {random : RandomSource}.

(** [allSlots]: every day crossed with every time slot, days outermost. *)
Definition allSlots : list ClassSlot :=
  flat_map (fun d => map (fun ts => mkSlot d ts) timeSlots) weekDays.

(** [timeSlots[i]].  The allocator only reads positions below
    [timeSlots.length]; see [slotIndices_in_range]. *)
Definition slotLabel (i : nat) : string :=
  default EmptyString (timeSlots !! i).

(** The run-local variables of [generateTimetable], the console and the
    state of the hidden random generator. *)
Record State := mkState {
  scheduledClasses : list ScheduledClass.t;
  instructorAssignments : gmap Z (list ClassSlot);
  classroomAssignments : gmap Z (list ClassSlot);
  courseAssignments : gmap JsNum (list ClassSlot);
  console : list Warning;
  rng : Rng
}.

Definition initialState (g : Rng) : State := mkState [] ∅ ∅ ∅ [] g.

Definition setRng (g : Rng) (st : State) : State :=
  mkState (scheduledClasses st) (instructorAssignments st)
          (classroomAssignments st) (courseAssignments st) (console st) g.

Definition warn (w : Warning) (st : State) : State :=
  mkState (scheduledClasses st) (instructorAssignments st)
          (classroomAssignments st) (courseAssignments st)
          (console st ++ [w]) (rng st).

(** [xs = [...l].sort(() => Math.random() - 0.5)] *)
Definition shuffled {A : Type} (l : list A) (st : State) : list A * State :=
  let '(xs, g) := shuffle l (rng st) in (xs, setRng g st).

(** Availability Oracle. *)
Definition isSlotAvailable (idx : ConstraintIndex) (st : State)
    (course : Course.t) (slot : ClassSlot) (roomId : Z) : bool :=
  let instructorId := Course.instructorId course in
  if someSlot (instructorUnavailable idx !! instructorId) slot then false
  else if someSlot (instructorAssignments st !! instructorId) slot then false
  else if someSlot (roomUnavailable idx !! roomId) slot then false
  else if someSlot (classroomAssignments st !! roomId) slot then false
  else
    match courseConflicts idx !! Num (Course.id course) with
    | Some conflicting =>
        negb (existsb (fun conflictingCourseId =>
                         someSlot (courseAssignments st !! conflictingCourseId) slot)
                      conflicting)
    | None => true
    end.

(** The three "Update assignments" pushes. *)
Definition assign (course : Course.t) (room : Classroom.t) (slot : ClassSlot)
    (st : State) : State :=
  mkState (scheduledClasses st)
          (pushTo (Course.instructorId course) slot (instructorAssignments st))
          (pushTo (Classroom.id room) slot (classroomAssignments st))
          (pushTo (Num (Course.id course)) slot (courseAssignments st))
          (console st) (rng st).

(** [scheduledClasses.push({ id: 0, ... })] *)
Definition emit (tid : Z) (course : Course.t) (room : Classroom.t) (slot : ClassSlot)
    (startTime : string) (endTime : option string) (st : State) : State :=
  mkState (scheduledClasses st ++
             [ScheduledClass.mk 0 (Course.id course) (Course.instructorId course)
                (Classroom.id room) (day slot) startTime endTime tid])
          (instructorAssignments st) (classroomAssignments st)
          (courseAssignments st) (console st) (rng st).

(** The slot [{ day, timeSlot: timeSlots[startIdx + j] }]. *)
Definition blockSlot (d : string) (startIdx j : nat) : ClassSlot :=
  mkSlot d (slotLabel (startIdx + j)).

(** "Check if all consecutive slots are available". *)
Definition allAvailable (idx : ConstraintIndex) (st : State) (course : Course.t)
    (room : Classroom.t) (d : string) (startIdx k : nat) : bool :=
  forallb (fun j => isSlotAvailable idx st course (blockSlot d startIdx j) (Classroom.id room))
          (seq 0 k).

(** Body of the assignment loop for one [j].  The end time of the last slot
    is [slot.timeSlot.split('-')[1].trim()], a [TypeError] when the label has
    no dash; the end time of an inner slot is the start of the next label. *)
Definition commitBlockSlot (tid : Z) (course : Course.t) (room : Classroom.t)
    (d : string) (startIdx k : nat) (st : State) (j : nat) : option State :=
  let slot := blockSlot d startIdx j in
  let st1 := assign course room slot st in
  let startTime := startOf (timeSlot slot) in
  endTime ← (if (j =? k - 1)%nat then endOf (timeSlot slot)
             else Some (startOf (slotLabel (startIdx + j + 1))));
  Some (emit tid course room slot startTime (Some endTime) st1).

Fixpoint commitBlockFrom (tid : Z) (course : Course.t) (room : Classroom.t)
    (d : string) (startIdx k : nat) (js : list nat) (st : State) : option State :=
  match js with
  | [] => Some st
  | j :: js' =>
      st' ← commitBlockSlot tid course room d startIdx k st j;
      commitBlockFrom tid course room d startIdx k js' st'
  end.

(** "Assign this course to these slots": [j] runs from [0] to [k - 1]. *)
Definition commitBlock (tid : Z) (course : Course.t) (room : Classroom.t)
    (d : string) (startIdx k : nat) (st : State) : option State :=
  commitBlockFrom tid course room d startIdx k (seq 0 k) st.

(** The loop over the days for one room.  Each day draws a fresh order of
    the start positions [0 .. timeSlots.length - k]; the first position whose
    [k] slots are all available is committed and ends the search.  The
    result carries the flag [assigned]. *)
Fixpoint tryDays (idx : ConstraintIndex) (tid : Z) (course : Course.t)
    (room : Classroom.t) (k : nat) (days : list string) (st : State)
    : option (bool * State) :=
  match days with
  | [] => Some (false, st)
  | d :: days' =>
      let '(slotIndices, st1) := shuffled (seq 0 (length timeSlots + 1 - k)) st in
      match find (fun startIdx => allAvailable idx st1 course room d startIdx k) slotIndices with
      | Some startIdx =>
          st2 ← commitBlock tid course room d startIdx k st1;
          Some (true, st2)
      | None => tryDays idx tid course room k days' st1
      end
  end.

(** "First try consecutive slots on the same day": the loop over the rooms. *)
Fixpoint tryRooms (idx : ConstraintIndex) (tid : Z) (course : Course.t) (k : nat)
    (days : list string) (rooms : list Classroom.t) (st : State)
    : option (bool * State) :=
  match rooms with
  | [] => Some (false, st)
  | room :: rooms' =>
      '(assigned, st') ← tryDays idx tid course room k days st;
      if assigned : bool then Some (true, st')
      else tryRooms idx tid course k days rooms' st'
  end.

(** Body of the fallback for one slot that is available. *)
Definition commitSingle (tid : Z) (course : Course.t) (room : Classroom.t)
    (slot : ClassSlot) (st : State) : State :=
  emit tid course room slot (startOf (timeSlot slot)) (endOf (timeSlot slot))
       (assign course room slot st).

(** The fallback's loop over the shuffled slots for one room; the pair is
    [(assignedSlots, state)]. *)
Fixpoint scatterSlots (idx : ConstraintIndex) (tid : Z) (course : Course.t)
    (room : Classroom.t) (k : nat) (slots : list ClassSlot)
    (assignedSlots : nat) (st : State) : nat * State :=
  match slots with
  | [] => (assignedSlots, st)
  | slot :: slots' =>
      if (k <=? assignedSlots)%nat then (assignedSlots, st)
      else if isSlotAvailable idx st course slot (Classroom.id room)
      then scatterSlots idx tid course room k slots' (S assignedSlots)
             (commitSingle tid course room slot st)
      else scatterSlots idx tid course room k slots' assignedSlots st
  end.

(** The fallback's loop over the rooms. *)
Fixpoint scatterRooms (idx : ConstraintIndex) (tid : Z) (course : Course.t) (k : nat)
    (slots : list ClassSlot) (rooms : list Classroom.t)
    (assignedSlots : nat) (st : State) : nat * State :=
  match rooms with
  | [] => (assignedSlots, st)
  | room :: rooms' =>
      if (k <=? assignedSlots)%nat then (assignedSlots, st)
      else
        let '(n, st') := scatterSlots idx tid course room k slots assignedSlots st in
        scatterRooms idx tid course k slots rooms' n st'
  end.

(** "If not assigned with consecutive slots, try individual slots across
    different days". *)
Definition scatter (idx : ConstraintIndex) (tid : Z) (course : Course.t) (k : nat)
    (rooms : list Classroom.t) (st : State) : State :=
  let '(shuffledSlots, st1) := shuffled allSlots st in
  let '(n, st2) := scatterRooms idx tid course k shuffledSlots rooms 0%nat st1 in
  if (n <? k)%nat then warn (CouldOnlyAssign n k (Course.code course)) st2 else st2.

(** Body of the loop "Assign courses to time slots" for one course, from
    the array [suitableRooms] on. *)
Definition placeCourseIn (idx : ConstraintIndex) (tid : Z)
    (rooms : list Classroom.t) (course : Course.t) (st : State) : option State :=
  match rooms with
  | [] => Some (warn (NoSuitableRooms (Course.code course)) st)
  | _ :: _ =>
      let k := slotsNeeded course in
      let '(shuffledDays, st1) := shuffled weekDays st in
      '(assigned, st2) ← tryRooms idx tid course k shuffledDays rooms st1;
      if assigned : bool then Some st2
      else Some (scatter idx tid course k rooms st2)
  end.

Definition placeCourse (idx : ConstraintIndex) (opts : TimetableGeneratorOptions)
    (course : Course.t) (st : State) : option State :=
  placeCourseIn idx (timetableId opts) (suitableRooms (classrooms opts) course) course st.

Fixpoint placeCourses (idx : ConstraintIndex) (opts : TimetableGeneratorOptions)
    (cs : list Course.t) (st : State) : option State :=
  match cs with
  | [] => Some st
  | course :: cs' =>
      st' ← placeCourse idx opts course st;
      placeCourses idx opts cs' st'
  end.

(** The whole run, from the state [g] of the random generator at the call:
    the final values of the local variables, or [None] when a [TypeError]
    rejects the promise. *)
Definition runGenerator (opts : TimetableGeneratorOptions) (g : Rng) : option State :=
  let idx := buildIndex (constraints opts) in
  placeCourses idx opts (sortedCourses idx (courses opts)) (initialState g).

(** What the promise resolves to. *)
Definition generateTimetable (opts : TimetableGeneratorOptions) (g : Rng)
    : option (list ScheduledClass.t) :=
  scheduledClasses <$> runGenerator opts g.

End Allocator.

(** ** Conflict Auditor *)

(** The template literal [`${day}-${startTime}-${endTime}`]; an
    [undefined] end time prints as the word. *)
Definition slotKey (sc : ScheduledClass.t) : string :=
  ScheduledClass.day sc ++ "-" ++ ScheduledClass.startTime sc ++ "-"
  ++ default "undefined" (ScheduledClass.endTime sc).

(** [{ instructorId, classes }] *)
Module InstructorConflict.
Record t := mk { instructorId : Z; classes : list ScheduledClass.t }.
End InstructorConflict.

(** [{ classroomId, classes }] *)
Module ClassroomConflict.
Record t := mk { classroomId : Z; classes : list ScheduledClass.t }.
End ClassroomConflict.

(** State of one audit loop: the two-level dictionary
    [slots[who][key]] and the conflicts pushed so far.  A pushed conflict
    holds the array [slots[who][key]] itself, not a copy, so it is kept as
    the reference [(who, key)] until the loop is over. *)
Record AuditState := mkAudit {
  groups : gmap Z (gmap string (list ScheduledClass.t));
  pushed : list (Z * string)
}.

(** [slots[who][key]], empty when either key is absent. *)
Definition groupAt (gs : gmap Z (gmap string (list ScheduledClass.t)))
    (who : Z) (key : string) : list ScheduledClass.t :=
  default [] (gs !! who ≫= fun byKey => byKey !! key).

(** Body of an audit loop; [who] is [instructorId] or [classroomId]. *)
Definition auditRow (who : ScheduledClass.t -> Z) (a : AuditState)
    (sc : ScheduledClass.t) : AuditState :=
  let key := slotKey sc in
  let byKey := default ∅ (groups a !! who sc) in
  let group := default [] (byKey !! key) ++ [sc] in
  mkAudit (<[who sc := <[key := group]> byKey]> (groups a))
          (if (1 <? length group)%nat then pushed a ++ [(who sc, key)] else pushed a).

(** A whole audit loop, with every pushed reference read at the end. *)
Definition audit {C : Type} (who : ScheduledClass.t -> Z)
    (mk : Z -> list ScheduledClass.t -> C) (rows : list ScheduledClass.t) : list C :=
  let a := fold_left (auditRow who) rows (mkAudit ∅ []) in
  map (fun ref => mk ref.1 (groupAt (groups a) ref.1 ref.2)) (pushed a).

Record ConflictReport := mkReport {
  instructorConflicts : list InstructorConflict.t;
  classroomConflicts : list ClassroomConflict.t;
  studentConflicts : list unit
}.

Definition checkConflicts (rows : list ScheduledClass.t) : ConflictReport :=
  mkReport (audit ScheduledClass.instructorId InstructorConflict.mk rows)
           (audit ScheduledClass.classroomId ClassroomConflict.mk rows)
           [].

(** ** The caller's arrays

    [generateTimetable] receives references to four arrays.  To state what
    it does to them, arrays live in a store, one per element type, and the
    array operations of the source act on it: the spread [[...a]] and
    [a.filter(p)] allocate a fresh array, [a.sort(cmp)] rearranges the array
    it is called on and returns the same reference.  The entity objects
    inside the arrays are only ever read (no property of a course, room,
    instructor or constraint is assigned anywhere), so an array's contents
    are kept by value. *)

Section Arrays.
Context {A : Type}.

Definition allocArray (xs : list A) (h : gmap nat (list A)) : nat * gmap nat (list A) :=
  let l := fresh (dom h) in (l, <[l := xs]> h).

Definition readArray (l : nat) (h : gmap nat (list A)) : list A :=
  default [] (h !! l).

(** [[...a]] *)
Definition spreadArray (l : nat) (h : gmap nat (list A)) : nat * gmap nat (list A) :=
  allocArray (readArray l h) h.

(** [a.filter(p)] *)
Definition filterArray (p : A -> bool) (l : nat) (h : gmap nat (list A))
  : nat * gmap nat (list A) :=
  allocArray (List.filter p (readArray l h)) h.

(** [a.sort(cmp)], in place. *)
Definition sortArray (cmp : A -> A -> Z) (l : nat) (h : gmap nat (list A))
  : gmap nat (list A) :=
  alter (sortBy cmp) l h.

End Arrays.

(** The four stores and the references the caller passes in. *)
Record Memory := mkMemory {
  courseArrays : gmap nat (list Course.t);
  instructorArrays : gmap nat (list Instructor.t);
  classroomArrays : gmap nat (list Classroom.t);
  constraintArrays : gmap nat (list Constraint.t)
}.

Record OptionsRef := mkOptionsRef {
  coursesRef : nat;
  instructorsRef : nat;
  classroomsRef : nat;
  constraintsRef : nat;
  timetableIdArg : Z
}.

(** The options as the callee reads them through the references. *)
Definition derefOptions (m : Memory) (o : OptionsRef) : TimetableGeneratorOptions :=
  mkOptions (readArray (coursesRef o) (courseArrays m))
            (readArray (instructorsRef o) (instructorArrays m))
            (readArray (classroomsRef o) (classroomArrays m))
            (readArray (constraintsRef o) (constraintArrays m))
            (timetableIdArg o).

Section AllocatorOnArrays.
Context {schema : Schema} {random : RandomSource}.

(** [const sortedCourses = [...courses].sort(...)] *)
Definition sortedCoursesRef (idx : ConstraintIndex) (coursesAt : nat)
    (h : gmap nat (list Course.t)) : nat * gmap nat (list Course.t) :=
  let '(copy, h1) := spreadArray coursesAt h in
  (copy, sortArray (fun a b => constraintCount idx b - constraintCount idx a) copy h1).

(** [const suitableRooms = classrooms.filter(...).sort(...)] *)
Definition suitableRoomsRef (classroomsAt : nat) (course : Course.t)
    (h : gmap nat (list Classroom.t)) : nat * gmap nat (list Classroom.t) :=
  let '(kept, h1) :=
    filterArray (fun room => Course.capacity course <=? Classroom.capacity room)
                classroomsAt h in
  (kept, sortArray (fun a b => Classroom.capacity a - Classroom.capacity b) kept h1).

(** The loop over the sorted courses, with the classroom store threaded
    through it. *)
Fixpoint placeCoursesRef (idx : ConstraintIndex) (tid : Z) (classroomsAt : nat)
    (cs : list Course.t) (h : gmap nat (list Classroom.t)) (st : State)
    : option (State * gmap nat (list Classroom.t)) :=
  match cs with
  | [] => Some (st, h)
  | course :: cs' =>
      let '(rooms, h1) := suitableRoomsRef classroomsAt course h in
      st' ← placeCourseIn idx tid (readArray rooms h1) course st;
      placeCoursesRef idx tid classroomsAt cs' h1 st'
  end.

(** The run over the store: the final local state and the memory the
    caller sees afterwards. *)
Definition runGeneratorRef (m : Memory) (o : OptionsRef) (g : Rng)
    : option (State * Memory) :=
  let idx := buildIndex (readArray (constraintsRef o) (constraintArrays m)) in
  let '(sorted, hc) := sortedCoursesRef idx (coursesRef o) (courseArrays m) in
  '(st, hr) ← placeCoursesRef idx (timetableIdArg o) (classroomsRef o)
                (readArray sorted hc) (classroomArrays m) (initialState g);
  Some (st, mkMemory hc (instructorArrays m) hr (constraintArrays m)).

End AllocatorOnArrays.

(** ** A clock for [HH:MM] labels, a concrete grid and two random sources *)

(** Minutes since midnight of an [HH:MM] text. *)
Definition minutesOfDay (t : string) : Z :=
  let fix afterColon (s : string) : string :=
    match s with
    | EmptyString => EmptyString
    | String c rest => if Ascii.eqb c ":"%char then rest else afterColon rest
    end in
  default 0 (parseDigits 10 None t) * 60
  + default 0 (parseDigits 10 None (afterColon t)).

(** The time-slot labels are listed in chronological order: every label
    has an end after its start and no later than the start of the next
    label. *)
Fixpoint chronological (clock : string -> Z) (labels : list string) : bool :=
  match labels with
  | [] => true
  | label :: rest =>
      match endOf label with
      | None => false
      | Some e =>
          (clock (startOf label) <? clock e)
          && match rest with
             | [] => true
             | next :: _ => clock e <=? clock (startOf next)
             end
          && chronological clock rest
      end
  end.

(** Two rows overlap on the wall clock: same day and intersecting
    [[start, end)] ranges.  A row whose end time is [undefined] has no
    bounded range and counts as overlapping. *)
Definition overlapping (clock : string -> Z) (r1 r2 : ScheduledClass.t) : bool :=
  bool_decide (ScheduledClass.day r1 = ScheduledClass.day r2)
  && match ScheduledClass.endTime r1, ScheduledClass.endTime r2 with
     | Some e1, Some e2 =>
         (clock (ScheduledClass.startTime r1) <? clock e2)
         && (clock (ScheduledClass.startTime r2) <? clock e1)
     | _, _ => true
     end.

Definition weekGrid : Schema :=
  {| weekDays := ["Monday"; "Tuesday"; "Wednesday"; "Thursday"; "Friday"];
     timeSlots := ["09:00-10:00"; "10:00-11:00"; "11:00-12:00"; "12:00-13:00"] |}.

(** Five days of two slots: no room for a block of three. *)
Definition twoSlotGrid : Schema :=
  {| weekDays := ["Monday"; "Tuesday"; "Wednesday"; "Thursday"; "Friday"];
     timeSlots := ["09:00-10:00"; "10:00-11:00"] |}.

(** One day of two slots. *)
Definition oneDayGrid : Schema :=
  {| weekDays := ["Monday"];
     timeSlots := ["09:00-10:00"; "10:00-11:00"] |}.

(** Labels without a dash. *)
Definition dashlessGrid : Schema :=
  {| weekDays := ["Monday"]; timeSlots := ["morning"; "noon"] |}.

(** Labels that do not overlap but are not listed in chronological
    order. *)
Definition unorderedGrid : Schema :=
  {| weekDays := ["Monday"];
     timeSlots := ["09:00-10:00"; "14:00-15:00"; "11:00-12:00"] |}.

(** A source with one bit of state: it hands the array back reversed when
    the bit is set, and flips the bit at every call. *)
Definition flipSource : RandomSource.
Proof.
  refine {| Rng := bool;
            shuffle := fun A l g => (if g then rev l else l, negb g) |}.
  intros A l [|]; simpl; [symmetry; apply Permutation_rev | reflexivity].
Defined.

(** The same arrangements driven by a counter: reversed at odd counts. *)
Definition counterSource : RandomSource.
Proof.
  refine {| Rng := nat;
            shuffle := fun A l g => (if Nat.odd g then rev l else l, S g) |}.
  intros A l g; simpl; destruct (Nat.odd g); [symmetry; apply Permutation_rev | reflexivity].
Defined.

(** ** Vocabulary of the properties *)

(** [m[k]] read as a list of cells, empty when the key is absent. *)
Definition cellsOf `{Countable K} (m : gmap K (list ClassSlot)) (k : K) : list ClassSlot :=
  default [] (m !! k).

Section Placements.
Context {schema : Schema} {random : RandomSource}.

(** What [isSlotAvailable] checks, clause by clause. *)
Definition feasible (idx : ConstraintIndex) (st : State) (course : Course.t)
    (roomId : Z) (cell : ClassSlot) : Prop :=
  (cell ∉ cellsOf (instructorUnavailable idx) (Course.instructorId course))
  ∧ (cell ∉ cellsOf (instructorAssignments st) (Course.instructorId course))
  ∧ (cell ∉ cellsOf (roomUnavailable idx) roomId)
  ∧ (cell ∉ cellsOf (classroomAssignments st) roomId)
  ∧ (∀ b, b ∈ conflictsOf idx (Num (Course.id course)) →
          cell ∉ cellsOf (courseAssignments st) b).

(** A row describes a cell of the grid: same day, the start of the cell's
    label, and as end either the end of that label or the start of the
    label that follows it in [timeSlots]. *)
Definition rowOfCell (row : ScheduledClass.t) (cell : ClassSlot) : Prop :=
  ScheduledClass.day row = day cell
  ∧ ScheduledClass.startTime row = startOf (timeSlot cell)
  ∧ ∃ i : nat, timeSlots !! i = Some (timeSlot cell)
      ∧ (ScheduledClass.endTime row = endOf (timeSlot cell)
         ∨ ∃ next, timeSlots !! S i = Some next
                   ∧ ScheduledClass.endTime row = Some (startOf next)).

(** The elementary moves of a run.  A placement books a cell that passed
    the oracle in the state it is booked in, and appends its row; the
    other moves leave bookings and rows alone. *)
Inductive step (idx : ConstraintIndex) : State → State → Prop :=
| step_place st tid course room cell startTime endTime :
    feasible idx st course (Classroom.id room) cell →
    rowOfCell (ScheduledClass.mk 0 (Course.id course) (Course.instructorId course)
                 (Classroom.id room) (day cell) startTime endTime tid) cell →
    step idx st (emit tid course room cell startTime endTime (assign course room cell st))
| step_warn st w : step idx st (warn w st)
| step_rng st g : step idx st (setRng g st).

(** Rows of one instructor, and rows held in one classroom, in schedule
    order. *)
Definition rowsOfInstructor (i : Z) (rows : list ScheduledClass.t) : list ScheduledClass.t :=
  List.filter (fun r => bool_decide (ScheduledClass.instructorId r = i)) rows.

Definition rowsOfClassroom (c : Z) (rows : list ScheduledClass.t) : list ScheduledClass.t :=
  List.filter (fun r => bool_decide (ScheduledClass.classroomId r = c)) rows.

(** Every instructor and every classroom holds each cell at most once, and
    the rows of an instructor (of a classroom) are, in order, the rows of
    the cells booked for it. *)
Definition bookedOnce (st : State) : Prop :=
  (∀ i, NoDup (cellsOf (instructorAssignments st) i))
  ∧ (∀ c, NoDup (cellsOf (classroomAssignments st) c))
  ∧ (∀ i, Forall2 rowOfCell (rowsOfInstructor i (scheduledClasses st))
                  (cellsOf (instructorAssignments st) i))
  ∧ (∀ c, Forall2 rowOfCell (rowsOfClassroom c (scheduledClasses st))
                  (cellsOf (classroomAssignments st) c)).

(** No two rows of the schedule, taken at different positions, share an
    instructor or a classroom and overlap on the wall clock. *)
Definition noDoubleBooking (clock : string → Z) (rows : list ScheduledClass.t) : Prop :=
  ∀ (p q : nat) r1 r2,
    p ≠ q → rows !! p = Some r1 → rows !! q = Some r2 →
    ScheduledClass.instructorId r1 = ScheduledClass.instructorId r2
    ∨ ScheduledClass.classroomId r1 = ScheduledClass.classroomId r2 →
    overlapping clock r1 r2 = false.

(** Rows of the schedule that carry a given course identifier. *)
Definition rowsOfCourse (cid : Z) (rows : list ScheduledClass.t) : list ScheduledClass.t :=
  List.filter (fun r => bool_decide (ScheduledClass.courseId r = cid)) rows.

(** The slots sought under one course identifier: [slotsNeeded] summed
    over the courses of the list that carry it. *)
Definition slotsSought (cid : Z) (cs : list Course.t) : nat :=
  sum_list_with (fun c => if bool_decide (Course.id c = cid) then slotsNeeded c else 0%nat) cs.

(** [st'] is [st] with [rows] appended, all of one course, and the same
    console. *)
Definition appends (cid : Z) (st st' : State) (rows : list ScheduledClass.t) : Prop :=
  scheduledClasses st' = scheduledClasses st ++ rows
  ∧ console st' = console st
  ∧ Forall (fun r => ScheduledClass.courseId r = cid) rows.

(** Two different courses that the index lists as conflicting with each
    other never hold a cell in common. *)
Definition mutuallyExclusive (idx : ConstraintIndex) (st : State) : Prop :=
  ∀ a b cell,
    a ≠ b → b ∈ conflictsOf idx a → a ∈ conflictsOf idx b →
    cell ∈ cellsOf (courseAssignments st) a →
    cell ∉ cellsOf (courseAssignments st) b.

(** Every time-slot label has a second piece after a dash. *)
Definition labelsHaveEnd : Prop :=
  Forall (fun label => is_Some (endOf label)) timeSlots.

(** What one turn of the course loop adds to the schedule and to the
    console: rows of that course only, and either all [slotsNeeded] rows
    and no warning, or fewer rows and the warning that says so. *)
Definition courseOutcome (rooms : list Classroom.t) (course : Course.t)
    (rows : list ScheduledClass.t) (ws : list Warning) : Prop :=
  Forall (fun r => ScheduledClass.courseId r = Course.id course) rows
  ∧ ((rooms = [] ∧ rows = [] ∧ ws = [NoSuitableRooms (Course.code course)])
     ∨ (rooms ≠ [] ∧ length rows = slotsNeeded course ∧ ws = [])
     ∨ (rooms ≠ [] ∧ (length rows < slotsNeeded course)%nat
        ∧ ws = [CouldOnlyAssign (length rows) (slotsNeeded course) (Course.code course)])).

(** The rows of a committed block of [k] slots from position [s] on day
    [d] in one room: same day and room throughout, each row starts where
    its slot starts, an inner row ends where the next row starts, and the
    last row ends where the last slot ends. *)
Definition contiguousBlock (d : string) (roomId : Z) (s k : nat)
    (rows : list ScheduledClass.t) : Prop :=
  length rows = k
  ∧ (∀ (j : nat) r, rows !! j = Some r →
       ScheduledClass.day r = d ∧ ScheduledClass.classroomId r = roomId
       ∧ ScheduledClass.startTime r = startOf (slotLabel (s + j)))
  ∧ (∀ (j : nat) r r', rows !! j = Some r → rows !! S j = Some r' →
       ScheduledClass.endTime r = Some (ScheduledClass.startTime r'))
  ∧ (∀ r, last rows = Some r →
       ScheduledClass.endTime r = endOf (slotLabel (s + k - 1))).

End Placements.

(** ** Sample inputs *)

Definition cs101 : Course.t := Course.mk 1 "CS101" 3 30 7 1.
Definition cs102 : Course.t := Course.mk 2 "CS102" 4 30 7 1.
Definition drSmith : Instructor.t := Instructor.mk 7.
Definition roomA : Classroom.t := Classroom.mk 10 40.
Definition smallRoom : Classroom.t := Classroom.mk 11 10.

(** Two courses of one instructor, one room, and one conflict record
    between the courses. *)
Definition sampleOptions : TimetableGeneratorOptions :=
  mkOptions [cs101; cs102] [drSmith] [roomA]
            [Constraint.mk "course_conflict" 1 "" "2"] 99.

(** One course of three credits, one instructor, one room that fits, no
    constraint. *)
Definition oneCourseOptions : TimetableGeneratorOptions :=
  mkOptions [cs101] [drSmith] [roomA] [] 99.

(** The only room is too small for the course. *)
Definition noRoomOptions : TimetableGeneratorOptions :=
  mkOptions [cs101] [drSmith] [smallRoom] [] 99.

Definition noCourseOptions : TimetableGeneratorOptions :=
  mkOptions [] [drSmith] [smallRoom] [] 99.

(** A conflict record whose second identifier is not a number. *)
Definition malformedOptions : TimetableGeneratorOptions :=
  mkOptions [cs101] [drSmith] [roomA]
            [Constraint.mk "course_conflict" 1 "" "abc"] 99.

(** ** Two random sources side by side *)

(** Two sources, started in states related by [sim], hand back the same
    arrangement at every call and stay related. *)
Definition sameArrangements (R1 R2 : RandomSource)
    (sim : @Rng R1 → @Rng R2 → Prop) : Prop :=
  ∀ (A : Type) (l : list A) (g1 : @Rng R1) (g2 : @Rng R2),
    sim g1 g2 →
    (@shuffle R1 A l g1).1 = (@shuffle R2 A l g2).1
    ∧ sim (@shuffle R1 A l g1).2 (@shuffle R2 A l g2).2.

(** The local state of a run over the first source, seen as a state over
    the second source. *)
Definition reRng {R1 R2 : RandomSource} (st : @State R1) (g2 : @Rng R2) : @State R2 :=
  @mkState R2 (scheduledClasses st) (instructorAssignments st)
           (classroomAssignments st) (courseAssignments st) (console st) g2.

(** Same rows, bookings and console; generator states related. *)
Definition alike {R1 R2 : RandomSource} (sim : @Rng R1 → @Rng R2 → Prop)
    (st1 : @State R1) (st2 : @State R2) : Prop :=
  ∃ g2, sim (rng st1) g2 ∧ st2 = reRng st1 g2.

(** Outcomes of a search over the two sources: the same flag and alike
    states, or a [TypeError] on both sides. *)
Definition searchAlike {R1 R2 : RandomSource} (sim : @Rng R1 → @Rng R2 → Prop)
    (r1 : option (bool * @State R1)) (r2 : option (bool * @State R2)) : Prop :=
  match r1, r2 with
  | Some (b1, st1), Some (b2, st2) => b1 = b2 ∧ alike sim st1 st2
  | None, None => True
  | _, _ => False
  end.

(** ** Vocabulary of the auditor's properties *)

(** The text holds no dash. *)
Fixpoint noDash (s : string) : bool :=
  match s with
  | EmptyString => true
  | String c rest => negb (Ascii.eqb c "-"%char) && noDash rest
  end.

(** A row whose start and end time are single tokens, as [HH:MM] is. *)
Definition wellTimed (r : ScheduledClass.t) : Prop :=
  noDash (ScheduledClass.startTime r) = true
  ∧ ∃ e, ScheduledClass.endTime r = Some e ∧ noDash e = true.

(** Exact equality of the (day, startTime, endTime) tuple. *)
Definition sameSlot (r1 r2 : ScheduledClass.t) : Prop :=
  ScheduledClass.day r1 = ScheduledClass.day r2
  ∧ ScheduledClass.startTime r1 = ScheduledClass.startTime r2
  ∧ ScheduledClass.endTime r1 = ScheduledClass.endTime r2.

#[export] Instance sameSlot_dec r1 r2 : Decision (sameSlot r1 r2).
Proof. unfold sameSlot. apply _. Defined.

(** The rows that have the subject ([who]) and the exact slot of [r0], in
    input order. *)
Definition clashingWith (who : ScheduledClass.t → Z) (r0 : ScheduledClass.t)
    (rows : list ScheduledClass.t) : list ScheduledClass.t :=
  List.filter (fun r => bool_decide (who r = who r0 ∧ sameSlot r r0)) rows.

(** The rows filed under one subject and one key, in input order. *)
Definition filedUnder (who : ScheduledClass.t → Z) (i : Z) (key : string)
    (rows : list ScheduledClass.t) : list ScheduledClass.t :=
  List.filter (fun r => bool_decide (who r = i ∧ slotKey r = key)) rows.

(** Two hand-made rows of instructor 7 in different rooms at the same
    time. *)
Definition mondayNineRoomA : ScheduledClass.t :=
  ScheduledClass.mk 0 1 7 10 "Monday" "09:00" (Some "10:00") 99.

Definition mondayNineRoomB : ScheduledClass.t :=
  ScheduledClass.mk 0 2 7 11 "Monday" "09:00" (Some "10:00") 99.

(** ** Vocabulary of the frame property *)

(** Every array that exists in [h] is still there in [h'], with the same
    contents in the same order. *)
Definition arraysKept {A : Type} (h h' : gmap nat (list A)) : Prop :=
  ∀ l, is_Some (h !! l) → h' !! l = h !! l.

(** The references passed by the caller point to arrays. *)
Definition validRefs (m : Memory) (o : OptionsRef) : Prop :=
  is_Some (courseArrays m !! coursesRef o)
  ∧ is_Some (instructorArrays m !! instructorsRef o)
  ∧ is_Some (classroomArrays m !! classroomsRef o)
  ∧ is_Some (constraintArrays m !! constraintsRef o).

(** The caller's memory before a sample call: one array of each kind. *)
Definition sampleMemory : Memory :=
  mkMemory {[ 0%nat := [cs101; cs102] ]} {[ 0%nat := [drSmith] ]}
           {[ 0%nat := [roomA; smallRoom] ]}
           {[ 0%nat := [Constraint.mk "course_conflict" 1 "" "2"] ]}.

Definition sampleRefs : OptionsRef := mkOptionsRef 0 0 0 0 99.

(** ** Vocabulary of the further properties *)

(** The slots that the records of one type declare for one entity, in
    input order. *)
Definition slotsDeclared (ty : string) (entity : Z) (cs : list Constraint.t)
  : list ClassSlot :=
  map (fun c => mkSlot (Constraint.day c) (Constraint.timeSlot c))
      (List.filter (fun c => bool_decide (Constraint.type c = ty
                                          ∧ Constraint.entityId c = entity)) cs).

(** The record has one of the three types that the generator reads. *)
Definition knownType (c : Constraint.t) : bool :=
  bool_decide (Constraint.type c = "instructor_unavailable")
  || bool_decide (Constraint.type c = "room_unavailable")
  || bool_decide (Constraint.type c = "course_conflict").

(** What the conflict records, in input order, put on the list of course
    [a]: the parsed second identifier of a record that has [a] as
    [entityId], then the [entityId] of a record whose second identifier
    parses to [a]. *)
Definition conflictsDeclared (a : JsNum) (cs : list Constraint.t) : list JsNum :=
  flat_map
    (fun c => if decide (Constraint.type c = "course_conflict")
              then (if decide (Num (Constraint.entityId c) = a)
                    then [parseInt (Constraint.timeSlot c)] else [])
                   ++ (if decide (parseInt (Constraint.timeSlot c) = a)
                       then [Num (Constraint.entityId c)] else [])
              else []) cs.

(** How many records satisfy [p]. *)
Definition countWhere (p : Constraint.t → Prop) `{!∀ c, Decision (p c)}
    (cs : list Constraint.t) : nat :=
  length (List.filter (fun c => bool_decide (p c)) cs).

(** A comparator that subtracts keys, as [(a, b) => a.capacity - b.capacity]
    does. *)
Definition byKey {A : Type} (key : A → Z) (a b : A) : Z := key a - key b.

(** Keys never decrease along the list. *)
Definition ascending {A : Type} (key : A → Z) (l : list A) : Prop :=
  ∀ (i j : nat) a b, (i < j)%nat → l !! i = Some a → l !! j = Some b → key a ≤ key b.

#[export] Instance InstructorConflict_eq_dec : EqDecision InstructorConflict.t.
Proof. solve_decision. Defined.

#[export] Instance ClassroomConflict_eq_dec : EqDecision ClassroomConflict.t.
Proof. solve_decision. Defined.

(** The subject and key under which the auditor files a row. *)
Definition filingOf (who : ScheduledClass.t → Z) (r : ScheduledClass.t) : Z * string :=
  (who r, slotKey r).

Section FurtherPlacements.
Context {schema : Schema} {random : RandomSource}.

(** The cell is not among the declared unavailabilities of the course's
    instructor nor of the room. *)
Definition permitted (idx : ConstraintIndex) (course : Course.t) (roomId : Z)
    (cell : ClassSlot) : Prop :=
  (cell ∉ cellsOf (instructorUnavailable idx) (Course.instructorId course))
  ∧ (cell ∉ cellsOf (roomUnavailable idx) roomId).

(** The moves of a run again, where a placement records which timetable,
    course, room and cell it is for, under a condition [ok] that does not
    depend on the state. *)
Inductive placed (ok : Z → Course.t → Classroom.t → ClassSlot → Prop)
  : State → State → Prop :=
| placed_cell st tid course room cell startTime endTime :
    ok tid course room cell →
    rowOfCell (ScheduledClass.mk 0 (Course.id course) (Course.instructorId course)
                 (Classroom.id room) (day cell) startTime endTime tid) cell →
    placed ok st (emit tid course room cell startTime endTime (assign course room cell st))
| placed_warn st w : placed ok st (warn w st)
| placed_rng st g : placed ok st (setRng g st).

(** What a placement of one turn of the course loop satisfies. *)
Definition okTurn (idx : ConstraintIndex) (tid : Z) (course : Course.t)
    (rooms : list Classroom.t)
    (tid' : Z) (c : Course.t) (r : Classroom.t) (cell : ClassSlot) : Prop :=
  tid' = tid ∧ c = course ∧ r ∈ rooms
  ∧ permitted idx course (Classroom.id r) cell ∧ day cell ∈ weekDays.

(** What every placement of a run satisfies. *)
Definition okRun (opts : TimetableGeneratorOptions)
    (tid : Z) (c : Course.t) (r : Classroom.t) (cell : ClassSlot) : Prop :=
  tid = timetableId opts ∧ c ∈ courses opts ∧ r ∈ classrooms opts
  ∧ Course.capacity c ≤ Classroom.capacity r
  ∧ permitted (buildIndex (constraints opts)) c (Classroom.id r) cell
  ∧ day cell ∈ weekDays.

(** The row was emitted for timetable [tid], course [c], room [r] and cell
    [cell]. *)
Definition rowFor (row : ScheduledClass.t) (tid : Z) (c : Course.t) (r : Classroom.t)
    (cell : ClassSlot) : Prop :=
  ScheduledClass.id row = 0
  ∧ ScheduledClass.courseId row = Course.id c
  ∧ ScheduledClass.instructorId row = Course.instructorId c
  ∧ ScheduledClass.classroomId row = Classroom.id r
  ∧ ScheduledClass.timetableId row = tid
  ∧ rowOfCell row cell.

(** Bookings of [st] are still there in [st'], in front. *)
Definition bookingsKept (st st' : State) : Prop :=
  (∀ i, cellsOf (instructorAssignments st) i `prefix_of` cellsOf (instructorAssignments st') i)
  ∧ (∀ r, cellsOf (classroomAssignments st) r `prefix_of` cellsOf (classroomAssignments st') r)
  ∧ (∀ c, cellsOf (courseAssignments st) c `prefix_of` cellsOf (courseAssignments st') c).

End FurtherPlacements.

(** The instructor of the sample courses is away on Monday at nine, and
    the sample room is closed on Monday at ten. *)
Definition busyOptions : TimetableGeneratorOptions :=
  mkOptions [cs101; cs102] [drSmith] [roomA]
            [Constraint.mk "instructor_unavailable" 7 "Monday" "09:00-10:00";
             Constraint.mk "room_unavailable" 10 "Monday" "10:00-11:00";
             Constraint.mk "holiday" 7 "Friday" "09:00-10:00"] 99.

(** Two rooms that fit the sample courses, the larger one listed first. *)
Definition twoRoomOptions : TimetableGeneratorOptions :=
  mkOptions [cs101; cs102] [drSmith] [Classroom.mk 12 80; roomA; smallRoom] [] 99.

(** One course of four credits and one room that fits. *)
Definition shortOptions : TimetableGeneratorOptions :=
  mkOptions [cs102] [drSmith] [roomA] [] 99.

Definition mondayNine : ClassSlot := mkSlot "Monday" "09:00-10:00".

Definition mondayEleven : ClassSlot := mkSlot "Monday" "11:00-12:00".

(** ** Vocabulary of the exclusion between courses in conflict *)

Section ExclusiveBookings.
Context {schema : Schema} {random : RandomSource}.

(** No other course on the conflict list of [course] holds the cell. *)
Definition clearOfConflicts (idx : ConstraintIndex) (st : State) (course : Course.t)
    (cell : ClassSlot) : Prop :=
  ∀ b, b ∈ conflictsOf idx (Num (Course.id course)) → b ≠ Num (Course.id course) →
       cell ∉ cellsOf (courseAssignments st) b.

(** The moves of a run once more, where a placement books a cell that no
    other course on the conflict list of its course holds in the state it
    is booked in. *)
Inductive booked (idx : ConstraintIndex) : State → State → Prop :=
| booked_cell st tid course room cell startTime endTime :
    clearOfConflicts idx st course cell →
    rowOfCell (ScheduledClass.mk 0 (Course.id course) (Course.instructorId course)
                 (Classroom.id room) (day cell) startTime endTime tid) cell →
    booked idx st (emit tid course room cell startTime endTime (assign course room cell st))
| booked_warn st w : booked idx st (warn w st)
| booked_rng st g : booked idx st (setRng g st).

(** [cells] lists, row by row, the cell that each row of the schedule was
    booked for: the row describes its cell, the cell is held by the row's
    course, and the rows of two different courses that the index lists as
    conflicting with each other have different cells. *)
Definition exclusiveBookings (idx : ConstraintIndex) (st : State)
    (cells : list ClassSlot) : Prop :=
  Forall2 rowOfCell (scheduledClasses st) cells
  ∧ (∀ (p : nat) r c,
       scheduledClasses st !! p = Some r → cells !! p = Some c →
       c ∈ cellsOf (courseAssignments st) (Num (ScheduledClass.courseId r)))
  ∧ (∀ (p q : nat) r1 r2 c1 c2,
       scheduledClasses st !! p = Some r1 → scheduledClasses st !! q = Some r2 →
       cells !! p = Some c1 → cells !! q = Some c2 →
       Num (ScheduledClass.courseId r1) ≠ Num (ScheduledClass.courseId r2) →
       Num (ScheduledClass.courseId r2)
         ∈ conflictsOf idx (Num (ScheduledClass.courseId r1)) →
       Num (ScheduledClass.courseId r1)
         ∈ conflictsOf idx (Num (ScheduledClass.courseId r2)) →
       c1 ≠ c2).

End ExclusiveBookings.

(** Two labels whose [[start, end)] ranges intersect on the clock; a label
    without an end counts as intersecting. *)
Definition labelsClash (clock : string → Z) (l1 l2 : string) : bool :=
  match endOf l1, endOf l2 with
  | Some e1, Some e2 => (clock (startOf l1) <? clock e2) && (clock (startOf l2) <? clock e1)
  | _, _ => true
  end.

(** The labels are pairwise non-overlapping on the clock, in whatever
    order they are listed. *)
Fixpoint pairwiseDisjoint (clock : string → Z) (labels : list string) : bool :=
  match labels with
  | [] => true
  | label :: rest =>
      forallb (fun other => negb (labelsClash clock label other)) rest
      && pairwiseDisjoint clock rest
  end.

(** A course of three credits and a course of one credit of the same
    instructor. *)
Definition blockAndSingleOptions : TimetableGeneratorOptions :=
  mkOptions [cs101; Course.mk 3 "CS103" 1 30 7 1] [drSmith] [roomA] [] 99.

(** Two courses listed under one identifier. *)
Definition sharedIdOptions : TimetableGeneratorOptions :=
  mkOptions [Course.mk 1 "CS101" 3 30 7 1; Course.mk 1 "CS101B" 4 30 7 1]
            [drSmith] [roomA] [] 99.

(** Two hand-made rows of instructor 7 with different (day, startTime,
    endTime) and the same key text. *)
Definition dashInStartRow : ScheduledClass.t :=
  ScheduledClass.mk 0 1 7 10 "Mon" "09:00-10:00" (Some "11:00") 99.

Definition dashInDayRow : ScheduledClass.t :=
  ScheduledClass.mk 0 2 7 11 "Mon-09:00" "10:00" (Some "11:00") 99.

(** * Properties *)

(** ** JavaScript primitives on examples *)

Example parseInt_decimal_prefix : parseInt " 42abc" = Num 42.
Proof. reflexivity. Qed.

Example parseInt_hex : parseInt "-0x1F" = Num (-31).
Proof. reflexivity. Qed.

Example parseInt_no_digit : parseInt "abc" = NaN.
Proof. reflexivity. Qed.

Example split_dash_label : split_dash "09:00 - 10:00" = ["09:00 "; " 10:00"].
Proof. reflexivity. Qed.

Example startOf_label : startOf "09:00 - 10:00" = "09:00".
Proof. reflexivity. Qed.

Example endOf_label : endOf "09:00 - 10:00" = Some "10:00".
Proof. reflexivity. Qed.

Example endOf_no_dash : endOf "09:00" = None.
Proof. reflexivity. Qed.

(** ** Dictionaries of arrays *)

Section PushTo.
Context `{Countable K} {V : Type}.
Implicit Types (m : gmap K (list V)) (k : K) (v : V).

Lemma lookup_ensureList_eq m k :
  ensureList k m !! k = Some (default [] (m !! k)).
Proof.
  unfold ensureList. destruct (m !! k) eqn:E; simpl.
  - by rewrite E.
  - by rewrite lookup_insert_eq.
Qed.

Lemma lookup_ensureList_ne m k k' :
  k ≠ k' → ensureList k m !! k' = m !! k'.
Proof.
  intros Hne. unfold ensureList. destruct (m !! k); [done|].
  by rewrite lookup_insert_ne.
Qed.

Lemma lookup_ensureList_default m k k' :
  default [] (ensureList k m !! k') = default [] (m !! k').
Proof.
  destruct (decide (k = k')) as [->|Hne].
  - by rewrite lookup_ensureList_eq.
  - by rewrite lookup_ensureList_ne.
Qed.

Lemma lookup_pushList_default m k k' v :
  is_Some (m !! k) →
  default [] (pushList k v m !! k')
  = default [] (m !! k') ++ (if decide (k = k') then [v] else []).
Proof.
  intros [l Hl]. unfold pushList. destruct (decide (k = k')) as [<-|Hne].
  - by rewrite lookup_alter_eq, Hl.
  - rewrite lookup_alter_ne by done. by rewrite app_nil_r.
Qed.

Lemma pushList_is_Some m k k' v :
  is_Some (m !! k') → is_Some (pushList k v m !! k').
Proof.
  intros [l Hl]. unfold pushList. destruct (decide (k = k')) as [<-|Hne].
  - rewrite lookup_alter_eq, Hl. by eexists.
  - rewrite lookup_alter_ne by done. by eexists.
Qed.

Lemma ensureList_is_Some m k : is_Some (ensureList k m !! k).
Proof. rewrite lookup_ensureList_eq. by eexists. Qed.

Lemma ensureList_keeps m k k' :
  is_Some (m !! k') → is_Some (ensureList k m !! k').
Proof.
  intros Hs. destruct (decide (k = k')) as [->|Hne].
  - apply ensureList_is_Some.
  - by rewrite lookup_ensureList_ne.
Qed.

Lemma lookup_pushTo_eq m k v :
  pushTo k v m !! k = Some (default [] (m !! k) ++ [v]).
Proof.
  unfold pushTo, pushList. by rewrite lookup_alter_eq, lookup_ensureList_eq.
Qed.

Lemma lookup_pushTo_ne m k k' v :
  k ≠ k' → pushTo k v m !! k' = m !! k'.
Proof.
  intros Hne. unfold pushTo, pushList.
  rewrite lookup_alter_ne by done. by apply lookup_ensureList_ne.
Qed.

Lemma lookup_pushTo_default m k k' v :
  default [] (pushTo k v m !! k')
  = default [] (m !! k') ++ (if decide (k = k') then [v] else []).
Proof.
  destruct (decide (k = k')) as [<-|Hne].
  - by rewrite lookup_pushTo_eq.
  - rewrite lookup_pushTo_ne by done. by rewrite app_nil_r.
Qed.

End PushTo.

(** [someSlot] decides membership of the slot. *)
Lemma someSlot_true xs slot :
  someSlot xs slot = true ↔ slot ∈ default [] xs.
Proof.
  destruct xs as [l|]; simpl; [|by rewrite elem_of_nil].
  rewrite existsb_exists. split.
  - intros (s & Hin & Heq). apply andb_true_iff in Heq as [H1 H2].
    apply bool_decide_eq_true in H1, H2.
    assert (s = slot) as <- by (destruct s, slot; simpl in *; congruence).
    by apply list_elem_of_In.
  - intros Hin. exists slot. split; [by apply list_elem_of_In|].
    by rewrite !bool_decide_eq_true_2.
Qed.

Lemma someSlot_false xs slot :
  someSlot xs slot = false ↔ slot ∉ default [] xs.
Proof.
  rewrite <- someSlot_true. destruct (someSlot xs slot); naive_solver.
Qed.

(** ** ConstraintIndex *)

(** Conflict lists only grow while the constraints are indexed. *)
Lemma conflictsOf_indexConstraint_mono idx c a x :
  x ∈ conflictsOf idx a → x ∈ conflictsOf (indexConstraint idx c) a.
Proof.
  unfold indexConstraint, conflictsOf.
  repeat case_decide; simpl; try done.
  intros Hx.
  rewrite lookup_pushList_default
    by (apply pushList_is_Some, ensureList_is_Some).
  rewrite lookup_pushList_default
    by (apply ensureList_keeps, ensureList_is_Some).
  rewrite !lookup_ensureList_default.
  set_solver.
Qed.

Lemma conflictsOf_fold_mono cs idx a x :
  x ∈ conflictsOf idx a → x ∈ conflictsOf (fold_left indexConstraint cs idx) a.
Proof.
  revert idx. induction cs as [|c cs IH]; intros idx Hx; simpl; [done|].
  by apply IH, conflictsOf_indexConstraint_mono.
Qed.

(** Indexing one course-conflict record stores the edge both ways. *)
Lemma indexConstraint_conflict idx c :
  Constraint.type c = "course_conflict" →
  parseInt (Constraint.timeSlot c)
    ∈ conflictsOf (indexConstraint idx c) (Num (Constraint.entityId c))
  ∧ Num (Constraint.entityId c)
    ∈ conflictsOf (indexConstraint idx c) (parseInt (Constraint.timeSlot c)).
Proof.
  intros Hty. unfold indexConstraint, conflictsOf. rewrite Hty.
  repeat (case_decide; [discriminate|]). case_decide; [|done]. simpl.
  rewrite !(lookup_pushList_default (pushList _ _ _))
    by (apply pushList_is_Some, ensureList_is_Some).
  rewrite !lookup_pushList_default
    by (apply ensureList_keeps, ensureList_is_Some).
  split.
  - rewrite (decide_True (P := Num _ = Num _)) by done. set_solver.
  - rewrite (decide_True (P := parseInt _ = parseInt _)) by done. set_solver.
Qed.

Lemma buildIndex_conflict_from idx cs c :
  c ∈ cs →
  Constraint.type c = "course_conflict" →
  parseInt (Constraint.timeSlot c)
    ∈ conflictsOf (fold_left indexConstraint cs idx) (Num (Constraint.entityId c))
  ∧ Num (Constraint.entityId c)
    ∈ conflictsOf (fold_left indexConstraint cs idx) (parseInt (Constraint.timeSlot c)).
Proof.
  intros Hin Hty. revert idx.
  induction cs as [|c' cs IH]; intros idx; [by apply elem_of_nil in Hin|].
  apply elem_of_cons in Hin as [->|Hin]; simpl.
  - destruct (indexConstraint_conflict idx c' Hty) as [H1 H2].
    split; by apply conflictsOf_fold_mono.
  - by apply IH.
Qed.

(** ** Availability Oracle *)

Section Oracle.
Context {schema : Schema} {random : RandomSource}.
Implicit Types (idx : ConstraintIndex) (st : State) (course : Course.t)
  (room : Classroom.t) (cell slot : ClassSlot).

Lemma isSlotAvailable_feasible idx st course slot roomId :
  isSlotAvailable idx st course slot roomId = true ↔ feasible idx st course roomId slot.
Proof.
  unfold isSlotAvailable, feasible, cellsOf, conflictsOf.
  destruct (someSlot (instructorUnavailable idx !! _) slot) eqn:E1.
  { apply someSlot_true in E1. split; [done|]. intros (? & ? & ? & ? & ?); done. }
  destruct (someSlot (instructorAssignments st !! _) slot) eqn:E2.
  { apply someSlot_true in E2. split; [done|]. intros (? & ? & ? & ? & ?); done. }
  destruct (someSlot (roomUnavailable idx !! _) slot) eqn:E3.
  { apply someSlot_true in E3. split; [done|]. intros (? & ? & ? & ? & ?); done. }
  destruct (someSlot (classroomAssignments st !! _) slot) eqn:E4.
  { apply someSlot_true in E4. split; [done|]. intros (? & ? & ? & ? & ?); done. }
  apply someSlot_false in E1, E2, E3, E4.
  destruct (courseConflicts idx !! Num (Course.id course)) as [l|] eqn:E5; simpl.
  - rewrite negb_true_iff. split.
    + intros Hex. repeat split; try done. intros b Hb Hin.
      apply someSlot_true in Hin.
      assert (existsb (λ c, someSlot (courseAssignments st !! c) slot) l = true) as Hc; [|congruence].
      apply existsb_exists. exists b. split; [by apply list_elem_of_In|done].
    + intros (_ & _ & _ & _ & Hall).
      destruct (existsb _ l) eqn:Hex; [|done].
      apply existsb_exists in Hex as (b & Hb & Hin).
      apply someSlot_true in Hin. apply list_elem_of_In in Hb.
      by destruct (Hall b Hb).
  - split; [|done]. intros _. repeat split; try done. intros b Hb.
    by apply elem_of_nil in Hb.
Qed.

(** A course that the index lists as conflicting and that occupies the
    slot makes the slot unavailable. *)
Lemma isSlotAvailable_conflict idx st course slot roomId b :
  b ∈ conflictsOf idx (Num (Course.id course)) →
  slot ∈ cellsOf (courseAssignments st) b →
  isSlotAvailable idx st course slot roomId = false.
Proof.
  intros Hb Hin. destruct (isSlotAvailable _ _ _ _ _) eqn:E; [|done].
  apply isSlotAvailable_feasible in E as (_ & _ & _ & _ & Hall).
  by destruct (Hall b Hb).
Qed.

End Oracle.

(** ** Slot Allocator: every run is a sequence of elementary moves *)

Section Trace.
Context {schema : Schema} {random : RandomSource}.
Implicit Types (idx : ConstraintIndex) (st : State) (course : Course.t)
  (room : Classroom.t) (cell slot : ClassSlot).

Lemma shuffled_inv {A : Type} (l xs : list A) st st1 :
  shuffled l st = (xs, st1) → xs ≡ₚ l ∧ ∃ g, st1 = setRng g st.
Proof.
  unfold shuffled. pose proof (shuffle_perm A l (rng st)) as Hp.
  destruct (shuffle l (rng st)) as [ys g]. intros [= <- <-]. eauto.
Qed.

Lemma slotLabel_lookup (i : nat) :
  (i < length timeSlots)%nat → timeSlots !! i = Some (slotLabel i).
Proof.
  intros Hi. unfold slotLabel.
  destruct (lookup_lt_is_Some_2 timeSlots i Hi) as [x ->]. done.
Qed.

Lemma blockSlot_inj d (s j j' : nat) :
  NoDup timeSlots →
  (s + j < length timeSlots)%nat → (s + j' < length timeSlots)%nat →
  blockSlot d s j = blockSlot d s j' → j = j'.
Proof.
  intros Hnd Hj Hj' [= Heq].
  apply slotLabel_lookup in Hj, Hj'. rewrite Heq in Hj.
  pose proof (NoDup_lookup _ _ _ _ Hnd Hj Hj'). lia.
Qed.

(** A start position drawn by the allocator leaves room for the block. *)
Lemma slotIndices_in_range (k startIdx : nat) (slotIndices : list nat) :
  slotIndices ≡ₚ seq 0 (length timeSlots + 1 - k) →
  startIdx ∈ slotIndices → (startIdx + k ≤ length timeSlots)%nat.
Proof.
  intros Hp Hin. rewrite Hp in Hin. apply elem_of_seq in Hin. lia.
Qed.

(** Booking a cell keeps every other cell feasible for the same course and
    room. *)
Lemma feasible_after_place idx st tid course room cell cell' s e :
  feasible idx st course (Classroom.id room) cell' →
  cell' ≠ cell →
  feasible idx (emit tid course room cell s e (assign course room cell st))
           course (Classroom.id room) cell'.
Proof.
  intros (H1 & H2 & H3 & H4 & H5) Hne. unfold feasible, cellsOf in *. simpl.
  rewrite !lookup_pushTo_eq. simpl.
  repeat split; try done.
  - rewrite elem_of_app, list_elem_of_singleton. intros [?|?]; done.
  - rewrite elem_of_app, list_elem_of_singleton. intros [?|?]; done.
  - intros b Hb. rewrite lookup_pushTo_default. rewrite elem_of_app.
    intros [Hin|Hin]; [by apply (H5 b Hb)|].
    case_decide; [|by apply elem_of_nil in Hin].
    by apply list_elem_of_singleton in Hin.
Qed.

Lemma commitBlockSlot_step idx tid course room d (s k j : nat) st st' :
  (j < k)%nat → (s + k ≤ length timeSlots)%nat →
  feasible idx st course (Classroom.id room) (blockSlot d s j) →
  commitBlockSlot tid course room d s k st j = Some st' →
  ∃ e, st' = emit tid course room (blockSlot d s j)
               (startOf (slotLabel (s + j))) (Some e)
               (assign course room (blockSlot d s j) st)
       ∧ step idx st st'.
Proof.
  intros Hj Hk Hf. unfold commitBlockSlot. simpl.
  destruct (j =? k - 1)%nat eqn:Hlast; simpl.
  - destruct (endOf (slotLabel (s + j))) as [e|] eqn:He; simpl; [|done].
    intros [= <-]. exists e. split; [done|].
    apply step_place; [done|]. repeat split; simpl.
    exists (s + j)%nat. split; [apply slotLabel_lookup; lia|]. by left.
  - intros [= <-]. eexists. split; [done|].
    apply Nat.eqb_neq in Hlast.
    apply step_place; [done|]. repeat split; simpl.
    exists (s + j)%nat. split; [apply slotLabel_lookup; lia|].
    right. exists (slotLabel (s + j + 1)). split; [|done].
    replace (S (s + j)) with (s + j + 1)%nat by lia.
    apply slotLabel_lookup. lia.
Qed.

Lemma commitBlockFrom_steps idx tid course room d (s k : nat) (js : list nat) st st' :
  NoDup timeSlots → NoDup js →
  (s + k ≤ length timeSlots)%nat →
  (∀ j, j ∈ js → (j < k)%nat
                 ∧ feasible idx st course (Classroom.id room) (blockSlot d s j)) →
  commitBlockFrom tid course room d s k js st = Some st' →
  rtc (step idx) st st'.
Proof.
  intros Hts Hjs Hk. revert st.
  induction js as [|j js IH]; intros st Hall; simpl.
  { by intros [= <-]. }
  destruct (commitBlockSlot tid course room d s k st j) as [st1|] eqn:E1;
    simpl; [|done].
  intros Hrest. apply NoDup_cons in Hjs as [Hj Hjs].
  destruct (Hall j) as [Hjk Hf]; [by left|].
  destruct (commitBlockSlot_step idx _ _ _ _ _ _ _ _ _ Hjk Hk Hf E1) as (e & -> & Hstep).
  eapply rtc_l; [exact Hstep|].
  apply IH; [done| |done].
  intros j' Hj'. destruct (Hall j') as [Hj'k Hf']; [by right|].
  split; [done|].
  apply feasible_after_place; [done|].
  intros Heq. apply blockSlot_inj in Heq; [|done|lia|lia]. by subst.
Qed.

Lemma allAvailable_feasible idx st course room d (s k j : nat) :
  allAvailable idx st course room d s k = true → (j < k)%nat →
  feasible idx st course (Classroom.id room) (blockSlot d s j).
Proof.
  unfold allAvailable. rewrite forallb_forall. intros Hall Hj.
  apply isSlotAvailable_feasible, Hall, in_seq. lia.
Qed.

Lemma commitBlock_steps idx tid course room d (s k : nat) st st' :
  NoDup timeSlots → (s + k ≤ length timeSlots)%nat →
  allAvailable idx st course room d s k = true →
  commitBlock tid course room d s k st = Some st' →
  rtc (step idx) st st'.
Proof.
  intros Hts Hk Hall. apply commitBlockFrom_steps; [done|apply NoDup_seq|done|].
  intros j Hj. apply elem_of_seq in Hj.
  split; [lia|]. eapply allAvailable_feasible; [exact Hall|lia].
Qed.

Lemma tryDays_steps idx tid course room (k : nat) days st b st' :
  NoDup timeSlots →
  tryDays idx tid course room k days st = Some (b, st') →
  rtc (step idx) st st'.
Proof.
  intros Hts. revert st.
  induction days as [|d days IH]; intros st; simpl.
  { by intros [= <- <-]. }
  destruct (shuffled (seq 0 (length timeSlots + 1 - k)) st) as [slotIndices st1] eqn:Es.
  apply shuffled_inv in Es as [Hp [g ->]].
  destruct (find _ slotIndices) as [startIdx|] eqn:Ef.
  - apply find_some in Ef as [Hin Hall].
    destruct (commitBlock _ _ _ _ _ _ _) as [st2|] eqn:Ec; simpl; [|done].
    intros [= <- <-].
    eapply rtc_l; [apply step_rng|].
    eapply commitBlock_steps; [done| |exact Hall|exact Ec].
    eapply slotIndices_in_range; [exact Hp|by apply list_elem_of_In].
  - intros Hrest. eapply rtc_l; [apply step_rng|]. by apply IH.
Qed.

Lemma tryRooms_steps idx tid course (k : nat) days rooms st b st' :
  NoDup timeSlots →
  tryRooms idx tid course k days rooms st = Some (b, st') →
  rtc (step idx) st st'.
Proof.
  intros Hts. revert st.
  induction rooms as [|room rooms IH]; intros st; simpl.
  { by intros [= <- <-]. }
  destruct (tryDays idx tid course room k days st) as [[assigned st1]|] eqn:Ed;
    simpl; [|done].
  apply tryDays_steps in Ed; [|done].
  destruct assigned.
  - by intros [= <- <-].
  - intros Hrest. etrans; [exact Ed|]. by apply IH.
Qed.

Lemma allSlots_label slot :
  slot ∈ allSlots → ∃ i : nat, timeSlots !! i = Some (timeSlot slot).
Proof.
  unfold allSlots. rewrite list_elem_of_In, in_flat_map.
  intros (d & _ & Hin). apply in_map_iff in Hin as (ts & <- & Hts). simpl.
  apply list_elem_of_In, list_elem_of_lookup in Hts. done.
Qed.

Lemma commitSingle_step idx tid course room slot st :
  slot ∈ allSlots →
  isSlotAvailable idx st course slot (Classroom.id room) = true →
  step idx st (commitSingle tid course room slot st).
Proof.
  intros Hin Hav. apply isSlotAvailable_feasible in Hav.
  apply step_place; [done|]. repeat split; simpl.
  destruct (allSlots_label slot Hin) as [i Hi]. exists i. split; [done|by left].
Qed.

Lemma scatterSlots_steps idx tid course room (k : nat) slots (n n' : nat) st st' :
  (∀ slot, slot ∈ slots → slot ∈ allSlots) →
  scatterSlots idx tid course room k slots n st = (n', st') →
  rtc (step idx) st st'.
Proof.
  revert n st. induction slots as [|slot slots IH]; intros n st Hsub; simpl.
  { by intros [= <- <-]. }
  destruct (k <=? n)%nat; [by intros [= <- <-]|].
  destruct (isSlotAvailable idx st course slot (Classroom.id room)) eqn:Hav.
  - intros Hrest. eapply rtc_l.
    + apply (commitSingle_step idx tid course room slot st); [|done].
      apply Hsub. by left.
    + eapply IH; [|exact Hrest]. intros s Hs. apply Hsub. by right.
  - apply IH. intros s Hs. apply Hsub. by right.
Qed.

Lemma scatterRooms_steps idx tid course (k : nat) slots rooms (n n' : nat) st st' :
  (∀ slot, slot ∈ slots → slot ∈ allSlots) →
  scatterRooms idx tid course k slots rooms n st = (n', st') →
  rtc (step idx) st st'.
Proof.
  intros Hsub. revert n st.
  induction rooms as [|room rooms IH]; intros n st; simpl.
  { by intros [= <- <-]. }
  destruct (k <=? n)%nat; [by intros [= <- <-]|].
  destruct (scatterSlots idx tid course room k slots n st) as [n1 st1] eqn:E1.
  apply scatterSlots_steps in E1; [|done].
  intros Hrest. etrans; [exact E1|]. by eapply IH.
Qed.

Lemma scatter_steps idx tid course (k : nat) rooms st :
  rtc (step idx) st (scatter idx tid course k rooms st).
Proof.
  unfold scatter.
  destruct (shuffled allSlots st) as [shuffledSlots st1] eqn:Es.
  apply shuffled_inv in Es as [Hp [g ->]].
  destruct (scatterRooms _ _ _ _ _ _ _ _) as [n st2] eqn:Er.
  apply scatterRooms_steps in Er; [|by intros slot Hs; rewrite <- Hp].
  eapply rtc_l; [apply step_rng|].
  etrans; [exact Er|].
  destruct (n <? k)%nat; [|done]. apply rtc_once, step_warn.
Qed.

Lemma placeCourseIn_steps idx tid rooms course st st' :
  NoDup timeSlots →
  placeCourseIn idx tid rooms course st = Some st' →
  rtc (step idx) st st'.
Proof.
  intros Hts. unfold placeCourseIn. destruct rooms as [|room rooms].
  { intros [= <-]. apply rtc_once, step_warn. }
  destruct (shuffled weekDays st) as [shuffledDays st1] eqn:Es.
  apply shuffled_inv in Es as [_ [g ->]].
  destruct (tryRooms _ _ _ _ _ _ _) as [[assigned st2]|] eqn:Er; simpl; [|done].
  apply tryRooms_steps in Er; [|done].
  intros Hres. eapply rtc_l; [apply step_rng|]. etrans; [exact Er|].
  destruct assigned; injection Hres as <-; [done|apply scatter_steps].
Qed.

Lemma placeCourses_steps idx opts cs st st' :
  NoDup timeSlots →
  placeCourses idx opts cs st = Some st' →
  rtc (step idx) st st'.
Proof.
  intros Hts. revert st. induction cs as [|course cs IH]; intros st; simpl.
  { by intros [= <-]. }
  destruct (placeCourse idx opts course st) as [st1|] eqn:E1; simpl; [|done].
  apply placeCourseIn_steps in E1; [|done].
  intros Hrest. etrans; [exact E1|]. by apply IH.
Qed.

(** With pairwise distinct time-slot labels, the final state of a run is
    reached from the initial state by elementary moves only. *)
Lemma runGenerator_steps opts g st :
  NoDup timeSlots →
  runGenerator opts g = Some st →
  rtc (step (buildIndex (constraints opts))) (initialState g) st.
Proof. intros Hts. by apply placeCourses_steps. Qed.

End Trace.

(** ** No double-booking *)

Section Chronology.
Context (clock : string → Z).

(** In a chronological list every label ends after it starts, and ends no
    later than any later label starts. *)
Lemma chronological_lookup labels (i : nat) a :
  chronological clock labels = true → labels !! i = Some a →
  ∃ e, endOf a = Some e ∧ clock (startOf a) < clock e
       ∧ ∀ (j : nat) b, (i < j)%nat → labels !! j = Some b →
                        clock e ≤ clock (startOf b) ∧ clock (startOf a) < clock (startOf b).
Proof.
  revert i a. induction labels as [|x labels IH]; intros i a; [done|].
  simpl. destruct (endOf x) as [ex|] eqn:Hex; [|done].
  rewrite !andb_true_iff, Z.ltb_lt. intros [[Hlt Hnext] Hrest].
  destruct i as [|i]; simpl.
  - intros [= <-]. exists ex. split; [done|]. split; [done|].
    intros j b Hj Hb. destruct j as [|j]; [lia|]. simpl in Hb.
    destruct labels as [|y labels]; [done|]. apply Z.leb_le in Hnext.
    destruct j as [|j]; simpl in Hb.
    + injection Hb as <-. lia.
    + destruct (IH 0%nat y Hrest eq_refl) as (ey & _ & Hy & Hlater).
      destruct (Hlater (S j) b) as [? ?]; [lia|done|]. lia.
  - intros Ha. destruct (IH i a Hrest Ha) as (e & He & Hlt' & Hlater).
    exists e. split; [done|]. split; [done|].
    intros j b Hj Hb. destruct j as [|j]; [lia|]. simpl in Hb.
    apply (Hlater j b); [lia|done].
Qed.

Lemma overlapping_sym r1 r2 : overlapping clock r1 r2 = overlapping clock r2 r1.
Proof.
  unfold overlapping.
  destruct (ScheduledClass.endTime r1), (ScheduledClass.endTime r2);
    repeat case_bool_decide; simpl; try congruence.
  apply andb_comm.
Qed.

End Chronology.

Section NoDoubleBooking.
Context {schema : Schema} {random : RandomSource}.
Implicit Types (idx : ConstraintIndex) (st : State) (cell : ClassSlot)
  (row : ScheduledClass.t).

(** Rows of two different cells of one day do not overlap. *)
Lemma rows_of_distinct_cells clock row1 row2 cell1 cell2 :
  chronological clock timeSlots = true →
  rowOfCell row1 cell1 → rowOfCell row2 cell2 → cell1 ≠ cell2 →
  overlapping clock row1 row2 = false.
Proof.
  intros Hch (Hd1 & Hs1 & i1 & Hi1 & He1) (Hd2 & Hs2 & i2 & Hi2 & He2) Hne.
  unfold overlapping. case_bool_decide as Hday; [|done]. simpl.
  assert (timeSlot cell1 ≠ timeSlot cell2) as Hlab.
  { intros Heq. apply Hne. destruct cell1, cell2; simpl in *. congruence. }
  assert (i1 ≠ i2) as Hi by (intros ->; congruence).
  destruct (chronological_lookup clock _ _ _ Hch Hi1) as (e1 & Hend1 & Hlt1 & Hlater1).
  destruct (chronological_lookup clock _ _ _ Hch Hi2) as (e2 & Hend2 & Hlt2 & Hlater2).
  assert (∃ x1, ScheduledClass.endTime row1 = Some x1
                ∧ ∀ (j : nat) b, (i1 < j)%nat → timeSlots !! j = Some b →
                                 clock x1 ≤ clock (startOf b)) as (x1 & -> & Hx1).
  { destruct He1 as [->|(next & Hnext & ->)].
    - exists e1. split; [done|]. intros j b Hj Hb. by apply (Hlater1 j b).
    - eexists. split; [done|]. intros j b Hj Hb.
      destruct (decide (j = S i1)) as [->|Hj']; [by simplify_eq|].
      destruct (chronological_lookup clock _ _ _ Hch Hnext) as (? & _ & _ & Hl).
      destruct (Hl j b); [lia|done|lia]. }
  assert (∃ x2, ScheduledClass.endTime row2 = Some x2
                ∧ ∀ (j : nat) b, (i2 < j)%nat → timeSlots !! j = Some b →
                                 clock x2 ≤ clock (startOf b)) as (x2 & -> & Hx2).
  { destruct He2 as [->|(next & Hnext & ->)].
    - exists e2. split; [done|]. intros j b Hj Hb. by apply (Hlater2 j b).
    - eexists. split; [done|]. intros j b Hj Hb.
      destruct (decide (j = S i2)) as [->|Hj']; [by simplify_eq|].
      destruct (chronological_lookup clock _ _ _ Hch Hnext) as (? & _ & _ & Hl).
      destruct (Hl j b); [lia|done|lia]. }
  rewrite Hs1, Hs2. apply andb_false_iff.
  destruct (decide (i1 < i2)%nat) as [Hlt|Hge].
  - right. apply Z.ltb_ge. by apply (Hx1 i2).
  - left. apply Z.ltb_ge. apply (Hx2 i1); [lia|done].
Qed.

Lemma cellsOf_pushTo `{Countable K} (m : gmap K (list ClassSlot)) (k k' : K) cell :
  cellsOf (pushTo k cell m) k'
  = cellsOf m k' ++ (if decide (k = k') then [cell] else []).
Proof. apply lookup_pushTo_default. Qed.

Lemma filter_snoc {A : Type} (f : A → bool) (l : list A) (x : A) :
  List.filter f (l ++ [x]) = List.filter f l ++ (if f x then [x] else []).
Proof. rewrite List.filter_app. simpl. by destruct (f x). Qed.

Lemma bookedOnce_initial g : bookedOnce (initialState g).
Proof.
  repeat split; intros; unfold cellsOf; simpl; rewrite ?lookup_empty; constructor.
Qed.

Lemma bookedOnce_step idx st st' :
  step idx st st' → bookedOnce st → bookedOnce st'.
Proof.
  intros Hstep (Hi & Hc & Hri & Hrc).
  destruct Hstep as [st tid course room cell s e Hf Hrow| |]; [|done..].
  destruct Hf as (_ & Hfi & _ & Hfc & _).
  unfold bookedOnce. simpl. repeat split.
  - intros i. rewrite cellsOf_pushTo. case_decide as Heq.
    + subst i. apply NoDup_app. repeat split; [done| |apply NoDup_singleton].
      intros x Hx Hx'. apply list_elem_of_singleton in Hx'. by subst.
    + by rewrite app_nil_r.
  - intros c. rewrite cellsOf_pushTo. case_decide as Heq.
    + subst c. apply NoDup_app. repeat split; [done| |apply NoDup_singleton].
      intros x Hx Hx'. apply list_elem_of_singleton in Hx'. by subst.
    + by rewrite app_nil_r.
  - intros i. unfold rowsOfInstructor. rewrite cellsOf_pushTo, filter_snoc. simpl.
    apply Forall2_app; [apply Hri|].
    case_bool_decide as Heq; case_decide as Heq'; try congruence; simpl;
      [by apply Forall2_cons_2|constructor].
  - intros c. unfold rowsOfClassroom. rewrite cellsOf_pushTo, filter_snoc. simpl.
    apply Forall2_app; [apply Hrc|].
    case_bool_decide as Heq; case_decide as Heq'; try congruence; simpl;
      [by apply Forall2_cons_2|constructor].
Qed.

Lemma bookedOnce_steps idx st st' :
  rtc (step idx) st st' → bookedOnce st → bookedOnce st'.
Proof. induction 1; eauto using bookedOnce_step. Qed.

(** In a well-booked state every row has its cell among the bookings of
    its instructor and of its classroom. *)
Lemma bookedOnce_row_cell st row :
  bookedOnce st → row ∈ scheduledClasses st →
  (∃ cell, rowOfCell row cell
           ∧ cell ∈ cellsOf (instructorAssignments st) (ScheduledClass.instructorId row))
  ∧ (∃ cell, rowOfCell row cell
             ∧ cell ∈ cellsOf (classroomAssignments st) (ScheduledClass.classroomId row)).
Proof.
  intros (_ & _ & Hri & Hrc) Hin. split.
  - assert (row ∈ rowsOfInstructor (ScheduledClass.instructorId row) (scheduledClasses st)) as Hf.
    { apply list_elem_of_In, filter_In. split; [by apply list_elem_of_In|].
      by apply bool_decide_eq_true. }
    apply list_elem_of_lookup in Hf as [n Hn].
    destruct (Forall2_lookup_l _ _ _ _ _ (Hri _) Hn) as (cell & Hcell & Hrow).
    exists cell. split; [done|]. apply list_elem_of_lookup. eauto.
  - assert (row ∈ rowsOfClassroom (ScheduledClass.classroomId row) (scheduledClasses st)) as Hf.
    { apply list_elem_of_In, filter_In. split; [by apply list_elem_of_In|].
      by apply bool_decide_eq_true. }
    apply list_elem_of_lookup in Hf as [n Hn].
    destruct (Forall2_lookup_l _ _ _ _ _ (Hrc _) Hn) as (cell & Hcell & Hrow).
    exists cell. split; [done|]. apply list_elem_of_lookup. eauto.
Qed.

Lemma noDoubleBooking_step clock idx st st' :
  chronological clock timeSlots = true →
  step idx st st' → bookedOnce st →
  noDoubleBooking clock (scheduledClasses st) →
  noDoubleBooking clock (scheduledClasses st').
Proof.
  intros Hch Hstep Hb Hnd.
  destruct Hstep as [st tid course room cell s e Hf Hrow| |]; [|done..].
  destruct Hf as (_ & Hfi & _ & Hfc & _).
  set (new := ScheduledClass.mk 0 (Course.id course) (Course.instructorId course)
                (Classroom.id room) (day cell) s e tid) in *.
  assert (∀ old, old ∈ scheduledClasses st →
                 ScheduledClass.instructorId old = ScheduledClass.instructorId new
                 ∨ ScheduledClass.classroomId old = ScheduledClass.classroomId new →
                 overlapping clock old new = false) as Hold.
  { intros old Hin Hsame.
    destruct (bookedOnce_row_cell st old Hb Hin) as [(c1 & Hc1 & Hin1) (c2 & Hc2 & Hin2)].
    destruct Hsame as [Hsame|Hsame]; simpl in Hsame.
    - apply (rows_of_distinct_cells clock old new c1 cell); [done..|].
      intros ->. by rewrite Hsame in Hin1.
    - apply (rows_of_distinct_cells clock old new c2 cell); [done..|].
      intros ->. by rewrite Hsame in Hin2. }
  intros p q r1 r2 Hpq Hp Hq Hsame. simpl in Hp, Hq.
  apply lookup_snoc_Some in Hp as [[Hp1 Hp]|[Hp1 <-]];
    apply lookup_snoc_Some in Hq as [[Hq1 Hq]|[Hq1 <-]].
  - by apply (Hnd p q).
  - apply Hold; [|done]. apply list_elem_of_lookup. eauto.
  - rewrite overlapping_sym. apply Hold; [apply list_elem_of_lookup; eauto|].
    destruct Hsame as [?|?]; [by left|by right].
  - lia.
Qed.

Lemma noDoubleBooking_steps clock idx st st' :
  chronological clock timeSlots = true →
  rtc (step idx) st st' → bookedOnce st →
  noDoubleBooking clock (scheduledClasses st) →
  noDoubleBooking clock (scheduledClasses st').
Proof.
  intros Hch Hsteps. induction Hsteps as [|x y z Hxy Hyz IH]; [done|].
  intros Hb Hnd. apply IH.
  - by eapply bookedOnce_step.
  - by eapply noDoubleBooking_step.
Qed.

(** A chronological list of labels has no repeated label. *)
Lemma chronological_NoDup clock labels :
  chronological clock labels = true → NoDup labels.
Proof.
  intros Hch. apply NoDup_alt. intros i j a Hi Hj.
  destruct (chronological_lookup clock _ _ _ Hch Hi) as (ei & _ & _ & Hli).
  destruct (chronological_lookup clock _ _ _ Hch Hj) as (ej & _ & _ & Hlj).
  destruct (Nat.lt_trichotomy i j) as [Hlt|[Heq|Hgt]]; [|done|].
  - destruct (Hli j a Hlt Hj). lia.
  - destruct (Hlj i a Hgt Hi). lia.
Qed.

End NoDoubleBooking.

(** ** What a run appends to the schedule and to the console *)

Section Effects.
Context {schema : Schema} {random : RandomSource}.
Implicit Types (idx : ConstraintIndex) (st : State) (course : Course.t)
  (room : Classroom.t) (rows : list ScheduledClass.t).

Lemma appends_nil cid st st' :
  scheduledClasses st' = scheduledClasses st → console st' = console st →
  appends cid st st' [].
Proof. intros H1 H2. repeat split; [by rewrite app_nil_r|done|constructor]. Qed.

Lemma appends_trans cid st1 st2 st3 rows1 rows2 :
  appends cid st1 st2 rows1 → appends cid st2 st3 rows2 →
  appends cid st1 st3 (rows1 ++ rows2).
Proof.
  intros (H1 & H2 & H3) (H4 & H5 & H6). repeat split.
  - by rewrite H4, H1, app_assoc.
  - congruence.
  - by apply Forall_app.
Qed.

Lemma commitBlockFrom_rows tid course room d (s k : nat) (js : list nat) st st' :
  commitBlockFrom tid course room d s k js st = Some st' →
  ∃ rows, appends (Course.id course) st st' rows
    ∧ Forall2 (fun (j : nat) r =>
                 ScheduledClass.day r = d
                 ∧ ScheduledClass.classroomId r = Classroom.id room
                 ∧ ScheduledClass.instructorId r = Course.instructorId course
                 ∧ ScheduledClass.startTime r = startOf (slotLabel (s + j))
                 ∧ ScheduledClass.endTime r
                   = if (j =? k - 1)%nat then endOf (slotLabel (s + j))
                     else Some (startOf (slotLabel (s + j + 1)))) js rows.
Proof.
  revert st. induction js as [|j js IH]; intros st; simpl.
  { intros [= <-]. exists []. split; [by apply appends_nil|constructor]. }
  destruct (commitBlockSlot tid course room d s k st j) as [st1|] eqn:E1;
    simpl; [|done].
  unfold commitBlockSlot in E1. simpl in E1.
  destruct (if (j =? k - 1)%nat then _ else _) as [e|] eqn:He; simpl in E1; [|done].
  injection E1 as <-.
  intros Hrest. destruct (IH _ Hrest) as (rows & Happ & Hrows).
  set (row := ScheduledClass.mk 0 (Course.id course) (Course.instructorId course)
                (Classroom.id room) d (startOf (slotLabel (s + j))) (Some e) tid).
  exists ([row] ++ rows). split.
  - eapply appends_trans; [|exact Happ].
    repeat split; simpl; [done..|]. by repeat constructor.
  - simpl. constructor; [|done]. simpl. by rewrite He.
Qed.

Lemma commitBlock_rows tid course room d (s k : nat) st st' :
  commitBlock tid course room d s k st = Some st' →
  ∃ rows, appends (Course.id course) st st' rows
          ∧ contiguousBlock d (Classroom.id room) s k rows
          ∧ Forall (fun r => ScheduledClass.instructorId r = Course.instructorId course) rows.
Proof.
  intros Hc. apply commitBlockFrom_rows in Hc as (rows & Happ & Hrows).
  exists rows. split; [done|].
  pose proof (Forall2_length _ _ _ Hrows) as Hlen. rewrite length_seq in Hlen.
  assert (∀ (j : nat) r, rows !! j = Some r → (j < k)%nat ∧ seq 0 k !! j = Some j) as Hj.
  { intros j r Hr. apply lookup_lt_Some in Hr.
    split; [lia|]. apply lookup_seq. lia. }
  split.
  2:{ apply List.Forall_forall. intros r Hr.
      apply (proj2 (list_elem_of_In _ _)) in Hr. apply list_elem_of_lookup in Hr as [j Hr].
      destruct (Hj j r Hr) as [_ Hs].
      by destruct (Forall2_lookup_lr _ _ _ _ _ _ Hrows Hs Hr) as (_ & _ & ? & _). }
  split; [done|]. split; [|split].
  - intros j r Hr. destruct (Hj j r Hr) as [_ Hs].
    by destruct (Forall2_lookup_lr _ _ _ _ _ _ Hrows Hs Hr) as (? & ? & _ & ? & _).
  - intros j r r' Hr Hr'.
    destruct (Hj j r Hr) as [_ Hs]. destruct (Hj (S j) r' Hr') as [Hlt Hs'].
    destruct (Forall2_lookup_lr _ _ _ _ _ _ Hrows Hs Hr) as (_ & _ & _ & _ & He).
    destruct (Forall2_lookup_lr _ _ _ _ _ _ Hrows Hs' Hr') as (_ & _ & _ & Hst & _).
    rewrite He, Hst. destruct (Nat.eqb_spec j (k - 1)); [lia|].
    by replace (s + S j)%nat with (s + j + 1)%nat by lia.
  - intros r Hlast. rewrite last_lookup in Hlast.
    destruct (Hj _ r Hlast) as [Hlt Hs].
    destruct (Forall2_lookup_lr _ _ _ _ _ _ Hrows Hs Hlast) as (_ & _ & _ & _ & He).
    rewrite He. assert (pred (length rows) = k - 1)%nat as -> by lia.
    rewrite Nat.eqb_refl. do 2 f_equal. lia.
Qed.

Lemma tryDays_rows idx tid course room (k : nat) days st b st' :
  tryDays idx tid course room k days st = Some (b, st') →
  if b then
    ∃ d (s : nat) rows,
      d ∈ days ∧ (s + k ≤ length timeSlots)%nat
      ∧ appends (Course.id course) st st' rows
      ∧ contiguousBlock d (Classroom.id room) s k rows
      ∧ Forall (fun r => ScheduledClass.instructorId r = Course.instructorId course) rows
  else appends (Course.id course) st st' [].
Proof.
  revert st. induction days as [|d days IH]; intros st; simpl.
  { intros [= <- <-]. by apply appends_nil. }
  destruct (shuffled (seq 0 (length timeSlots + 1 - k)) st) as [slotIndices st1] eqn:Es.
  apply shuffled_inv in Es as [Hp [g ->]].
  destruct (find _ slotIndices) as [startIdx|] eqn:Ef.
  - apply find_some in Ef as [Hin _].
    destruct (commitBlock _ _ _ _ _ _ _) as [st2|] eqn:Ec; simpl; [|done].
    intros [= <- <-].
    apply commitBlock_rows in Ec as (rows & Happ & Hblock & Hins).
    exists d, startIdx, rows. split; [by left|]. split; [|split; [exact Happ|done]].
    eapply slotIndices_in_range; [exact Hp|by apply list_elem_of_In].
  - intros Hrest. specialize (IH _ Hrest). destruct b.
    + destruct IH as (d' & s & rows & Hd & Hs & Happ & Hblock).
      exists d', s, rows. split; [by right|]. split; [done|]. split; [exact Happ|done].
    + exact IH.
Qed.

Lemma tryRooms_rows idx tid course (k : nat) days rooms st b st' :
  tryRooms idx tid course k days rooms st = Some (b, st') →
  if b then
    ∃ room d (s : nat) rows,
      room ∈ rooms ∧ d ∈ days ∧ (s + k ≤ length timeSlots)%nat
      ∧ appends (Course.id course) st st' rows
      ∧ contiguousBlock d (Classroom.id room) s k rows
      ∧ Forall (fun r => ScheduledClass.instructorId r = Course.instructorId course) rows
  else appends (Course.id course) st st' [].
Proof.
  revert st. induction rooms as [|room rooms IH]; intros st; simpl.
  { intros [= <- <-]. by apply appends_nil. }
  destruct (tryDays idx tid course room k days st) as [[assigned st1]|] eqn:Ed;
    simpl; [|done].
  apply tryDays_rows in Ed. destruct assigned.
  - intros [= <- <-]. destruct Ed as (d & s & rows & Hd & Hs & Happ & Hblock).
    exists room, d, s, rows. split; [by left|done].
  - intros Hrest. specialize (IH _ Hrest). destruct b.
    + destruct IH as (room' & d & s & rows & Hr & Hd & Hs & Happ & Hblock).
      exists room', d, s, rows. split; [by right|]. split; [done|]. split; [done|].
      split; [|done]. by apply (appends_trans _ _ _ _ [] rows Ed).
    + by apply (appends_trans _ _ _ _ [] [] Ed).
Qed.

Lemma scatterSlots_rows idx tid course room (k : nat) slots (n n' : nat) st st' :
  scatterSlots idx tid course room k slots n st = (n', st') →
  ∃ rows, appends (Course.id course) st st' rows
          ∧ n' = (n + length rows)%nat ∧ ((n ≤ k)%nat → (n' ≤ k)%nat).
Proof.
  revert n st. induction slots as [|slot slots IH]; intros n st; simpl.
  { intros [= <- <-]. exists []. split; [by apply appends_nil|]. simpl. lia. }
  destruct (Nat.leb_spec k n).
  { intros [= <- <-]. exists []. split; [by apply appends_nil|]. simpl. lia. }
  destruct (isSlotAvailable idx st course slot (Classroom.id room)).
  - intros Hrest. destruct (IH _ _ Hrest) as (rows & Happ & Hn & Hle).
    set (row := ScheduledClass.mk 0 (Course.id course) (Course.instructorId course)
                  (Classroom.id room) (day slot) (startOf (timeSlot slot))
                  (endOf (timeSlot slot)) tid).
    exists ([row] ++ rows). split; [|simpl; lia].
    eapply appends_trans; [|exact Happ].
    repeat split; simpl; [done..|]. by repeat constructor.
  - apply IH.
Qed.

Lemma scatterRooms_rows idx tid course (k : nat) slots rooms (n n' : nat) st st' :
  scatterRooms idx tid course k slots rooms n st = (n', st') →
  ∃ rows, appends (Course.id course) st st' rows
          ∧ n' = (n + length rows)%nat ∧ ((n ≤ k)%nat → (n' ≤ k)%nat).
Proof.
  revert n st. induction rooms as [|room rooms IH]; intros n st; simpl.
  { intros [= <- <-]. exists []. split; [by apply appends_nil|]. simpl. lia. }
  destruct (Nat.leb_spec k n).
  { intros [= <- <-]. exists []. split; [by apply appends_nil|]. simpl. lia. }
  destruct (scatterSlots idx tid course room k slots n st) as [n1 st1] eqn:E1.
  apply scatterSlots_rows in E1 as (rows1 & Happ1 & Hn1 & Hle1).
  intros Hrest. destruct (IH _ _ Hrest) as (rows2 & Happ2 & Hn2 & Hle2).
  exists (rows1 ++ rows2). split; [by eapply appends_trans|].
  rewrite length_app. lia.
Qed.

Lemma scatter_rows idx tid course (k : nat) rooms st :
  ∃ rows,
    scheduledClasses (scatter idx tid course k rooms st) = scheduledClasses st ++ rows
    ∧ Forall (fun r => ScheduledClass.courseId r = Course.id course) rows
    ∧ (length rows ≤ k)%nat
    ∧ console (scatter idx tid course k rooms st)
      = console st ++ (if (length rows <? k)%nat
                       then [CouldOnlyAssign (length rows) k (Course.code course)]
                       else []).
Proof.
  unfold scatter.
  destruct (shuffled allSlots st) as [shuffledSlots st1] eqn:Es.
  apply shuffled_inv in Es as [_ [g ->]].
  destruct (scatterRooms _ _ _ _ _ _ _ _) as [n st2] eqn:Er.
  apply scatterRooms_rows in Er as (rows & (Hrows & Hcon & Hall) & Hn & Hle).
  simpl in Hn, Hrows, Hcon. subst n. exists rows.
  destruct (length rows <? k)%nat; simpl; rewrite ?Hcon, ?app_nil_r;
    repeat split; try done; lia.
Qed.

Lemma placeCourseIn_outcome idx tid rooms course st st' :
  placeCourseIn idx tid rooms course st = Some st' →
  ∃ rows ws,
    scheduledClasses st' = scheduledClasses st ++ rows
    ∧ console st' = console st ++ ws
    ∧ courseOutcome rooms course rows ws.
Proof.
  unfold placeCourseIn. destruct rooms as [|room rooms].
  { intros [= <-]. exists [], [NoSuitableRooms (Course.code course)]. simpl.
    rewrite app_nil_r. repeat split; [constructor|]. by left. }
  destruct (shuffled weekDays st) as [shuffledDays st1] eqn:Es.
  apply shuffled_inv in Es as [_ [g ->]].
  destruct (tryRooms _ _ _ _ _ _ _) as [[assigned st2]|] eqn:Er; simpl; [|done].
  apply tryRooms_rows in Er. destruct assigned; intros [= <-].
  - destruct Er as (r & d & s & rows & _ & _ & _ & (Hrows & Hcon & Hall) & (Hlen & _) & _).
    exists rows, []. rewrite app_nil_r. repeat split; try done.
    right; left. done.
  - destruct Er as (Hrows & Hcon & _). simpl in Hrows, Hcon. rewrite app_nil_r in Hrows.
    destruct (scatter_rows idx tid course (slotsNeeded course) (room :: rooms) st2)
      as (rows & Hrows' & Hall & Hle & Hcon').
    exists rows. eexists. rewrite Hrows', Hcon', Hrows, Hcon.
    repeat split; try done.
    destruct (Nat.ltb_spec (length rows) (slotsNeeded course)).
    + right; right. done.
    + right; left. repeat split; [done|lia].
Qed.

(** The outcomes of the course loop, one per course in processing order. *)
Lemma placeCourses_outcomes idx opts cs st st' :
  placeCourses idx opts cs st = Some st' →
  ∃ outs : list (list ScheduledClass.t * list Warning),
    Forall2 (fun c o => courseOutcome (suitableRooms (classrooms opts) c) c o.1 o.2) cs outs
    ∧ scheduledClasses st' = scheduledClasses st ++ concat (map fst outs)
    ∧ console st' = console st ++ concat (map snd outs).
Proof.
  revert st. induction cs as [|course cs IH]; intros st; simpl.
  { intros [= <-]. exists []. simpl. rewrite !app_nil_r. repeat split. constructor. }
  destruct (placeCourse idx opts course st) as [st1|] eqn:E1; simpl; [|done].
  apply placeCourseIn_outcome in E1 as (rows & ws & Hrows & Hcon & Hout).
  intros Hrest. destruct (IH _ Hrest) as (outs & Houts & Hrows' & Hcon').
  exists ((rows, ws) :: outs). simpl. split; [by constructor|].
  rewrite Hrows', Hcon', Hrows, Hcon, !app_assoc. done.
Qed.

End Effects.

(** ** Counting the rows of a course *)

Lemma insertSorted_perm {A : Type} (cmp : A → A → Z) (x : A) (l : list A) :
  insertSorted cmp x l ≡ₚ x :: l.
Proof.
  induction l as [|y l IH]; simpl; [done|].
  destruct (cmp x y <=? 0); [done|].
  rewrite IH. apply Permutation_swap.
Qed.

(** Sorting rearranges, it neither drops nor repeats. *)
Lemma sortBy_perm {A : Type} (cmp : A → A → Z) (l : list A) :
  sortBy cmp l ≡ₚ l.
Proof.
  induction l as [|x l IH]; simpl; [done|].
  unfold sortBy in *. simpl. by rewrite insertSorted_perm, IH.
Qed.

Lemma rowsOfCourse_app cid rows1 rows2 :
  rowsOfCourse cid (rows1 ++ rows2) = rowsOfCourse cid rows1 ++ rowsOfCourse cid rows2.
Proof. apply List.filter_app. Qed.

Lemma rowsOfCourse_same cid rows :
  Forall (fun r => ScheduledClass.courseId r = cid) rows → rowsOfCourse cid rows = rows.
Proof.
  induction 1 as [|r rows Hr _ IH]; simpl; [done|].
  rewrite bool_decide_eq_true_2 by done. by rewrite IH.
Qed.

Lemma rowsOfCourse_other cid cid' rows :
  Forall (fun r => ScheduledClass.courseId r = cid') rows → cid' ≠ cid →
  rowsOfCourse cid rows = [].
Proof.
  induction 1 as [|r rows Hr _ IH]; intros Hne; simpl; [done|].
  rewrite bool_decide_eq_false_2 by congruence. by apply IH.
Qed.

Section Outcomes.
Context (roomsOf : Course.t → list Classroom.t).
Implicit Types (cs : list Course.t) (outs : list (list ScheduledClass.t * list Warning)).

Lemma outcomes_absent cid cs outs :
  Forall2 (fun c o => courseOutcome (roomsOf c) c o.1 o.2) cs outs →
  (∀ c, c ∈ cs → Course.id c ≠ cid) →
  rowsOfCourse cid (concat (map fst outs)) = [].
Proof.
  induction 1 as [|c o cs outs [Hall _] _ IH]; intros Hne; simpl; [done|].
  rewrite rowsOfCourse_app, IH by (intros c' Hc'; apply Hne; by right).
  rewrite (rowsOfCourse_other cid (Course.id c)); [done|done|].
  apply Hne. by left.
Qed.

Lemma outcomes_present c cs outs :
  Forall2 (fun c o => courseOutcome (roomsOf c) c o.1 o.2) cs outs →
  NoDup (map Course.id cs) → c ∈ cs →
  ∃ ws, courseOutcome (roomsOf c) c
          (rowsOfCourse (Course.id c) (concat (map fst outs))) ws
        ∧ ∀ w, w ∈ ws → w ∈ concat (map snd outs).
Proof.
  induction 1 as [|c' o cs outs Hout Hrest IH]; intros Hnd Hin;
    [by apply elem_of_nil in Hin|].
  simpl in Hnd. apply NoDup_cons in Hnd as [Hfresh Hnd]. simpl.
  rewrite rowsOfCourse_app.
  apply elem_of_cons in Hin as [->|Hin].
  - exists o.2. rewrite (outcomes_absent _ cs outs Hrest).
    + rewrite app_nil_r, rowsOfCourse_same by apply Hout.
      split; [done|]. intros w Hw. apply elem_of_app. by left.
    + intros c Hc Heq. apply Hfresh. rewrite <- Heq.
      by apply list_elem_of_fmap_2.
  - destruct (IH Hnd Hin) as (ws & Hws & Hsub).
    exists ws. rewrite (rowsOfCourse_other _ (Course.id c')); [| apply Hout |].
    + split; [done|]. intros w Hw. apply elem_of_app. right. by apply Hsub.
    + intros Heq. apply Hfresh. rewrite Heq. by apply list_elem_of_fmap_2.
Qed.

End Outcomes.

Section RunOutcome.
Context {schema : Schema} {random : RandomSource}.

(** With pairwise distinct course identifiers, the rows that carry a
    course's identifier are the rows of its own turn of the loop. *)
Lemma runGenerator_course_outcome opts g st c :
  NoDup (map Course.id (courses opts)) → c ∈ courses opts →
  runGenerator opts g = Some st →
  ∃ ws, courseOutcome (suitableRooms (classrooms opts) c) c
          (rowsOfCourse (Course.id c) (scheduledClasses st)) ws
        ∧ ∀ w, w ∈ ws → w ∈ console st.
Proof.
  intros Hnd Hin Hrun. unfold runGenerator in Hrun.
  apply placeCourses_outcomes in Hrun as (outs & Houts & Hrows & Hcon).
  simpl in Hrows, Hcon. rewrite Hrows, Hcon.
  apply (outcomes_present _ c _ _ Houts).
  - assert (map Course.id (sortedCourses (buildIndex (constraints opts)) (courses opts))
            ≡ₚ map Course.id (courses opts)) as Hp
      by apply Permutation_map, sortBy_perm.
    by rewrite Hp.
  - unfold sortedCourses. by rewrite sortBy_perm.
Qed.

End RunOutcome.

Lemma courseOutcome_length rooms course rows ws :
  courseOutcome rooms course rows ws → (length rows ≤ slotsNeeded course)%nat.
Proof.
  intros [_ Hcases].
  destruct Hcases as [(_ & -> & _)|[(_ & -> & _)|(_ & Hlt & _)]]; simpl; lia.
Qed.

Lemma rowsOfCourse_length cid rows :
  (length (rowsOfCourse cid rows) ≤ length rows)%nat.
Proof.
  induction rows as [|r rows IH]; simpl; [done|].
  destruct (bool_decide _); simpl; lia.
Qed.

Lemma slotsSought_cons cid c cs :
  slotsSought cid (c :: cs)
  = ((if bool_decide (Course.id c = cid) then slotsNeeded c else 0) + slotsSought cid cs)%nat.
Proof. reflexivity. Qed.

(** The rows under one identifier are bounded by the slots sought under
    it, whatever the course list. *)
Lemma outcomes_bound (roomsOf : Course.t → list Classroom.t) cid cs
    (outs : list (list ScheduledClass.t * list Warning)) :
  Forall2 (fun c o => courseOutcome (roomsOf c) c o.1 o.2) cs outs →
  (length (rowsOfCourse cid (concat (map fst outs))) ≤ slotsSought cid cs)%nat.
Proof.
  induction 1 as [|c o cs outs Hout _ IH]; [done|].
  rewrite slotsSought_cons. cbn [map concat].
  rewrite rowsOfCourse_app, length_app.
  case_bool_decide as Hid.
  - pose proof (rowsOfCourse_length cid o.1).
    pose proof (courseOutcome_length _ _ _ _ Hout). lia.
  - rewrite (rowsOfCourse_other cid (Course.id c)); [|apply Hout|done].
    simpl. lia.
Qed.

Lemma slotsSought_absent cid cs :
  (∀ c, c ∈ cs → Course.id c ≠ cid) → slotsSought cid cs = 0%nat.
Proof.
  induction cs as [|c cs IH]; intros Hne; [done|].
  rewrite slotsSought_cons, bool_decide_eq_false_2 by (apply Hne; by left).
  apply IH. intros c' Hc'. apply Hne. by right.
Qed.

(** For pairwise distinct identifiers the slots sought under a course's
    identifier are the slots of that course. *)
Lemma slotsSought_unique c cs :
  NoDup (map Course.id cs) → c ∈ cs → slotsSought (Course.id c) cs = slotsNeeded c.
Proof.
  induction cs as [|c' cs IH]; intros Hnd Hin; [by apply elem_of_nil in Hin|].
  simpl in Hnd. apply NoDup_cons in Hnd as [Hfresh Hnd]. rewrite slotsSought_cons.
  apply elem_of_cons in Hin as [->|Hin].
  - rewrite bool_decide_eq_true_2 by done.
    rewrite slotsSought_absent; [lia|].
    intros c Hc Heq. apply Hfresh. rewrite <- Heq. by apply list_elem_of_fmap_2.
  - rewrite bool_decide_eq_false_2.
    + by apply IH.
    + intros Heq. apply Hfresh. rewrite Heq. by apply list_elem_of_fmap_2.
Qed.

(** C10, amended.  Every turn of the course
    loop appends at most [slotsNeeded] rows, all carrying the identifier
    of the course of that turn.  Hence, for every input, the rows of the
    returned schedule that carry an identifier are at most the slots
    sought under that identifier; for courses with pairwise distinct
    identifiers that is: at most [slotsNeeded] rows carry a course's
    identifier. *)
Theorem never_over_scheduled {schema : Schema} {random : RandomSource} :
  (∀ idx opts course (st st' : State),
     placeCourse idx opts course st = Some st' →
     ∃ rows, scheduledClasses st' = scheduledClasses st ++ rows
             ∧ (length rows ≤ slotsNeeded course)%nat
             ∧ Forall (fun r => ScheduledClass.courseId r = Course.id course) rows)
  ∧ (∀ opts (g : Rng) rows cid,
       generateTimetable opts g = Some rows →
       (length (rowsOfCourse cid rows) ≤ slotsSought cid (courses opts))%nat)
  ∧ (∀ opts (g : Rng) rows c,
       NoDup (map Course.id (courses opts)) →
       c ∈ courses opts →
       generateTimetable opts g = Some rows →
       (length (rowsOfCourse (Course.id c) rows) ≤ slotsNeeded c)%nat).
Proof.
  assert (∀ opts (g : Rng) rows cid,
            generateTimetable opts g = Some rows →
            (length (rowsOfCourse cid rows) ≤ slotsSought cid (courses opts))%nat)
    as Hbound.
  { intros opts g rows cid Hgen. unfold generateTimetable in Hgen.
    destruct (runGenerator opts g) as [st|] eqn:Hrun; simpl in Hgen; [|done].
    injection Hgen as <-. unfold runGenerator in Hrun.
    apply placeCourses_outcomes in Hrun as (outs & Houts & Hrows & _).
    simpl in Hrows. rewrite Hrows.
    pose proof (outcomes_bound _ cid _ _ Houts) as Hle.
    unfold slotsSought in *. unfold sortedCourses in Hle.
    by rewrite sortBy_perm in Hle. }
  split; [|split; [exact Hbound|]].
  - intros idx opts course st st' Hplace.
    apply placeCourseIn_outcome in Hplace as (rows & ws & Hrows & _ & Hout).
    exists rows. split; [done|]. split; [by eapply courseOutcome_length|apply Hout].
  - intros opts g rows c Hnd Hin Hgen.
    rewrite <- (slotsSought_unique c (courses opts) Hnd Hin). by eapply Hbound.
Qed.

(** ** Main properties of the generator *)

(** C1, amended.  For time-slot labels that are pairwise
    distinct, in the final state of every run that returns a schedule each
    instructor and each classroom holds every (day, timeSlot) cell at most
    once, and the rows of an instructor (of a classroom) are the rows of
    these cells; when moreover the labels are listed in chronological order
    without overlap, no two rows of the returned schedule share an
    instructor or a classroom and overlap in time on a day. *)
Theorem no_double_booking {schema : Schema} {random : RandomSource}
    (opts : TimetableGeneratorOptions) (g : Rng) (st : State) :
  NoDup timeSlots →
  runGenerator opts g = Some st →
  generateTimetable opts g = Some (scheduledClasses st)
  ∧ bookedOnce st
  ∧ ∀ clock, chronological clock timeSlots = true →
             noDoubleBooking clock (scheduledClasses st).
Proof.
  intros Hts Hrun. split; [unfold generateTimetable; by rewrite Hrun|].
  pose proof (runGenerator_steps opts g st Hts Hrun) as Hsteps.
  split.
  - eapply bookedOnce_steps; [exact Hsteps|apply bookedOnce_initial].
  - intros clock Hch.
    eapply noDoubleBooking_steps; [exact Hch|exact Hsteps|apply bookedOnce_initial|].
    intros p q r1 r2 _ Hp. done.
Qed.

Lemma no_double_booking_witness :
  ∃ st, runGenerator (schema := weekGrid) (random := flipSource) sampleOptions true = Some st
        ∧ length (scheduledClasses st) = 5%nat
        ∧ bookedOnce (schema := weekGrid) st
        ∧ noDoubleBooking minutesOfDay (scheduledClasses st).
Proof.
  destruct (runGenerator (schema := weekGrid) (random := flipSource) sampleOptions true)
    as [st|] eqn:Hrun; [|vm_compute in Hrun; discriminate].
  exists st. split; [reflexivity|].
  split; [by vm_compute in Hrun; injection Hrun as <-|].
  assert (NoDup (@timeSlots weekGrid)) as Hts
    by (apply (bool_decide_unpack _); vm_compute; exact I).
  destruct (no_double_booking (schema := weekGrid) (random := flipSource)
              sampleOptions true st Hts Hrun) as (_ & Hb & Hnd).
  split; [exact Hb|]. apply Hnd. vm_compute. reflexivity.
Defined.

(** C3.  The number of slots sought for a course is 3 when its credits
    are at least 4, else 2 when they are at least 3, else 1; and a turn of
    the course loop that logs no warning (the course is fully placed)
    appends exactly that many rows, all of that course. *)
Theorem slots_needed_by_credits {schema : Schema} {random : RandomSource}
    (idx : ConstraintIndex) (opts : TimetableGeneratorOptions)
    (course : Course.t) (st st' : State) :
  placeCourse idx opts course st = Some st' →
  ((4 ≤ Course.credits course → slotsNeeded course = 3%nat)
   ∧ (3 ≤ Course.credits course < 4 → slotsNeeded course = 2%nat)
   ∧ (Course.credits course < 3 → slotsNeeded course = 1%nat))
  ∧ (console st' = console st →
     ∃ rows, scheduledClasses st' = scheduledClasses st ++ rows
             ∧ length rows = slotsNeeded course
             ∧ Forall (fun r => ScheduledClass.courseId r = Course.id course) rows).
Proof.
  intros Hplace. split.
  - unfold slotsNeeded.
    destruct (Z.leb_spec 4 (Course.credits course));
      destruct (Z.leb_spec 3 (Course.credits course)); repeat split; intros; lia.
  - intros Hquiet.
    apply placeCourseIn_outcome in Hplace as (rows & ws & Hrows & Hcon & Hall & Hcases).
    exists rows. split; [done|]. split; [|done].
    rewrite Hquiet in Hcon.
    assert (ws = []) as -> by (by apply (app_inv_head (console st)); rewrite app_nil_r).
    by destruct Hcases as [(_ & _ & ?)|[(_ & ? & _)|(_ & _ & ?)]].
Qed.

Lemma slots_needed_by_credits_witness :
  ∃ st', placeCourse (schema := weekGrid) (random := flipSource)
           emptyIndex oneCourseOptions cs101 (initialState (random := flipSource) false) = Some st'
         ∧ slotsNeeded cs101 = 2%nat
         ∧ length (scheduledClasses st') = 2%nat.
Proof.
  destruct (placeCourse (schema := weekGrid) (random := flipSource)
              emptyIndex oneCourseOptions cs101 (initialState (random := flipSource) false))
    as [st'|] eqn:Hplace; [|vm_compute in Hplace; discriminate].
  exists st'. split; [reflexivity|].
  destruct (slots_needed_by_credits (schema := weekGrid) (random := flipSource)
              emptyIndex oneCourseOptions cs101 (initialState (random := flipSource) false) st' Hplace)
    as [(_ & H2 & _) Hfull].
  split; [apply H2; vm_compute; split; [discriminate|reflexivity]|].
  assert (console st' = console (initialState (random := flipSource) false)) as Hquiet
    by (vm_compute in Hplace; by injection Hplace as <-).
  destruct (Hfull Hquiet) as (rows & Hrows & Hlen & _).
  rewrite Hrows. simpl. rewrite Hlen. reflexivity.
Defined.

(** C2, counterexample.  A course that no room can hold and an empty
    course list give the same return value, the empty schedule: the value
    returned carries no diagnostics, and the under-scheduling goes to the
    console, as a message without counts. *)
Lemma diagnostics_not_returned :
  generateTimetable (schema := weekGrid) (random := flipSource) noRoomOptions false = Some []
  ∧ generateTimetable (schema := weekGrid) (random := flipSource) noCourseOptions false = Some []
  ∧ console <$> runGenerator (schema := weekGrid) (random := flipSource) noRoomOptions false
    = Some [NoSuitableRooms "CS101"]
  ∧ console <$> runGenerator (schema := weekGrid) (random := flipSource) noCourseOptions false
    = Some [].
Proof. vm_compute. repeat split. Qed.

(** C2, amended.  The promise resolves to the rows alone.  A course (among
    courses with pairwise distinct identifiers) that ends with fewer rows
    than [slotsNeeded] has a warning on the console: "No suitable rooms"
    when no classroom is large enough, otherwise "Could only assign n/k"
    with [n] the number of its rows. *)
Theorem under_scheduling_is_logged {schema : Schema} {random : RandomSource}
    (opts : TimetableGeneratorOptions) (g : Rng) (st : State) (c : Course.t) :
  NoDup (map Course.id (courses opts)) →
  c ∈ courses opts →
  runGenerator opts g = Some st →
  (length (rowsOfCourse (Course.id c) (scheduledClasses st)) < slotsNeeded c)%nat →
  generateTimetable opts g = Some (scheduledClasses st)
  ∧ match suitableRooms (classrooms opts) c with
    | [] => NoSuitableRooms (Course.code c) ∈ console st
    | _ :: _ =>
        CouldOnlyAssign (length (rowsOfCourse (Course.id c) (scheduledClasses st)))
                        (slotsNeeded c) (Course.code c) ∈ console st
    end.
Proof.
  intros Hnd Hin Hrun Hlt. split; [unfold generateTimetable; by rewrite Hrun|].
  destruct (runGenerator_course_outcome opts g st c Hnd Hin Hrun)
    as (ws & [_ Hcases] & Hsub).
  destruct Hcases as [(-> & _ & ->)|[(_ & Heq & _)|(Hne & _ & ->)]].
  - apply Hsub. by left.
  - lia.
  - destruct (suitableRooms (classrooms opts) c); [done|]. apply Hsub. by left.
Qed.

Lemma under_scheduling_is_logged_witness :
  ∃ st, runGenerator (schema := weekGrid) (random := flipSource) noRoomOptions false = Some st
        ∧ NoSuitableRooms "CS101" ∈ console st.
Proof.
  destruct (runGenerator (schema := weekGrid) (random := flipSource) noRoomOptions false)
    as [st|] eqn:Hrun; [|vm_compute in Hrun; discriminate].
  exists st. split; [reflexivity|].
  refine (proj2 (under_scheduling_is_logged (schema := weekGrid) (random := flipSource)
                   noRoomOptions false st cs101 _ _ Hrun _)).
  - apply (bool_decide_unpack _). vm_compute. exact I.
  - by left.
  - vm_compute in Hrun. injection Hrun as <-. vm_compute. lia.
Defined.

Lemma never_over_scheduled_witness :
  ∃ rows, generateTimetable (schema := weekGrid) (random := flipSource) sampleOptions false
          = Some rows
          ∧ (length (rowsOfCourse 2 rows) ≤ 3)%nat.
Proof.
  destruct (generateTimetable (schema := weekGrid) (random := flipSource) sampleOptions false)
    as [rows|] eqn:Hgen; [|vm_compute in Hgen; discriminate].
  exists rows. split; [reflexivity|].
  refine (proj2 (proj2 (never_over_scheduled (schema := weekGrid) (random := flipSource)))
            sampleOptions false rows cs102 _ _ Hgen).
  - apply (bool_decide_unpack _). vm_compute. exact I.
  - right. by left.
Defined.

(** ** Conflicting courses exclude each other *)

Section Exclusion.
Context {schema : Schema} {random : RandomSource}.
Implicit Types (idx : ConstraintIndex) (st : State).

Lemma mutuallyExclusive_initial idx g : mutuallyExclusive idx (initialState g).
Proof.
  intros a b cell _ _ _ Hin. unfold cellsOf in Hin. simpl in Hin.
  rewrite lookup_empty in Hin. by apply elem_of_nil in Hin.
Qed.

Lemma mutuallyExclusive_step idx st st' :
  step idx st st' → mutuallyExclusive idx st → mutuallyExclusive idx st'.
Proof.
  intros Hstep Hex.
  destruct Hstep as [st tid course room cell s e Hf Hrow| |]; [|done..].
  destruct Hf as (_ & _ & _ & _ & Hfree).
  intros a b cell' Hab Hb Ha. simpl. rewrite !cellsOf_pushTo.
  rewrite !elem_of_app. intros [Hold|Hnew] [Hold'|Hnew'].
  - by apply (Hex a b cell').
  - case_decide as Hk; [|by apply elem_of_nil in Hnew'].
    apply list_elem_of_singleton in Hnew'. subst cell' b.
    by apply (Hfree a Ha).
  - case_decide as Hk; [|by apply elem_of_nil in Hnew].
    apply list_elem_of_singleton in Hnew. subst cell' a.
    by apply (Hfree b Hb).
  - repeat case_decide; try by (apply elem_of_nil in Hnew || apply elem_of_nil in Hnew').
    congruence.
Qed.

Lemma mutuallyExclusive_steps idx st st' :
  rtc (step idx) st st' → mutuallyExclusive idx st → mutuallyExclusive idx st'.
Proof. induction 1; eauto using mutuallyExclusive_step. Qed.

End Exclusion.

(** ** The promise resolves when every label has its dash *)

Section Totality.
Context {schema : Schema} {random : RandomSource}.
Implicit Types (idx : ConstraintIndex) (st : State).

Lemma labelsHaveEnd_slotLabel (i : nat) :
  labelsHaveEnd → (i < length timeSlots)%nat → is_Some (endOf (slotLabel i)).
Proof.
  intros Hwf Hi. apply slotLabel_lookup in Hi.
  by apply (Forall_lookup_1 _ _ _ _ Hwf Hi).
Qed.

Lemma commitBlockFrom_total tid course room d (s k : nat) (js : list nat) st :
  (∀ j, j ∈ js → j = (k - 1)%nat → is_Some (endOf (slotLabel (s + j)))) →
  is_Some (commitBlockFrom tid course room d s k js st).
Proof.
  revert st. induction js as [|j js IH]; intros st Hend; simpl; [by eexists|].
  unfold commitBlockSlot. simpl.
  destruct (Nat.eqb_spec j (k - 1)) as [Hj|Hj]; simpl.
  - destruct (Hend j) as [e ->]; [by left|done|]. simpl.
    apply IH. intros j' Hj'. apply Hend. by right.
  - apply IH. intros j' Hj'. apply Hend. by right.
Qed.

Lemma commitBlock_total tid course room d (s k : nat) st :
  labelsHaveEnd → (s + k ≤ length timeSlots)%nat →
  is_Some (commitBlock tid course room d s k st).
Proof.
  intros Hwf Hk. apply commitBlockFrom_total.
  intros j Hj ->. apply elem_of_seq in Hj.
  apply labelsHaveEnd_slotLabel; [done|lia].
Qed.

Lemma tryDays_total idx tid course room (k : nat) days st :
  labelsHaveEnd → is_Some (tryDays idx tid course room k days st).
Proof.
  intros Hwf. revert st. induction days as [|d days IH]; intros st; simpl; [by eexists|].
  destruct (shuffled (seq 0 (length timeSlots + 1 - k)) st) as [slotIndices st1] eqn:Es.
  apply shuffled_inv in Es as [Hp _].
  destruct (find _ slotIndices) as [startIdx|] eqn:Ef; [|apply IH].
  apply find_some in Ef as [Hin _].
  destruct (commitBlock_total tid course room d startIdx k st1 Hwf) as [st2 ->].
  - eapply slotIndices_in_range; [exact Hp|by apply list_elem_of_In].
  - by eexists.
Qed.

Lemma tryRooms_total idx tid course (k : nat) days rooms st :
  labelsHaveEnd → is_Some (tryRooms idx tid course k days rooms st).
Proof.
  intros Hwf. revert st. induction rooms as [|room rooms IH]; intros st; simpl;
    [by eexists|].
  destruct (tryDays_total idx tid course room k days st Hwf) as [[assigned st1] ->].
  simpl. destruct assigned; [by eexists|apply IH].
Qed.

Lemma placeCourseIn_total idx tid rooms course st :
  labelsHaveEnd → is_Some (placeCourseIn idx tid rooms course st).
Proof.
  intros Hwf. unfold placeCourseIn. destruct rooms as [|room rooms]; [by eexists|].
  destruct (shuffled weekDays st) as [shuffledDays st1].
  destruct (tryRooms_total idx tid course (slotsNeeded course) shuffledDays
              (room :: rooms) st1 Hwf) as [[assigned st2] ->].
  simpl. destruct assigned; by eexists.
Qed.

Lemma placeCourses_total idx opts cs st :
  labelsHaveEnd → is_Some (placeCourses idx opts cs st).
Proof.
  intros Hwf. revert st. induction cs as [|course cs IH]; intros st; simpl; [by eexists|].
  destruct (placeCourseIn_total idx (timetableId opts)
              (suitableRooms (classrooms opts) course) course st Hwf) as [st1 Hst1].
  unfold placeCourse. rewrite Hst1. simpl. apply IH.
Qed.

(** A run on labels that all have a dash always resolves. *)
Lemma runGenerator_total opts g :
  labelsHaveEnd → is_Some (runGenerator opts g).
Proof. intros Hwf. by apply placeCourses_total. Qed.

End Totality.

(** C7, counterexample.  The sample input whose conflict record carries
    the text "abc" is not rejected: the run resolves with two rows for the
    course, the console stays empty, and the index holds the key [NaN]. *)
Lemma malformed_conflict_not_rejected :
  parseInt "abc" = NaN
  ∧ length <$> generateTimetable (schema := weekGrid) (random := flipSource)
                 malformedOptions false = Some 2%nat
  ∧ console <$> runGenerator (schema := weekGrid) (random := flipSource)
                  malformedOptions false = Some []
  ∧ conflictsOf (buildIndex (constraints malformedOptions)) (Num 1) = [NaN]
  ∧ conflictsOf (buildIndex (constraints malformedOptions)) NaN = [Num 1].
Proof. vm_compute. repeat split. Qed.

(** C7, amended.  A course-conflict record whose second identifier does
    not parse is indexed like any other: [NaN] enters the conflict list
    of [entityId], [entityId] enters the list kept under the key [NaN],
    and the run goes on to resolve with a schedule (every time-slot label
    having its dash). *)
Theorem malformed_conflict_is_indexed {schema : Schema} {random : RandomSource}
    (opts : TimetableGeneratorOptions) (k : Constraint.t) (g : Rng) :
  k ∈ constraints opts →
  Constraint.type k = "course_conflict" →
  parseInt (Constraint.timeSlot k) = NaN →
  labelsHaveEnd →
  NaN ∈ conflictsOf (buildIndex (constraints opts)) (Num (Constraint.entityId k))
  ∧ Num (Constraint.entityId k) ∈ conflictsOf (buildIndex (constraints opts)) NaN
  ∧ ∃ rows, generateTimetable opts g = Some rows.
Proof.
  intros Hin Hty Hnan Hwf.
  destruct (buildIndex_conflict_from emptyIndex _ k Hin Hty) as [Hab Hba].
  rewrite Hnan in Hab, Hba. split; [done|]. split; [done|].
  destruct (runGenerator_total opts g Hwf) as [st Hst].
  exists (scheduledClasses st). unfold generateTimetable. by rewrite Hst.
Qed.

Lemma weekGrid_labelsHaveEnd : labelsHaveEnd (schema := weekGrid).
Proof. repeat constructor; by eexists. Defined.

Lemma malformed_conflict_is_indexed_witness :
  NaN ∈ conflictsOf (buildIndex (constraints malformedOptions)) (Num 1)
  ∧ Num 1 ∈ conflictsOf (buildIndex (constraints malformedOptions)) NaN
  ∧ ∃ rows, generateTimetable (schema := weekGrid) (random := flipSource)
              malformedOptions false = Some rows.
Proof.
  refine (malformed_conflict_is_indexed (schema := weekGrid) (random := flipSource)
            malformedOptions (Constraint.mk "course_conflict" 1 "" "abc") false _ _ _ _).
  - by left.
  - reflexivity.
  - reflexivity.
  - exact weekGrid_labelsHaveEnd.
Defined.

(** ** Contiguous blocks *)

Section FirstFit.
Context {schema : Schema} {random : RandomSource}.
Implicit Types (idx : ConstraintIndex) (st : State).

(** Nothing is booked and nothing is constrained: every slot is
    available. *)
Lemma isSlotAvailable_unconstrained st course slot roomId :
  instructorAssignments st = ∅ → classroomAssignments st = ∅ →
  isSlotAvailable emptyIndex st course slot roomId = true.
Proof.
  intros Hi Hc. unfold isSlotAvailable. simpl. rewrite Hi, Hc, !lookup_empty. done.
Qed.

(** When the first day offers a free block at every start position, the
    search ends on that day. *)
Lemma tryDays_first_fit idx tid course room (k : nat) d days st :
  labelsHaveEnd → (k ≤ length timeSlots)%nat →
  (∀ g (s : nat), allAvailable idx (setRng g st) course room d s k = true) →
  ∃ st', tryDays idx tid course room k (d :: days) st = Some (true, st').
Proof.
  intros Hwf Hk Hall. simpl.
  destruct (shuffled (seq 0 (length timeSlots + 1 - k)) st) as [slotIndices st1] eqn:Es.
  apply shuffled_inv in Es as [Hp [g ->]].
  destruct slotIndices as [|s0 rest].
  { apply Permutation_length in Hp. rewrite length_seq in Hp. simpl in Hp. lia. }
  simpl. rewrite Hall.
  destruct (commitBlock_total tid course room d s0 k (setRng g st) Hwf) as [st2 ->].
  - eapply slotIndices_in_range; [exact Hp|by left].
  - by eexists.
Qed.

End FirstFit.

(** C6.  Whenever the contiguous phase commits a course that needs [k]
    slots, the rows it appends lie on one day [d] in one room, start at
    some position [s] with [s + k] within the grid, and form one continuous
    range: row [j] starts where slot [s + j] starts, every inner row ends
    where the next row starts, and the last row ends where slot
    [s + k - 1] ends.  In the scenario of one course of three credits, one
    instructor, one room that fits, five days of four slots and no
    constraint, the schedule is exactly two such rows. *)
Theorem contiguous_block_rows {schema : Schema} {random : RandomSource} :
  (∀ idx tid course (k : nat) days rooms (st st' : State),
     tryRooms idx tid course k days rooms st = Some (true, st') →
     ∃ room d (s : nat) rows,
       room ∈ rooms ∧ d ∈ days ∧ (s + k ≤ length timeSlots)%nat
       ∧ scheduledClasses st' = scheduledClasses st ++ rows
       ∧ contiguousBlock d (Classroom.id room) s k rows)
  ∧ (∀ course instructor room tid (g : Rng),
       Course.credits course = 3 →
       Course.capacity course ≤ Classroom.capacity room →
       length weekDays = 5%nat → length timeSlots = 4%nat → labelsHaveEnd →
       ∃ r1 r2,
         generateTimetable (mkOptions [course] [instructor] [room] [] tid) g = Some [r1; r2]
         ∧ ScheduledClass.day r1 = ScheduledClass.day r2
         ∧ ScheduledClass.endTime r1 = Some (ScheduledClass.startTime r2)
         ∧ Forall (fun r => ScheduledClass.courseId r = Course.id course
                            ∧ ScheduledClass.instructorId r = Course.instructorId course
                            ∧ ScheduledClass.classroomId r = Classroom.id room)
                  [r1; r2]).
Proof.
  split.
  - intros idx tid course k days rooms st st' Htry.
    apply tryRooms_rows in Htry as (room & d & s & rows & Hr & Hd & Hs & Happ & Hblock & _).
    exists room, d, s, rows. split; [done|]. split; [done|]. split; [done|].
    split; [exact (proj1 Happ)|done].
  - intros course instructor room tid g Hcred Hcap Hdays Hslots Hwf.
    assert (slotsNeeded course = 2%nat) as Hk by (unfold slotsNeeded; by rewrite Hcred).
    destruct (shuffled weekDays (initialState g)) as [shuffledDays st1] eqn:Es.
    pose proof Es as Es'. apply shuffled_inv in Es' as [Hp [g1 ->]].
    destruct shuffledDays as [|d days].
    { apply Permutation_length in Hp. rewrite Hdays in Hp. done. }
    destruct (tryDays_first_fit emptyIndex tid course room (slotsNeeded course)
                d days (setRng g1 (initialState g)) Hwf) as [st2 Htry].
    { rewrite Hk, Hslots. lia. }
    { intros g2 s. unfold allAvailable. apply forallb_forall. intros j _.
      by apply isSlotAvailable_unconstrained. }
    assert (tryRooms emptyIndex tid course (slotsNeeded course) (d :: days) [room]
              (setRng g1 (initialState g)) = Some (true, st2)) as Hrooms.
    { unfold tryRooms. by rewrite Htry. }
    assert (generateTimetable (mkOptions [course] [instructor] [room] [] tid) g
            = Some (scheduledClasses st2)) as ->.
    { unfold generateTimetable, runGenerator, placeCourses, placeCourse, suitableRooms.
      cbn [courses classrooms constraints timetableId buildIndex fold_left
           sortedCourses sortBy foldr insertSorted List.filter].
      rewrite (proj2 (Z.leb_le _ _) Hcap).
      cbn [sortBy foldr insertSorted]. unfold placeCourseIn.
      rewrite Es, Hrooms. reflexivity. }
    apply tryRooms_rows in Hrooms
      as (room' & d' & s & rows & Hroom & _ & _ & (Hrows & _ & Hcourse) & Hblock & Hins).
    apply list_elem_of_singleton in Hroom. subst room'.
    destruct Hblock as (Hlen & Hcells & Hinner & _). rewrite Hk in Hlen.
    simpl in Hrows. rewrite Hrows.
    destruct rows as [|r1 [|r2 [|r3 rows]]]; try done.
    exists r1, r2. split; [done|].
    destruct (Hcells 0%nat r1 eq_refl) as (Hd1 & Hc1 & _).
    destruct (Hcells 1%nat r2 eq_refl) as (Hd2 & Hc2 & _).
    split; [congruence|]. split; [by apply (Hinner 0%nat)|].
    apply Forall_cons in Hcourse as [Hid1 Hcourse]. apply Forall_cons in Hcourse as [Hid2 _].
    apply Forall_cons in Hins as [Hi1 Hins]. apply Forall_cons in Hins as [Hi2 _].
    by repeat constructor.
Qed.

Lemma contiguous_block_rows_witness :
  ∃ r1 r2,
    generateTimetable (schema := weekGrid) (random := flipSource) oneCourseOptions true
    = Some [r1; r2]
    ∧ ScheduledClass.day r1 = ScheduledClass.day r2
    ∧ ScheduledClass.endTime r1 = Some (ScheduledClass.startTime r2)
    ∧ Forall (fun r => ScheduledClass.courseId r = 1
                       ∧ ScheduledClass.instructorId r = 7
                       ∧ ScheduledClass.classroomId r = 10) [r1; r2].
Proof.
  refine (proj2 (contiguous_block_rows (schema := weekGrid) (random := flipSource))
            cs101 drSmith roomA 99 true _ _ _ _ _).
  - reflexivity.
  - vm_compute. discriminate.
  - reflexivity.
  - reflexivity.
  - exact weekGrid_labelsHaveEnd.
Defined.

(** ** The schedule depends on the random source through its arrangements only *)

Section Determinism.
Context {schema : Schema} (R1 R2 : RandomSource) (sim : @Rng R1 → @Rng R2 → Prop).
Context (Hsim : sameArrangements R1 R2 sim).
Implicit Types (idx : ConstraintIndex) (st : @State R1).

Lemma shuffled_alike {A : Type} (l : list A) st g2 :
  sim (rng st) g2 →
  (shuffled (random := R1) l st).1 = (shuffled (random := R2) l (reRng st g2)).1
  ∧ alike sim (shuffled (random := R1) l st).2 (shuffled (random := R2) l (reRng st g2)).2.
Proof.
  intros Hg. unfold shuffled. simpl.
  destruct (Hsim A l (rng st) g2 Hg) as [Hxs Hnext].
  destruct (@shuffle R1 A l (rng st)) as [xs1 g1'].
  destruct (@shuffle R2 A l g2) as [xs2 g2']. simpl in *.
  split; [done|]. by exists g2'.
Qed.

Lemma commitBlockFrom_reRng tid course room d (s k : nat) (js : list nat) st g2 :
  commitBlockFrom (random := R2) tid course room d s k js (reRng st g2)
  = (fun st' => reRng st' g2)
      <$> commitBlockFrom (random := R1) tid course room d s k js st.
Proof.
  revert st. induction js as [|j js IH]; intros st; simpl; [done|].
  unfold commitBlockSlot. simpl.
  destruct (if (j =? k - 1)%nat then _ else _) as [e|]; simpl; [|done].
  exact (IH (emit tid course room (blockSlot d s j) (startOf (slotLabel (s + j)))
               (Some e) (assign course room (blockSlot d s j) st))).
Qed.

Lemma commitBlockFrom_rng (R : RandomSource) tid course room d (s k : nat)
    (js : list nat) (st st' : @State R) :
  commitBlockFrom tid course room d s k js st = Some st' → rng st' = rng st.
Proof.
  revert st. induction js as [|j js IH]; intros st; simpl; [by intros [= <-]|].
  unfold commitBlockSlot. simpl.
  destruct (if (j =? k - 1)%nat then _ else _) as [e|]; simpl; [|done].
  intros Hrest. by rewrite (IH _ Hrest).
Qed.

Lemma tryDays_alike idx tid course room (k : nat) days st g2 :
  sim (rng st) g2 →
  searchAlike sim (tryDays (random := R1) idx tid course room k days st)
              (tryDays (random := R2) idx tid course room k days (reRng st g2)).
Proof.
  revert st g2. induction days as [|d days IH]; intros st g2 Hg; simpl.
  { split; [done|]. by exists g2. }
  destruct (shuffled_alike (seq 0 (length timeSlots + 1 - k)) st g2 Hg)
    as [Hxs (g2' & Hg' & Hst')].
  destruct (shuffled (random := R1) _ st) as [xs1 st1].
  destruct (shuffled (random := R2) _ (reRng st g2)) as [xs2 st2].
  simpl in *. subst xs2 st2.
  change (fun startIdx => allAvailable (random := R2) idx (reRng st1 g2') course room d startIdx k)
    with (fun startIdx => allAvailable (random := R1) idx st1 course room d startIdx k).
  destruct (find _ xs1) as [startIdx|]; [|by apply IH].
  unfold commitBlock. rewrite commitBlockFrom_reRng.
  destruct (commitBlockFrom (random := R1) _ _ _ _ _ _ _ st1) as [st1'|] eqn:Ec;
    simpl; [|done].
  split; [done|]. exists g2'. split; [|done].
  by rewrite (commitBlockFrom_rng R1 _ _ _ _ _ _ _ _ _ Ec).
Qed.

Lemma tryRooms_alike idx tid course (k : nat) days rooms st g2 :
  sim (rng st) g2 →
  searchAlike sim (tryRooms (random := R1) idx tid course k days rooms st)
              (tryRooms (random := R2) idx tid course k days rooms (reRng st g2)).
Proof.
  revert st g2. induction rooms as [|room rooms IH]; intros st g2 Hg; simpl.
  { split; [done|]. by exists g2. }
  pose proof (tryDays_alike idx tid course room k days st g2 Hg) as Hd.
  destruct (tryDays (random := R1) _ _ _ _ _ _ st) as [[b1 st1]|];
    destruct (tryDays (random := R2) _ _ _ _ _ _ (reRng st g2)) as [[b2 st2]|];
    simpl in *; try done.
  destruct Hd as [<- (g2' & Hg' & ->)].
  destruct b1; [|by apply IH].
  split; [done|]. by exists g2'.
Qed.

Lemma scatterSlots_reRng idx tid course room (k : nat) slots (n : nat) st g2 :
  scatterSlots (random := R2) idx tid course room k slots n (reRng st g2)
  = ((scatterSlots (random := R1) idx tid course room k slots n st).1,
     reRng (scatterSlots (random := R1) idx tid course room k slots n st).2 g2).
Proof.
  revert n st. induction slots as [|slot slots IH]; intros n st; simpl; [done|].
  destruct (k <=? n)%nat; [done|].
  change (isSlotAvailable (random := R2) idx (reRng st g2) course slot (Classroom.id room))
    with (isSlotAvailable (random := R1) idx st course slot (Classroom.id room)).
  destruct (isSlotAvailable (random := R1) idx st course slot (Classroom.id room)).
  - exact (IH (S n) (commitSingle tid course room slot st)).
  - apply IH.
Qed.

Lemma scatterRooms_reRng idx tid course (k : nat) slots rooms (n : nat) st g2 :
  scatterRooms (random := R2) idx tid course k slots rooms n (reRng st g2)
  = ((scatterRooms (random := R1) idx tid course k slots rooms n st).1,
     reRng (scatterRooms (random := R1) idx tid course k slots rooms n st).2 g2).
Proof.
  revert n st. induction rooms as [|room rooms IH]; intros n st; simpl; [done|].
  destruct (k <=? n)%nat; [done|].
  rewrite scatterSlots_reRng.
  destruct (scatterSlots (random := R1) idx tid course room k slots n st) as [n1 st1].
  simpl. apply IH.
Qed.

Lemma scatterSlots_rng (R : RandomSource) idx tid course room (k : nat) slots (n : nat)
    (st : @State R) :
  rng (scatterSlots idx tid course room k slots n st).2 = rng st.
Proof.
  revert n st. induction slots as [|slot slots IH]; intros n st; simpl; [done|].
  destruct (k <=? n)%nat; [done|].
  destruct (isSlotAvailable idx st course slot (Classroom.id room)); by rewrite IH.
Qed.

Lemma scatterRooms_rng (R : RandomSource) idx tid course (k : nat) slots rooms (n : nat)
    (st : @State R) :
  rng (scatterRooms idx tid course k slots rooms n st).2 = rng st.
Proof.
  revert n st. induction rooms as [|room rooms IH]; intros n st; simpl; [done|].
  destruct (k <=? n)%nat; [done|].
  pose proof (scatterSlots_rng R idx tid course room k slots n st) as Hr.
  destruct (scatterSlots idx tid course room k slots n st) as [n1 st1].
  simpl in *. by rewrite IH.
Qed.

Lemma scatter_alike idx tid course (k : nat) rooms st g2 :
  sim (rng st) g2 →
  alike sim (scatter (random := R1) idx tid course k rooms st)
            (scatter (random := R2) idx tid course k rooms (reRng st g2)).
Proof.
  intros Hg. unfold scatter.
  destruct (shuffled_alike allSlots st g2 Hg) as [Hxs (g2' & Hg' & Hst')].
  destruct (shuffled (random := R1) allSlots st) as [xs1 st1].
  destruct (shuffled (random := R2) allSlots (reRng st g2)) as [xs2 st2].
  simpl in *. subst xs2 st2.
  rewrite scatterRooms_reRng.
  pose proof (scatterRooms_rng R1 idx tid course k xs1 rooms 0 st1) as Hr.
  destruct (scatterRooms (random := R1) idx tid course k xs1 rooms 0 st1) as [n st1'].
  simpl in *. exists g2'.
  destruct (n <? k)%nat; simpl; (split; [by rewrite Hr|done]).
Qed.

Lemma placeCourseIn_alike idx tid rooms course st g2 :
  sim (rng st) g2 →
  option_Forall2 (alike sim)
    (placeCourseIn (random := R1) idx tid rooms course st)
    (placeCourseIn (random := R2) idx tid rooms course (reRng st g2)).
Proof.
  intros Hg. unfold placeCourseIn. destruct rooms as [|room rooms].
  { constructor. by exists g2. }
  destruct (shuffled_alike weekDays st g2 Hg) as [Hxs (g2' & Hg' & Hst')].
  destruct (shuffled (random := R1) weekDays st) as [xs1 st1].
  destruct (shuffled (random := R2) weekDays (reRng st g2)) as [xs2 st2].
  simpl in Hxs, Hg', Hst'. subst xs2 st2.
  pose proof (tryRooms_alike idx tid course (slotsNeeded course) xs1 (room :: rooms)
                st1 g2' Hg') as Hr.
  destruct (tryRooms (random := R1) _ _ _ _ _ _ st1) as [[b1 st1']|];
    destruct (tryRooms (random := R2) _ _ _ _ _ _ (reRng st1 g2')) as [[b2 st2']|];
    simpl in Hr |- *; try done; [|constructor].
  destruct Hr as [<- (g2'' & Hg'' & ->)].
  destruct b1; constructor; [by exists g2''|].
  by apply scatter_alike.
Qed.

Lemma placeCourses_alike idx opts cs st g2 :
  sim (rng st) g2 →
  option_Forall2 (alike sim)
    (placeCourses (random := R1) idx opts cs st)
    (placeCourses (random := R2) idx opts cs (reRng st g2)).
Proof.
  revert st g2. induction cs as [|course cs IH]; intros st g2 Hg; simpl.
  { constructor. by exists g2. }
  unfold placeCourse.
  destruct (placeCourseIn_alike idx (timetableId opts)
              (suitableRooms (classrooms opts) course) course st g2 Hg)
    as [st1 st2 (g2' & Hg' & ->)|]; simpl; [|constructor].
  by apply IH.
Qed.

End Determinism.

(** C4, counterexample.  [generateTimetable] has no parameter for the
    random source: two calls with the same options object differ as soon
    as the hidden generator is in a different state. *)
Lemma hidden_randomness_changes_schedule :
  ∃ rowsA rowsB,
    generateTimetable (schema := weekGrid) (random := flipSource) oneCourseOptions false
    = Some rowsA
    ∧ generateTimetable (schema := weekGrid) (random := flipSource) oneCourseOptions true
      = Some rowsB
    ∧ ScheduledClass.day <$> rowsA = ["Monday"; "Monday"]
    ∧ ScheduledClass.day <$> rowsB = ["Friday"; "Friday"]
    ∧ rowsA ≠ rowsB.
Proof.
  eexists _, _. split; [vm_compute; reflexivity|]. split; [vm_compute; reflexivity|].
  split; [reflexivity|]. split; [reflexivity|]. discriminate.
Qed.

(** C4, amended.  The schedule is a function of the options and of the
    arrangements that the hidden generator produces: two runs on the same
    options whose random sources hand back the same arrangement at every
    shuffle return the same schedule (or both reject). *)
Theorem same_arrangements_same_schedule {schema : Schema} (R1 R2 : RandomSource)
    (sim : @Rng R1 → @Rng R2 → Prop)
    (opts : TimetableGeneratorOptions) (g1 : @Rng R1) (g2 : @Rng R2) :
  sameArrangements R1 R2 sim →
  sim g1 g2 →
  generateTimetable (random := R1) opts g1 = generateTimetable (random := R2) opts g2.
Proof.
  intros Hsim Hg. unfold generateTimetable, runGenerator.
  pose proof (placeCourses_alike R1 R2 sim Hsim (buildIndex (constraints opts)) opts
                (sortedCourses (buildIndex (constraints opts)) (courses opts))
                (initialState g1) g2 Hg) as Hrun.
  change (reRng (initialState g1) g2) with (initialState (random := R2) g2) in Hrun.
  destruct Hrun as [st1 st2 (g2' & _ & ->)|]; done.
Qed.

Lemma same_arrangements_same_schedule_witness :
  generateTimetable (schema := weekGrid) (random := flipSource) sampleOptions true
  = generateTimetable (schema := weekGrid) (random := counterSource) sampleOptions 5%nat.
Proof.
  apply (same_arrangements_same_schedule flipSource counterSource
           (fun (b : bool) (n : nat) => b = Nat.odd n)).
  - intros A l b n ->. simpl. split; [done|].
    by rewrite Nat.odd_succ, <- Nat.negb_odd.
  - reflexivity.
Defined.

(** ** Conflict Auditor *)

Lemma append_cons (c : ascii) (a b : string) :
  (String c a ++ b)%string = String c (a ++ b)%string.
Proof. reflexivity. Qed.

Lemma append_assoc (a b c : string) : ((a ++ b) ++ c = a ++ (b ++ c))%string.
Proof.
  induction a as [|x a IH]; [done|]. rewrite !append_cons. f_equal. exact IH.
Qed.

Lemma noDash_append_dash (x y : string) : noDash (x ++ String "-" y)%string = false.
Proof.
  induction x as [|c x IH]; [done|]. rewrite append_cons. simpl.
  rewrite IH. apply andb_false_r.
Qed.

(** A dash followed by a dash-free tail splits a text in one way only. *)
Lemma append_dash_inj (x x' a a' : string) :
  noDash a = true → noDash a' = true →
  (x ++ String "-" a = x' ++ String "-" a')%string → x = x' ∧ a = a'.
Proof.
  intros Ha Ha'. revert x'. induction x as [|c x IH]; intros [|c' x'];
    rewrite ?append_cons; change (EmptyString ++ ?s)%string with s.
  - by intros [= ->].
  - intros [= <- ->]. by rewrite noDash_append_dash in Ha.
  - intros [= -> <-]. by rewrite noDash_append_dash in Ha'.
  - intros [= <- Hrest]. destruct (IH _ Hrest) as [-> ->]. done.
Qed.

Lemma slotKey_assoc (d s e : string) :
  (d ++ "-" ++ s ++ "-" ++ e = (d ++ String "-" s) ++ String "-" e)%string.
Proof. by rewrite append_assoc, append_cons. Qed.

(** Rows with the same tuple have the same key; for rows whose times are
    single tokens the key determines the tuple. *)
Lemma slotKey_sameSlot r1 r2 : sameSlot r1 r2 → slotKey r1 = slotKey r2.
Proof. intros (Hd & Hs & He). unfold slotKey. by rewrite Hd, Hs, He. Qed.

Lemma sameSlot_slotKey r1 r2 :
  wellTimed r1 → wellTimed r2 → slotKey r1 = slotKey r2 → sameSlot r1 r2.
Proof.
  intros (Hs1 & e1 & He1 & Hn1) (Hs2 & e2 & He2 & Hn2). unfold slotKey, sameSlot.
  rewrite He1, He2. simpl.
  rewrite !slotKey_assoc. intros Hkey.
  apply append_dash_inj in Hkey as [Hkey ->]; [|done..].
  apply append_dash_inj in Hkey as [-> ->]; done.
Qed.

Section Audit.
Context (who : ScheduledClass.t → Z).
Implicit Types (a : AuditState) (rows : list ScheduledClass.t) (sc : ScheduledClass.t).

Lemma groupAt_auditRow a sc i key :
  groupAt (groups (auditRow who a sc)) i key
  = groupAt (groups a) i key
    ++ (if bool_decide (who sc = i ∧ slotKey sc = key) then [sc] else []).
Proof.
  unfold auditRow, groupAt. simpl.
  destruct (decide (who sc = i)) as [<-|Hi].
  - rewrite lookup_insert_eq. simpl.
    destruct (decide (slotKey sc = key)) as [<-|Hk].
    + rewrite lookup_insert_eq, bool_decide_eq_true_2 by done. simpl.
      by destruct (groups a !! who sc).
    + rewrite lookup_insert_ne, bool_decide_eq_false_2 by (try intros [_ ?]; done).
      rewrite app_nil_r. by destruct (groups a !! who sc).
  - rewrite lookup_insert_ne, bool_decide_eq_false_2 by (try intros [? _]; done).
    by rewrite app_nil_r.
Qed.

Lemma pushed_auditRow a sc :
  pushed (auditRow who a sc)
  = if (1 <? length (groupAt (groups a) (who sc) (slotKey sc) ++ [sc]))%nat
    then pushed a ++ [(who sc, slotKey sc)] else pushed a.
Proof. unfold auditRow, groupAt. simpl. by destruct (groups a !! who sc). Qed.

(** After the loop, the array under a subject and a key holds the rows
    filed there, and a reference was pushed exactly for the arrays that
    hold two rows or more. *)
Lemma audit_loop rows :
  (∀ i key, groupAt (groups (fold_left (auditRow who) rows (mkAudit ∅ []))) i key
            = filedUnder who i key rows)
  ∧ (∀ i key, (i, key) ∈ pushed (fold_left (auditRow who) rows (mkAudit ∅ []))
              ↔ (2 ≤ length (filedUnder who i key rows))%nat).
Proof.
  induction rows as [|sc rows IH] using rev_ind.
  { split; [done|]. intros i key. simpl. split; [by intros ?%elem_of_nil|lia]. }
  rewrite fold_left_app. cbn [fold_left].
  destruct IH as [Hgroups Hpushed].
  set (a := fold_left (auditRow who) rows (mkAudit ∅ [])) in *.
  assert (∀ i key, filedUnder who i key (rows ++ [sc])
                   = filedUnder who i key rows
                     ++ (if bool_decide (who sc = i ∧ slotKey sc = key) then [sc] else []))
    as Hfiled by (intros; unfold filedUnder; by rewrite filter_snoc).
  split.
  - intros i key. by rewrite groupAt_auditRow, Hgroups, Hfiled.
  - intros i key. rewrite Hfiled, length_app, pushed_auditRow, Hgroups, length_app.
    simpl.
    destruct (Nat.ltb_spec 1 (length (filedUnder who (who sc) (slotKey sc) rows) + 1)) as [Hlt|Hge].
    + rewrite elem_of_app, list_elem_of_singleton, Hpushed.
      case_bool_decide as Hsame; simpl.
      * destruct Hsame as [<- <-]. split; [lia|]. intros _. by right.
      * split; [intros [?|[= -> ->]]; [lia|by destruct Hsame]|]. intros ?. left. lia.
    + rewrite Hpushed. case_bool_decide as Hsame; simpl; [|lia].
      destruct Hsame as [<- <-]. lia.
Qed.

(** Every reported conflict is the full array of some row's subject and
    key, and that array holds two rows or more. *)
Lemma audit_reports {C : Type} (mk : Z → list ScheduledClass.t → C) rows c :
  c ∈ audit who mk rows →
  ∃ r0, r0 ∈ rows
        ∧ c = mk (who r0) (filedUnder who (who r0) (slotKey r0) rows)
        ∧ (2 ≤ length (filedUnder who (who r0) (slotKey r0) rows))%nat.
Proof.
  unfold audit. destruct (audit_loop rows) as [Hgroups Hpushed].
  set (a := fold_left (auditRow who) rows (mkAudit ∅ [])) in *.
  intros Hc. apply list_elem_of_In, in_map_iff in Hc as ([i key] & <- & Hin).
  apply list_elem_of_In, Hpushed in Hin. simpl. rewrite Hgroups.
  destruct (filedUnder who i key rows) as [|r0 rest] eqn:Hf; [simpl in Hin; lia|].
  assert (r0 ∈ filedUnder who i key rows) as Hr0 by (rewrite Hf; by left).
  apply list_elem_of_In, filter_In in Hr0 as [Hr0 Hsame].
  apply bool_decide_eq_true in Hsame as [<- <-].
  exists r0. rewrite Hf. split; [by apply list_elem_of_In|]. split; [done|simpl in *; lia].
Qed.

(** Two rows at different positions with the same subject and key are
    reported together. *)
Lemma audit_complete {C : Type} (mk : Z → list ScheduledClass.t → C) rows
    (p q : nat) r1 r2 :
  p ≠ q → rows !! p = Some r1 → rows !! q = Some r2 →
  who r1 = who r2 → slotKey r1 = slotKey r2 →
  mk (who r1) (filedUnder who (who r1) (slotKey r1) rows) ∈ audit who mk rows
  ∧ r1 ∈ filedUnder who (who r1) (slotKey r1) rows
  ∧ r2 ∈ filedUnder who (who r1) (slotKey r1) rows.
Proof.
  intros Hpq Hp Hq Hwho Hkey.
  unfold audit. destruct (audit_loop rows) as [Hgroups Hpushed].
  set (a := fold_left (auditRow who) rows (mkAudit ∅ [])) in *.
  assert (∀ r, r ∈ rows → who r = who r1 → slotKey r = slotKey r1 →
               r ∈ filedUnder who (who r1) (slotKey r1) rows) as Hin.
  { intros r Hr H1 H2. apply list_elem_of_In, filter_In.
    split; [by apply list_elem_of_In|]. by apply bool_decide_eq_true. }
  split; [|split; apply Hin; try done; apply list_elem_of_lookup; eauto].
  assert ((who r1, slotKey r1) ∈ pushed a) as Href.
  { apply Hpushed.
    assert (∀ (l : list ScheduledClass.t) (f : ScheduledClass.t → bool) (i j : nat) x y,
              (i < j)%nat → l !! i = Some x → l !! j = Some y →
              f x = true → f y = true → (2 ≤ length (List.filter f l))%nat) as Htwo.
    { intros l f. induction l as [|z l IH]; intros i j x y Hij Hi Hj Hx Hy; [done|].
      destruct i as [|i]; simpl in Hi.
      - injection Hi as ->. simpl. rewrite Hx. simpl.
        destruct j as [|j]; [lia|]. simpl in Hj.
        assert (y ∈ List.filter f l) as Hy'.
        { apply list_elem_of_In, filter_In. split; [|done].
          apply list_elem_of_In, list_elem_of_lookup. eauto. }
        destruct (List.filter f l); [by apply elem_of_nil in Hy'|simpl; lia].
      - destruct j as [|j]; [lia|]. simpl in Hj. simpl.
        pose proof (IH i j x y ltac:(lia) Hi Hj Hx Hy).
        destruct (f z); simpl; lia. }
    destruct (Nat.lt_trichotomy p q) as [Hlt|[?|Hgt]]; [|done|].
    - apply (Htwo _ _ p q r1 r2); try done; apply bool_decide_eq_true; done.
    - apply (Htwo _ _ q p r2 r1); try done; apply bool_decide_eq_true; done. }
  apply list_elem_of_In, in_map_iff. exists (who r1, slotKey r1). simpl.
  rewrite Hgroups. split; [done|by apply list_elem_of_In].
Qed.

(** For rows whose times are single tokens, filing by key is filing by
    exact slot. *)
Lemma filedUnder_clashingWith rows r0 :
  Forall wellTimed rows → r0 ∈ rows →
  filedUnder who (who r0) (slotKey r0) rows = clashingWith who r0 rows.
Proof.
  intros Hwt Hr0. apply filter_ext_in. intros r Hr.
  apply list_elem_of_In in Hr.
  pose proof (proj1 (List.Forall_forall _ _) Hwt) as Hall.
  apply bool_decide_ext. split; intros [Hw Hk]; (split; [done|]).
  - apply sameSlot_slotKey; try done; apply Hall; by apply list_elem_of_In.
  - by apply slotKey_sameSlot.
Qed.

End Audit.

Lemma groupAt_empty (i : Z) (key : string) : groupAt ∅ i key = [].
Proof. unfold groupAt. by rewrite lookup_empty. Qed.

(** The auditor on two rows with the same subject and the same key. *)
Lemma audit_pair {C : Type} (who : ScheduledClass.t → Z)
    (mk : Z → list ScheduledClass.t → C) (r1 r2 : ScheduledClass.t) :
  who r1 = who r2 → slotKey r1 = slotKey r2 →
  audit who mk [r1; r2] = [mk (who r1) [r1; r2]].
Proof.
  intros Hwho Hkey. unfold audit. cbn [fold_left].
  set (a1 := auditRow who (mkAudit ∅ []) r1). set (a2 := auditRow who a1 r2).
  assert (groupAt (groups a1) (who r2) (slotKey r2) = [r1]) as H1.
  { unfold a1. rewrite groupAt_auditRow. cbn [groups].
    rewrite groupAt_empty, bool_decide_eq_true_2; done. }
  assert (pushed a1 = []) as P1.
  { unfold a1. rewrite pushed_auditRow. cbn [groups pushed]. by rewrite groupAt_empty. }
  assert (pushed a2 = [(who r2, slotKey r2)]) as P2.
  { unfold a2. rewrite pushed_auditRow, H1, P1. done. }
  assert (groupAt (groups a2) (who r2) (slotKey r2) = [r1; r2]) as H2.
  { unfold a2. rewrite groupAt_auditRow, H1, bool_decide_eq_true_2; done. }
  rewrite P2. cbn [map fst snd]. rewrite H2, Hwho. done.
Qed.

(** C8, amended.  The auditor groups rows, per instructor and per
    classroom, by the key text day-startTime-endTime.  Two rows at different
    positions with the same slot and the same instructor (classroom) are
    always reported together in one conflict.  For rows whose times are
    single tokens, every reported conflict is the list of all rows that
    have the instructor (classroom) and the exact slot of one row, and it
    holds at least two rows.  For any two rows with the same instructor
    and the same slot, [instructorConflicts] is exactly one group made of
    these two rows. *)
Theorem audit_groups_by_exact_slot :
  (∀ rows (p q : nat) r1 r2,
     p ≠ q → rows !! p = Some r1 → rows !! q = Some r2 → sameSlot r1 r2 →
     (ScheduledClass.instructorId r1 = ScheduledClass.instructorId r2 →
      ∃ c, c ∈ instructorConflicts (checkConflicts rows)
           ∧ InstructorConflict.instructorId c = ScheduledClass.instructorId r1
           ∧ r1 ∈ InstructorConflict.classes c ∧ r2 ∈ InstructorConflict.classes c)
     ∧ (ScheduledClass.classroomId r1 = ScheduledClass.classroomId r2 →
        ∃ c, c ∈ classroomConflicts (checkConflicts rows)
             ∧ ClassroomConflict.classroomId c = ScheduledClass.classroomId r1
             ∧ r1 ∈ ClassroomConflict.classes c ∧ r2 ∈ ClassroomConflict.classes c))
  ∧ (∀ rows, Forall wellTimed rows →
       (∀ c, c ∈ instructorConflicts (checkConflicts rows) →
          ∃ r0, r0 ∈ rows
                ∧ c = InstructorConflict.mk (ScheduledClass.instructorId r0)
                        (clashingWith ScheduledClass.instructorId r0 rows)
                ∧ (2 ≤ length (clashingWith ScheduledClass.instructorId r0 rows))%nat)
       ∧ (∀ c, c ∈ classroomConflicts (checkConflicts rows) →
          ∃ r0, r0 ∈ rows
                ∧ c = ClassroomConflict.mk (ScheduledClass.classroomId r0)
                        (clashingWith ScheduledClass.classroomId r0 rows)
                ∧ (2 ≤ length (clashingWith ScheduledClass.classroomId r0 rows))%nat))
  ∧ (∀ r1 r2,
       ScheduledClass.instructorId r1 = ScheduledClass.instructorId r2 →
       sameSlot r1 r2 →
       instructorConflicts (checkConflicts [r1; r2])
       = [InstructorConflict.mk (ScheduledClass.instructorId r1) [r1; r2]]).
Proof.
  split; [|split].
  - intros rows p q r1 r2 Hpq Hp Hq Hsame. apply slotKey_sameSlot in Hsame.
    split; intros Hwho.
    + destruct (audit_complete ScheduledClass.instructorId InstructorConflict.mk
                  rows p q r1 r2 Hpq Hp Hq Hwho Hsame) as (Hc & H1 & H2).
      eexists. split; [exact Hc|]. by repeat split.
    + destruct (audit_complete ScheduledClass.classroomId ClassroomConflict.mk
                  rows p q r1 r2 Hpq Hp Hq Hwho Hsame) as (Hc & H1 & H2).
      eexists. split; [exact Hc|]. by repeat split.
  - intros rows Hwt. split.
    + intros c Hc. apply audit_reports in Hc as (r0 & Hr0 & -> & Hlen).
      exists r0. rewrite <- filedUnder_clashingWith by done. done.
    + intros c Hc. apply audit_reports in Hc as (r0 & Hr0 & -> & Hlen).
      exists r0. rewrite <- filedUnder_clashingWith by done. done.
  - intros r1 r2 Hwho Hsame. apply slotKey_sameSlot in Hsame.
    by apply audit_pair.
Qed.

Lemma audit_groups_by_exact_slot_witness :
  instructorConflicts (checkConflicts [mondayNineRoomA; mondayNineRoomB])
  = [InstructorConflict.mk 7 [mondayNineRoomA; mondayNineRoomB]]
  ∧ classroomConflicts (checkConflicts [mondayNineRoomA; mondayNineRoomB]) = []
  ∧ studentConflicts (checkConflicts [mondayNineRoomA; mondayNineRoomB]) = [].
Proof.
  split; [|split; reflexivity].
  apply (proj2 (proj2 audit_groups_by_exact_slot) mondayNineRoomA mondayNineRoomB).
  - reflexivity.
  - by repeat split.
Defined.

(** A conflict holds the array itself: with three rows in one slot the
    auditor reports twice, and both reports show all three rows. *)
Example audit_three_rows :
  instructorConflicts
    (checkConflicts [mondayNineRoomA; mondayNineRoomB; mondayNineRoomA])
  = [InstructorConflict.mk 7 [mondayNineRoomA; mondayNineRoomB; mondayNineRoomA];
     InstructorConflict.mk 7 [mondayNineRoomA; mondayNineRoomB; mondayNineRoomA]].
Proof. reflexivity. Qed.

(** The auditor compares keys, not ranges: rows that overlap without
    having the same slot are not reported. *)
Example audit_ignores_partial_overlap :
  instructorConflicts
    (checkConflicts [ScheduledClass.mk 0 1 7 10 "Monday" "09:00" (Some "11:00") 99;
                     ScheduledClass.mk 0 2 7 11 "Monday" "10:00" (Some "11:00") 99])
  = [].
Proof. reflexivity. Qed.

(** ** The caller's arrays are left alone *)

Section Frame.
Context {A : Type}.
Implicit Types (h : gmap nat (list A)) (l : nat).

Lemma arraysKept_refl h : arraysKept h h.
Proof. by intros l _. Qed.

Lemma arraysKept_trans h1 h2 h3 :
  arraysKept h1 h2 → arraysKept h2 h3 → arraysKept h1 h3.
Proof.
  intros H12 H23 l Hl. rewrite <- (H12 l Hl). apply H23. by rewrite (H12 l Hl).
Qed.

Lemma allocArray_kept xs h :
  arraysKept h (allocArray xs h).2
  ∧ (allocArray xs h).2 !! (allocArray xs h).1 = Some xs.
Proof.
  unfold allocArray. simpl. split; [|by rewrite lookup_insert_eq].
  intros l Hl. rewrite lookup_insert_ne; [done|].
  intros <-. apply (is_fresh (dom h)). by apply elem_of_dom.
Qed.

(** Sorting the array at [l0] in place leaves every other array alone. *)
Lemma sortArray_other cmp l0 l h :
  l0 ≠ l → sortArray cmp l0 h !! l = h !! l.
Proof. intros Hne. unfold sortArray. by rewrite lookup_alter_ne. Qed.

Lemma sortArray_same cmp l0 h xs :
  h !! l0 = Some xs → sortArray cmp l0 h !! l0 = Some (sortBy cmp xs).
Proof. intros Hl. unfold sortArray. by rewrite lookup_alter_eq, Hl. Qed.

(** A fresh copy, sorted in place: the copy reads as the sorted list and
    the arrays that existed before are kept. *)
Lemma alloc_then_sort cmp xs h :
  let l := (allocArray xs h).1 in
  let h' := sortArray cmp l (allocArray xs h).2 in
  readArray l h' = sortBy cmp xs ∧ arraysKept h h'.
Proof.
  intros l h'. destruct (allocArray_kept xs h) as [Hkept Hnew]. split.
  - unfold readArray, h'. by rewrite (sortArray_same cmp l _ xs).
  - intros l0 Hl0. unfold h'. rewrite sortArray_other; [by apply Hkept|].
    intros <-. unfold l, allocArray in Hl0. simpl in Hl0.
    apply (is_fresh (dom h)). by apply elem_of_dom.
Qed.

End Frame.

Section FrameRun.
Context {schema : Schema} {random : RandomSource}.
Implicit Types (idx : ConstraintIndex) (st : State).

Lemma sortedCoursesRef_spec idx coursesAt h :
  readArray (sortedCoursesRef idx coursesAt h).1 (sortedCoursesRef idx coursesAt h).2
  = sortedCourses idx (readArray coursesAt h)
  ∧ arraysKept h (sortedCoursesRef idx coursesAt h).2.
Proof.
  unfold sortedCoursesRef, spreadArray.
  destruct (allocArray (readArray coursesAt h) h) as [copy h1] eqn:Ea.
  pose proof (alloc_then_sort (fun a b => constraintCount idx b - constraintCount idx a)
                (readArray coursesAt h) h) as Hs.
  rewrite Ea in Hs. exact Hs.
Qed.

Lemma suitableRoomsRef_spec classroomsAt course h :
  readArray (suitableRoomsRef classroomsAt course h).1 (suitableRoomsRef classroomsAt course h).2
  = suitableRooms (readArray classroomsAt h) course
  ∧ arraysKept h (suitableRoomsRef classroomsAt course h).2.
Proof.
  unfold suitableRoomsRef, filterArray, suitableRooms.
  destruct (allocArray _ h) as [kept h1] eqn:Ea.
  pose proof (alloc_then_sort (fun a b => Classroom.capacity a - Classroom.capacity b)
                (List.filter (fun room => Course.capacity course <=? Classroom.capacity room)
                   (readArray classroomsAt h)) h) as Hs.
  rewrite Ea in Hs. exact Hs.
Qed.

Lemma readArray_kept {A : Type} (h h' : gmap nat (list A)) l :
  arraysKept h h' → is_Some (h !! l) → readArray l h' = readArray l h.
Proof. intros Hk Hl. unfold readArray. by rewrite (Hk l Hl). Qed.

Lemma placeCoursesRef_spec idx opts classroomsAt cs h st :
  is_Some (h !! classroomsAt) →
  classrooms opts = readArray classroomsAt h →
  match placeCoursesRef idx (timetableId opts) classroomsAt cs h st with
  | Some (st', h') => placeCourses idx opts cs st = Some st' ∧ arraysKept h h'
  | None => placeCourses idx opts cs st = None
  end.
Proof.
  revert h st. induction cs as [|course cs IH]; intros h st Hvalid Hrooms;
    cbn [placeCoursesRef placeCourses].
  { split; [done|apply arraysKept_refl]. }
  destruct (suitableRoomsRef_spec classroomsAt course h) as [Hread Hkept].
  destruct (suitableRoomsRef classroomsAt course h) as [rooms h1].
  cbn [fst snd] in Hread, Hkept.
  unfold placeCourse. rewrite Hrooms, <- Hread.
  destruct (placeCourseIn idx (timetableId opts) (readArray rooms h1) course st)
    as [st1|]; cbn [mbind option_bind]; [|done].
  specialize (IH h1 st1). rewrite (Hkept _ Hvalid) in IH.
  specialize (IH Hvalid).
  rewrite (readArray_kept h h1 classroomsAt Hkept Hvalid) in IH. specialize (IH Hrooms).
  destruct (placeCoursesRef idx (timetableId opts) classroomsAt cs h1 st1) as [[st' h']|];
    [|done].
  destruct IH as [Hrun Hkept']. split; [done|]. by eapply arraysKept_trans.
Qed.

End FrameRun.

(** C9.  The inputs are read-only.  A run over the caller's memory
    resolves to the state the generator computes from the contents of
    the four arrays, and leaves every array that existed before the call
    where it was, contents and order unchanged; in particular the four
    input arrays read the same after the call as before. *)
Theorem inputs_are_read_only {schema : Schema} {random : RandomSource}
    (m m' : Memory) (o : OptionsRef) (g : Rng) (st : State) :
  validRefs m o →
  runGeneratorRef m o g = Some (st, m') →
  runGenerator (derefOptions m o) g = Some st
  ∧ arraysKept (courseArrays m) (courseArrays m')
  ∧ arraysKept (instructorArrays m) (instructorArrays m')
  ∧ arraysKept (classroomArrays m) (classroomArrays m')
  ∧ arraysKept (constraintArrays m) (constraintArrays m')
  ∧ derefOptions m' o = derefOptions m o.
Proof.
  intros (Hc & Hi & Hr & Hk) Hrun. unfold runGeneratorRef in Hrun.
  set (idx := buildIndex (readArray (constraintsRef o) (constraintArrays m))) in *.
  destruct (sortedCoursesRef_spec idx (coursesRef o) (courseArrays m)) as [Hsorted Hkc].
  destruct (sortedCoursesRef idx (coursesRef o) (courseArrays m)) as [sorted hc].
  simpl in Hsorted, Hkc.
  pose proof (placeCoursesRef_spec idx (derefOptions m o) (classroomsRef o)
                (readArray sorted hc) (classroomArrays m) (initialState g) Hr eq_refl)
    as Hspec.
  simpl in Hspec.
  destruct (placeCoursesRef idx (timetableIdArg o) (classroomsRef o) (readArray sorted hc)
              (classroomArrays m) (initialState g)) as [[st1 hr]|]; simpl in Hrun; [|done].
  injection Hrun as <- <-. destruct Hspec as [Hpure Hkr]. simpl.
  split; [|split; [done|split; [apply arraysKept_refl|split; [done|split;
    [apply arraysKept_refl|]]]]].
  - unfold runGenerator. simpl. fold idx. by rewrite <- Hsorted.
  - unfold derefOptions. simpl.
    by rewrite (readArray_kept _ _ _ Hkc Hc), (readArray_kept _ _ _ Hkr Hr).
Qed.

Lemma inputs_are_read_only_witness :
  ∃ st m',
    runGeneratorRef (schema := weekGrid) (random := flipSource) sampleMemory sampleRefs false
    = Some (st, m')
    ∧ derefOptions m' sampleRefs = derefOptions sampleMemory sampleRefs
    ∧ readArray 0 (courseArrays m') = [cs101; cs102]
    ∧ readArray 0 (classroomArrays m') = [roomA; smallRoom].
Proof.
  destruct (runGeneratorRef (schema := weekGrid) (random := flipSource)
              sampleMemory sampleRefs false) as [[st m']|] eqn:Hrun;
    [|vm_compute in Hrun; discriminate].
  exists st, m'. split; [reflexivity|].
  assert (validRefs sampleMemory sampleRefs) as Hvalid
    by (repeat split; by eexists).
  destruct (inputs_are_read_only (schema := weekGrid) (random := flipSource)
              sampleMemory m' sampleRefs false st Hvalid Hrun)
    as (_ & Hc & _ & Hr & _ & Hsame).
  split; [exact Hsame|].
  split.
  - unfold readArray. rewrite (Hc 0%nat); [reflexivity|by eexists].
  - unfold readArray. rewrite (Hr 0%nat); [reflexivity|by eexists].
Defined.

(** ** A generated schedule passes the audit *)

Lemma noDash_trimStart s : noDash s = true → noDash (trimStart s) = true.
Proof.
  induction s as [|c s IH]; simpl; [done|].
  destruct (isWhiteSpace c); [|done].
  intros [_ Hs]%andb_true_iff. by apply IH.
Qed.

Lemma noDash_trimEnd s : noDash s = true → noDash (trimEnd s) = true.
Proof.
  induction s as [|c s IH]; simpl; [done|].
  intros [Hc Hs]%andb_true_iff. specialize (IH Hs).
  destruct (trimEnd s) as [|c' s']; simpl in *.
  - destruct (isWhiteSpace c); simpl; [done|]. by rewrite Hc.
  - by rewrite Hc, IH.
Qed.

Lemma noDash_trim s : noDash s = true → noDash (trim s) = true.
Proof. intros Hs. by apply noDash_trimEnd, noDash_trimStart. Qed.

(** The pieces that [split('-')] returns hold no dash. *)
Lemma noDash_split_dash s : Forall (fun piece => noDash piece = true) (split_dash s).
Proof.
  induction s as [|c s IH]; simpl; [by repeat constructor|].
  destruct (Ascii.eqb c "-") eqn:Hc; [by constructor|].
  destruct (split_dash s) as [|piece pieces]; [by repeat constructor; simpl; rewrite Hc|].
  apply Forall_cons in IH as [Hpiece Hpieces].
  constructor; [|done]. simpl. by rewrite Hc, Hpiece.
Qed.

Lemma noDash_startOf label : noDash (startOf label) = true.
Proof.
  unfold startOf. apply noDash_trim.
  pose proof (noDash_split_dash label) as Hall.
  destruct (split_dash label) as [|piece pieces]; [done|].
  by apply Forall_cons in Hall as [? _].
Qed.

Lemma noDash_endOf label e : endOf label = Some e → noDash e = true.
Proof.
  unfold endOf. destruct (split_dash label !! 1%nat) as [piece|] eqn:Hp; [|done].
  intros [= <-]. apply noDash_trim.
  by apply (Forall_lookup_1 _ _ _ _ (noDash_split_dash label) Hp).
Qed.

Section GeneratedRows.
Context {schema : Schema} {random : RandomSource}.

(** The row of a cell of a grid whose labels all have their dash has
    single-token times. *)
Lemma rowOfCell_wellTimed row cell :
  labelsHaveEnd → rowOfCell row cell → wellTimed row.
Proof.
  intros Hwf (_ & Hs & i & Hi & He). split; [rewrite Hs; apply noDash_startOf|].
  destruct He as [He|(next & _ & He)].
  - destruct (Forall_lookup_1 _ _ _ _ Hwf Hi) as [e Hend].
    exists e. split; [by rewrite He|]. by eapply noDash_endOf.
  - eexists. split; [exact He|]. apply noDash_startOf.
Qed.

Lemma chronological_labelsHaveEnd clock :
  chronological clock timeSlots = true → labelsHaveEnd.
Proof.
  intros Hch. apply Forall_lookup. intros i label Hi.
  destruct (chronological_lookup clock _ _ _ Hch Hi) as (e & He & _). by exists e.
Qed.

(** A row of a chronological grid starts before it ends. *)
Lemma rowOfCell_nonempty clock row cell :
  chronological clock timeSlots = true → rowOfCell row cell →
  ∃ e, ScheduledClass.endTime row = Some e
       ∧ clock (ScheduledClass.startTime row) < clock e.
Proof.
  intros Hch (_ & Hs & i & Hi & He).
  destruct (chronological_lookup clock _ _ _ Hch Hi) as (e & Hend & Hlt & Hlater).
  destruct He as [He|(next & Hnext & He)].
  - exists e. split; [by rewrite He|]. by rewrite Hs.
  - eexists. split; [exact He|]. rewrite Hs.
    by destruct (Hlater (S i) next ltac:(lia) Hnext).
Qed.

Lemma filter_two {A : Type} (f : A → bool) (l : list A) :
  (2 ≤ length (List.filter f l))%nat →
  ∃ (p q : nat) x y, p ≠ q ∧ l !! p = Some x ∧ l !! q = Some y
                     ∧ f x = true ∧ f y = true.
Proof.
  induction l as [|z l IH]; simpl; [lia|].
  destruct (f z) eqn:Hz; simpl.
  - intros Hlen. destruct (List.filter f l) as [|y rest] eqn:Hf; [simpl in Hlen; lia|].
    assert (In y (List.filter f l)) as Hy by (rewrite Hf; by left).
    apply filter_In in Hy as [Hy Hfy].
    apply (proj2 (list_elem_of_In _ _)), list_elem_of_lookup in Hy as [q Hq].
    exists 0%nat, (S q), z, y. by repeat split.
  - intros Hlen. destruct (IH Hlen) as (p & q & x & y & Hpq & Hp & Hq & Hx & Hy).
    exists (S p), (S q), x, y. repeat split; try done. lia.
Qed.

(** X3. On a chronological grid the auditor finds nothing in a schedule
    that [generateTimetable] returns. *)
Theorem generated_schedule_passes_audit (clock : string → Z)
    (opts : TimetableGeneratorOptions) (g : Rng) (rows : list ScheduledClass.t) :
  chronological clock timeSlots = true →
  generateTimetable opts g = Some rows →
  checkConflicts rows = mkReport [] [] [].
Proof.
  intros Hch Hgen. unfold generateTimetable in Hgen.
  destruct (runGenerator opts g) as [st|] eqn:Hrun; simpl in Hgen; [|done].
  injection Hgen as <-.
  pose proof (chronological_NoDup clock _ Hch) as Hts.
  pose proof (chronological_labelsHaveEnd clock Hch) as Hwf.
  pose proof (runGenerator_steps opts g st Hts Hrun) as Hsteps.
  pose proof (bookedOnce_steps _ _ _ Hsteps (bookedOnce_initial g)) as Hb.
  assert (noDoubleBooking clock (scheduledClasses st)) as Hnd.
  { eapply noDoubleBooking_steps; [exact Hch|exact Hsteps|apply bookedOnce_initial|].
    intros p q r1 r2 _ Hp. done. }
  assert (∀ (who : ScheduledClass.t → Z) i key,
            (∀ r1 r2, who r1 = who r2 →
                      ScheduledClass.instructorId r1 = ScheduledClass.instructorId r2
                      ∨ ScheduledClass.classroomId r1 = ScheduledClass.classroomId r2) →
            (2 ≤ length (filedUnder who i key (scheduledClasses st)))%nat → False)
    as Hnone.
  { intros who i key Hwho Hlen.
    apply filter_two in Hlen as (p & q & x & y & Hpq & Hp & Hq & Hx & Hy).
    apply bool_decide_eq_true in Hx as [Hwx Hkx], Hy as [Hwy Hky].
    assert (x ∈ scheduledClasses st) as Hinx by (apply list_elem_of_lookup; eauto).
    assert (y ∈ scheduledClasses st) as Hiny by (apply list_elem_of_lookup; eauto).
    destruct (bookedOnce_row_cell st x Hb Hinx) as [(cx & Hcx & _) _].
    destruct (bookedOnce_row_cell st y Hb Hiny) as [(cy & Hcy & _) _].
    assert (sameSlot x y) as (Hd & Hs & He).
    { apply sameSlot_slotKey; [by eapply rowOfCell_wellTimed..|congruence]. }
    destruct (rowOfCell_nonempty clock x cx Hch Hcx) as (e & Hex & Hlt).
    assert (overlapping clock x y = true) as Hover.
    { unfold overlapping. rewrite bool_decide_eq_true_2 by done.
      rewrite <- He, Hex, <- Hs. simpl. apply andb_true_iff. split; by apply Z.ltb_lt. }
    rewrite (Hnd p q x y Hpq Hp Hq) in Hover; [done|].
    apply Hwho. congruence. }
  unfold checkConflicts. f_equal.
  - destruct (audit _ _ _) as [|c cs] eqn:Ha; [done|].
    assert (c ∈ audit ScheduledClass.instructorId InstructorConflict.mk (scheduledClasses st))
      as Hc by (rewrite Ha; by left).
    apply audit_reports in Hc as (r0 & _ & _ & Hlen).
    destruct (Hnone _ _ _ (fun r1 r2 H => or_introl H) Hlen).
  - destruct (audit _ _ _) as [|c cs] eqn:Ha; [done|].
    assert (c ∈ audit ScheduledClass.classroomId ClassroomConflict.mk (scheduledClasses st))
      as Hc by (rewrite Ha; by left).
    apply audit_reports in Hc as (r0 & _ & _ & Hlen).
    destruct (Hnone _ _ _ (fun r1 r2 H => or_intror H) Hlen).
Qed.

End GeneratedRows.

(** ** The model on small inputs *)

(** No block of three fits in a day of two slots: the fallback books
    three single slots, each row with the end of its own label. *)
Example fallback_scatters :
  (map (fun r => (ScheduledClass.day r, ScheduledClass.startTime r, ScheduledClass.endTime r)))
    <$> generateTimetable (schema := twoSlotGrid) (random := flipSource)
          (mkOptions [cs102] [drSmith] [roomA] [] 99) false
  = Some [("Monday", "09:00", Some "10:00");
          ("Monday", "10:00", Some "11:00");
          ("Tuesday", "09:00", Some "10:00")].
Proof. reflexivity. Qed.

(** One day of two slots cannot hold three: two rows and the warning. *)
Example fallback_runs_short :
  (fun st => (length (scheduledClasses st), console st))
    <$> runGenerator (schema := oneDayGrid) (random := flipSource)
          (mkOptions [cs102] [drSmith] [roomA] [] 99) false
  = Some (2%nat, [CouldOnlyAssign 2 3 "CS102"]).
Proof. reflexivity. Qed.

(** A label without a dash makes the block commit throw: the promise
    rejects. *)
Example dashless_label_rejects :
  generateTimetable (schema := dashlessGrid) (random := flipSource)
    oneCourseOptions false = None.
Proof. reflexivity. Qed.

(** Why the wall-clock statement of C1 asks for labels in chronological
    order: an inner row of a block ends where the next label of the list
    starts, so with the labels out of order a block of two and a single
    slot of the same instructor overlap on the clock although they occupy
    three different cells. *)
Example unordered_labels_overlap :
  ∃ block1 block2 single,
    generateTimetable (schema := unorderedGrid) (random := flipSource)
      (mkOptions [cs101; Course.mk 3 "CS103" 1 30 7 1] [drSmith] [roomA] [] 99) true
    = Some [block1; block2; single]
    ∧ (ScheduledClass.startTime block1, ScheduledClass.endTime block1)
      = ("09:00", Some "14:00")
    ∧ (ScheduledClass.startTime single, ScheduledClass.endTime single)
      = ("11:00", Some "12:00")
    ∧ ScheduledClass.instructorId block1 = ScheduledClass.instructorId single
    ∧ overlapping minutesOfDay block1 single = true.
Proof. eexists _, _, _. split; [vm_compute; reflexivity|]. by repeat split. Qed.

(** * Further properties *)

(** ** Every placement names its course, room and cell *)

Section PlacedTrace.
Context {schema : Schema} {random : RandomSource}.
Implicit Types (idx : ConstraintIndex) (st : State) (course : Course.t)
  (room : Classroom.t) (cell slot : ClassSlot).

Lemma placed_weaken (ok ok' : Z → Course.t → Classroom.t → ClassSlot → Prop) st st' :
  (∀ tid c r cell, ok tid c r cell → ok' tid c r cell) →
  rtc (placed ok) st st' → rtc (placed ok') st st'.
Proof.
  intros Hsub. induction 1 as [|x y z Hxy _ IH]; [done|].
  eapply rtc_l; [|exact IH].
  destruct Hxy; [apply placed_cell; auto|apply placed_warn|apply placed_rng].
Qed.

Lemma feasible_permitted idx st course roomId cell :
  feasible idx st course roomId cell → permitted idx course roomId cell.
Proof. intros (H1 & _ & H3 & _). by split. Qed.

Lemma commitBlockFrom_placed idx tid course room rooms d (s k : nat) (js : list nat) st st' :
  room ∈ rooms → d ∈ weekDays → (s + k ≤ length timeSlots)%nat →
  (∀ j, j ∈ js → (j < k)%nat
                 ∧ permitted idx course (Classroom.id room) (blockSlot d s j)) →
  commitBlockFrom tid course room d s k js st = Some st' →
  rtc (placed (okTurn idx tid course rooms)) st st'.
Proof.
  intros Hroom Hd Hk. revert st.
  induction js as [|j js IH]; intros st Hall; simpl.
  { by intros [= <-]. }
  unfold commitBlockSlot. simpl.
  destruct (Hall j) as [Hjk Hp]; [by left|].
  destruct (if (j =? k - 1)%nat then _ else _) as [e|] eqn:He; simpl; [|done].
  intros Hrest. eapply rtc_l.
  - apply (placed_cell _ st tid course room (blockSlot d s j)
             (startOf (slotLabel (s + j))) (Some e)).
    + destruct Hp. by repeat split.
    + repeat split; simpl. exists (s + j)%nat.
      split; [apply slotLabel_lookup; lia|].
      destruct (Nat.eqb_spec j (k - 1)) as [Hlast|Hlast].
      * left. by rewrite He.
      * right. injection He as <-. exists (slotLabel (s + j + 1)). split; [|done].
        replace (S (s + j)) with (s + j + 1)%nat by lia.
        apply slotLabel_lookup. lia.
  - apply IH; [|exact Hrest]. intros j' Hj'. apply Hall. by right.
Qed.

Lemma tryDays_placed idx tid course room rooms (k : nat) days st b st' :
  room ∈ rooms → (∀ d, d ∈ days → d ∈ weekDays) →
  tryDays idx tid course room k days st = Some (b, st') →
  rtc (placed (okTurn idx tid course rooms)) st st'.
Proof.
  intros Hroom. revert st.
  induction days as [|d days IH]; intros st Hdays; simpl.
  { by intros [= <- <-]. }
  destruct (shuffled (seq 0 (length timeSlots + 1 - k)) st) as [slotIndices st1] eqn:Es.
  apply shuffled_inv in Es as [Hp [g ->]].
  destruct (find _ slotIndices) as [startIdx|] eqn:Ef.
  - apply find_some in Ef as [Hin Hall].
    destruct (commitBlock _ _ _ _ _ _ _) as [st2|] eqn:Ec; simpl; [|done].
    intros [= <- <-].
    eapply rtc_l; [apply placed_rng|].
    eapply commitBlockFrom_placed; [exact Hroom|apply Hdays; by left| | |exact Ec].
    + eapply slotIndices_in_range; [exact Hp|by apply list_elem_of_In].
    + intros j Hj. apply elem_of_seq in Hj. split; [lia|].
      eapply feasible_permitted, allAvailable_feasible; [exact Hall|lia].
  - intros Hrest. eapply rtc_l; [apply placed_rng|].
    apply IH; [|done]. intros d' Hd'. apply Hdays. by right.
Qed.

Lemma tryRooms_placed idx tid course rooms0 (k : nat) days rooms st b st' :
  (∀ r, r ∈ rooms → r ∈ rooms0) → (∀ d, d ∈ days → d ∈ weekDays) →
  tryRooms idx tid course k days rooms st = Some (b, st') →
  rtc (placed (okTurn idx tid course rooms0)) st st'.
Proof.
  intros Hsub Hdays. revert st.
  induction rooms as [|room rooms IH]; intros st; simpl.
  { by intros [= <- <-]. }
  destruct (tryDays idx tid course room k days st) as [[assigned st1]|] eqn:Ed;
    simpl; [|done].
  apply (tryDays_placed idx tid course room rooms0) in Ed;
    [|apply Hsub; by left|done].
  destruct assigned.
  - by intros [= <- <-].
  - intros Hrest. etrans; [exact Ed|]. apply IH; [|done].
    intros r Hr. apply Hsub. by right.
Qed.

Lemma allSlots_day slot : slot ∈ allSlots → day slot ∈ weekDays.
Proof.
  unfold allSlots. rewrite list_elem_of_In, in_flat_map.
  intros (d & Hd & Hin). apply in_map_iff in Hin as (ts & <- & _). simpl.
  by apply list_elem_of_In.
Qed.

Lemma scatterSlots_placed idx tid course room rooms (k : nat) slots (n n' : nat) st st' :
  room ∈ rooms → (∀ slot, slot ∈ slots → slot ∈ allSlots) →
  scatterSlots idx tid course room k slots n st = (n', st') →
  rtc (placed (okTurn idx tid course rooms)) st st'.
Proof.
  intros Hroom. revert n st.
  induction slots as [|slot slots IH]; intros n st Hsub; simpl.
  { by intros [= <- <-]. }
  destruct (k <=? n)%nat; [by intros [= <- <-]|].
  destruct (isSlotAvailable idx st course slot (Classroom.id room)) eqn:Hav.
  - intros Hrest. eapply rtc_l.
    + apply (placed_cell _ st tid course room slot (startOf (timeSlot slot))
               (endOf (timeSlot slot))).
      * apply isSlotAvailable_feasible, feasible_permitted in Hav as [??].
        repeat split; try done. apply allSlots_day, Hsub. by left.
      * repeat split; simpl.
        destruct (allSlots_label slot) as [i Hi]; [apply Hsub; by left|].
        exists i. split; [done|by left].
    + eapply IH; [|exact Hrest]. intros s Hs. apply Hsub. by right.
  - apply IH. intros s Hs. apply Hsub. by right.
Qed.

Lemma scatterRooms_placed idx tid course rooms0 (k : nat) slots rooms (n n' : nat) st st' :
  (∀ r, r ∈ rooms → r ∈ rooms0) → (∀ slot, slot ∈ slots → slot ∈ allSlots) →
  scatterRooms idx tid course k slots rooms n st = (n', st') →
  rtc (placed (okTurn idx tid course rooms0)) st st'.
Proof.
  intros Hsub Hslots. revert n st.
  induction rooms as [|room rooms IH]; intros n st; simpl.
  { by intros [= <- <-]. }
  destruct (k <=? n)%nat; [by intros [= <- <-]|].
  destruct (scatterSlots idx tid course room k slots n st) as [n1 st1] eqn:E1.
  apply (scatterSlots_placed idx tid course room rooms0) in E1;
    [|apply Hsub; by left|done].
  intros Hrest. etrans; [exact E1|]. eapply IH; [|exact Hrest].
  intros r Hr. apply Hsub. by right.
Qed.

Lemma placeCourseIn_placed idx tid rooms course st st' :
  placeCourseIn idx tid rooms course st = Some st' →
  rtc (placed (okTurn idx tid course rooms)) st st'.
Proof.
  unfold placeCourseIn. destruct rooms as [|room rooms'] eqn:Hrooms.
  { intros [= <-]. apply rtc_once, placed_warn. }
  rewrite <- Hrooms. clear Hrooms.
  destruct (shuffled weekDays st) as [shuffledDays st1] eqn:Es.
  apply shuffled_inv in Es as [Hp [g ->]].
  destruct (tryRooms _ _ _ _ _ _ _) as [[assigned st2]|] eqn:Er; simpl; [|done].
  apply (tryRooms_placed idx tid course rooms) in Er;
    [|done|by intros d Hd; rewrite <- Hp].
  intros Hres. eapply rtc_l; [apply placed_rng|]. etrans; [exact Er|].
  destruct assigned; injection Hres as <-; [done|].
  unfold scatter.
  destruct (shuffled allSlots st2) as [shuffledSlots st3] eqn:Es.
  apply shuffled_inv in Es as [Hp' [g' ->]].
  destruct (scatterRooms _ _ _ _ _ _ _ _) as [n st4] eqn:Esc.
  apply (scatterRooms_placed idx tid course rooms) in Esc;
    [|done|by intros slot Hs; rewrite <- Hp'].
  eapply rtc_l; [apply placed_rng|]. etrans; [exact Esc|].
  destruct (n <? slotsNeeded course)%nat; [|done]. apply rtc_once, placed_warn.
Qed.

Lemma suitableRooms_elem rooms course r :
  r ∈ suitableRooms rooms course
  ↔ r ∈ rooms ∧ Course.capacity course ≤ Classroom.capacity r.
Proof.
  unfold suitableRooms. rewrite sortBy_perm, !list_elem_of_In, filter_In.
  by rewrite Z.leb_le.
Qed.

Lemma placeCourses_placed opts cs st st' :
  (∀ c, c ∈ cs → c ∈ courses opts) →
  placeCourses (buildIndex (constraints opts)) opts cs st = Some st' →
  rtc (placed (okRun opts)) st st'.
Proof.
  revert st. induction cs as [|course cs IH]; intros st Hsub; simpl.
  { by intros [= <-]. }
  destruct (placeCourse _ opts course st) as [st1|] eqn:E1; simpl; [|done].
  apply placeCourseIn_placed in E1.
  intros Hrest. etrans.
  - eapply placed_weaken; [|exact E1].
    intros tid c r cell (-> & -> & Hr & [??] & Hday).
    apply suitableRooms_elem in Hr as [Hr Hcap].
    repeat split; try done. apply Hsub. by left.
  - apply IH; [|done]. intros c Hc. apply Hsub. by right.
Qed.

Lemma runGenerator_placed opts g st :
  runGenerator opts g = Some st → rtc (placed (okRun opts)) (initialState g) st.
Proof.
  apply placeCourses_placed. intros c Hc. unfold sortedCourses in Hc.
  by rewrite sortBy_perm in Hc.
Qed.

(** Rows of a run are the rows of its placements. *)
Lemma placed_rows ok (st st' : State) :
  rtc (placed ok) st st' →
  (∀ row, row ∈ scheduledClasses st →
          ∃ tid c r cell, ok tid c r cell ∧ rowFor row tid c r cell) →
  ∀ row, row ∈ scheduledClasses st' →
         ∃ tid c r cell, ok tid c r cell ∧ rowFor row tid c r cell.
Proof.
  induction 1 as [|x y z Hxy _ IH]; [done|]. intros Hx. apply IH.
  destruct Hxy as [st tid course room cell s e Hok Hrow| |]; [|done..].
  intros row Hin. simpl in Hin. apply elem_of_app in Hin as [Hin|Hin]; [by apply Hx|].
  apply list_elem_of_singleton in Hin as ->.
  exists tid, course, room, cell. split; [done|].
  do 5 (split; [done|]). exact Hrow.
Qed.

(** Bookings are only ever added. *)
Lemma placed_bookingsKept ok (st st' : State) :
  rtc (placed ok) st st' → bookingsKept st st'.
Proof.
  induction 1 as [st|x y z Hxy _ IH]; [by repeat split|].
  destruct IH as (Hi & Hr & Hc).
  destruct Hxy as [st tid course room cell s e Hok Hrow| |]; [|by repeat split..].
  repeat split; intros k; (etrans; [|by eauto]); simpl; rewrite cellsOf_pushTo;
    by apply prefix_app_r.
Qed.

End PlacedTrace.

(** ** What the constraint loop builds *)

Lemma slotsDeclared_cons ty i c cs :
  slotsDeclared ty i (c :: cs)
  = (if decide (Constraint.type c = ty ∧ Constraint.entityId c = i)
     then [mkSlot (Constraint.day c) (Constraint.timeSlot c)] else [])
    ++ slotsDeclared ty i cs.
Proof.
  unfold slotsDeclared. cbn [List.filter].
  destruct (decide _) as [Hd|Hd];
    [rewrite bool_decide_eq_true_2 by done|rewrite bool_decide_eq_false_2 by done]; done.
Qed.

Lemma cellsOf_indexConstraint_instructor idx c i :
  cellsOf (instructorUnavailable (indexConstraint idx c)) i
  = cellsOf (instructorUnavailable idx) i
    ++ slotsDeclared "instructor_unavailable" i [c].
Proof.
  rewrite slotsDeclared_cons. unfold slotsDeclared at 1. simpl. rewrite app_nil_r.
  unfold indexConstraint.
  destruct (decide (Constraint.type c = "instructor_unavailable")) as [Ht|Ht]; simpl.
  - rewrite cellsOf_pushTo.
    destruct (decide (Constraint.entityId c = i)) as [He|He];
      destruct (decide (_ ∧ _)) as [[_ He']|Hn]; try done. destruct Hn. by split.
  - destruct (decide (_ ∧ _)) as [[Ht' _]|_]; [done|]. rewrite app_nil_r.
    by repeat destruct (decide _).
Qed.

Lemma cellsOf_indexConstraint_room idx c i :
  cellsOf (roomUnavailable (indexConstraint idx c)) i
  = cellsOf (roomUnavailable idx) i ++ slotsDeclared "room_unavailable" i [c].
Proof.
  rewrite slotsDeclared_cons. unfold slotsDeclared at 1. simpl. rewrite app_nil_r.
  unfold indexConstraint.
  destruct (decide (Constraint.type c = "instructor_unavailable")) as [Ht|Ht]; simpl.
  { destruct (decide (_ ∧ _)) as [[Ht' _]|_]; [by rewrite Ht in Ht'|].
    by rewrite app_nil_r. }
  destruct (decide (Constraint.type c = "room_unavailable")) as [Ht'|Ht']; simpl.
  - rewrite cellsOf_pushTo.
    destruct (decide (Constraint.entityId c = i)) as [He|He];
      destruct (decide (_ ∧ _)) as [[_ He']|Hn]; try done. destruct Hn. by split.
  - destruct (decide (_ ∧ _)) as [[Ht'' _]|_]; [done|]. rewrite app_nil_r.
    by destruct (decide _).
Qed.

Lemma conflictsOf_indexConstraint idx c a :
  conflictsOf (indexConstraint idx c) a
  = conflictsOf idx a ++ conflictsDeclared a [c].
Proof.
  unfold conflictsDeclared. simpl. rewrite app_nil_r.
  unfold indexConstraint, conflictsOf.
  destruct (decide (Constraint.type c = "instructor_unavailable")) as [Ht|Ht]; simpl.
  { destruct (decide (Constraint.type c = "course_conflict")) as [Hc|Hc];
      [by rewrite Ht in Hc|]. by rewrite app_nil_r. }
  destruct (decide (Constraint.type c = "room_unavailable")) as [Ht'|Ht']; simpl.
  { destruct (decide (Constraint.type c = "course_conflict")) as [Hc|Hc];
      [by rewrite Ht' in Hc|]. by rewrite app_nil_r. }
  destruct (decide (Constraint.type c = "course_conflict")) as [Hc|Hc]; simpl;
    [|by rewrite app_nil_r].
  rewrite lookup_pushList_default
    by (apply pushList_is_Some, ensureList_is_Some).
  rewrite lookup_pushList_default
    by (apply ensureList_keeps, ensureList_is_Some).
  rewrite !lookup_ensureList_default. by rewrite <- app_assoc.
Qed.

Lemma slotsDeclared_app ty i cs cs' :
  slotsDeclared ty i (cs ++ cs') = slotsDeclared ty i cs ++ slotsDeclared ty i cs'.
Proof. unfold slotsDeclared. by rewrite List.filter_app, map_app. Qed.

Lemma conflictsDeclared_app a cs cs' :
  conflictsDeclared a (cs ++ cs') = conflictsDeclared a cs ++ conflictsDeclared a cs'.
Proof. unfold conflictsDeclared. by rewrite flat_map_app. Qed.

(** The three tables after the loop, started from any tables. *)
Lemma fold_indexConstraint_content cs idx :
  (∀ i, cellsOf (instructorUnavailable (fold_left indexConstraint cs idx)) i
        = cellsOf (instructorUnavailable idx) i
          ++ slotsDeclared "instructor_unavailable" i cs)
  ∧ (∀ r, cellsOf (roomUnavailable (fold_left indexConstraint cs idx)) r
          = cellsOf (roomUnavailable idx) r ++ slotsDeclared "room_unavailable" r cs)
  ∧ (∀ a, conflictsOf (fold_left indexConstraint cs idx) a
          = conflictsOf idx a ++ conflictsDeclared a cs).
Proof.
  revert idx. induction cs as [|c cs IH]; intros idx.
  { repeat split; intros; simpl; by rewrite app_nil_r. }
  destruct (IH (indexConstraint idx c)) as (Hi & Hr & Hc). simpl.
  repeat split; intros k.
  - rewrite Hi, cellsOf_indexConstraint_instructor, <- app_assoc.
    by rewrite <- slotsDeclared_app.
  - rewrite Hr, cellsOf_indexConstraint_room, <- app_assoc.
    by rewrite <- slotsDeclared_app.
  - rewrite Hc, conflictsOf_indexConstraint, <- app_assoc.
    by rewrite <- conflictsDeclared_app.
Qed.

Lemma buildIndex_content cs :
  (∀ i, cellsOf (instructorUnavailable (buildIndex cs)) i
        = slotsDeclared "instructor_unavailable" i cs)
  ∧ (∀ r, cellsOf (roomUnavailable (buildIndex cs)) r
          = slotsDeclared "room_unavailable" r cs)
  ∧ (∀ a, conflictsOf (buildIndex cs) a = conflictsDeclared a cs).
Proof.
  destruct (fold_indexConstraint_content cs emptyIndex) as (Hi & Hr & Hc).
  repeat split; intros k; unfold buildIndex;
    [rewrite (Hi k)|rewrite (Hr k)|rewrite (Hc k)]; done.
Qed.

(** X9. The tables that the constraint loop builds hold exactly what the
    records declare, in input order: under an instructor the slots of the
    [instructor_unavailable] records with that [entityId], under a room
    those of the [room_unavailable] records, and under a course the
    identifiers that the [course_conflict] records pair it with (both
    directions); an entity that no record names has the empty list. *)
Theorem constraint_tables_hold_the_records (cs : list Constraint.t) :
  (∀ i, cellsOf (instructorUnavailable (buildIndex cs)) i
        = slotsDeclared "instructor_unavailable" i cs)
  ∧ (∀ r, cellsOf (roomUnavailable (buildIndex cs)) r
          = slotsDeclared "room_unavailable" r cs)
  ∧ (∀ a, conflictsOf (buildIndex cs) a = conflictsDeclared a cs).
Proof. apply buildIndex_content. Qed.

Lemma indexConstraint_unknown idx c :
  knownType c = false → indexConstraint idx c = idx.
Proof.
  unfold knownType, indexConstraint. intros H.
  apply orb_false_iff in H as [H H3]. apply orb_false_iff in H as [H1 H2].
  apply bool_decide_eq_false in H1, H2, H3.
  by rewrite !decide_False.
Qed.

Lemma fold_indexConstraint_known cs idx :
  fold_left indexConstraint cs idx
  = fold_left indexConstraint (List.filter knownType cs) idx.
Proof.
  revert idx. induction cs as [|c cs IH]; intros idx; simpl; [done|].
  destruct (knownType c) eqn:Hk; simpl.
  - apply IH.
  - rewrite indexConstraint_unknown by done. apply IH.
Qed.

(** X11. Records whose type is none of [instructor_unavailable],
    [room_unavailable] and [course_conflict] are skipped without a trace:
    the run is the one of the input with these records removed. *)
Theorem unknown_constraint_types_are_ignored {schema : Schema} {random : RandomSource}
    (opts : TimetableGeneratorOptions) (g : Rng) :
  buildIndex (constraints opts) = buildIndex (List.filter knownType (constraints opts))
  ∧ runGenerator opts g
    = runGenerator (mkOptions (courses opts) (instructors opts) (classrooms opts)
                      (List.filter knownType (constraints opts)) (timetableId opts)) g.
Proof.
  assert (buildIndex (constraints opts)
          = buildIndex (List.filter knownType (constraints opts))) as Hidx
    by apply fold_indexConstraint_known.
  split; [done|]. unfold runGenerator. simpl. rewrite <- Hidx.
  generalize (sortedCourses (buildIndex (constraints opts)) (courses opts)).
  generalize (initialState g).
  intros st cs. revert st. induction cs as [|c cs IH]; intros st; simpl; [done|].
  unfold placeCourse. simpl.
  destruct (placeCourseIn _ _ _ _ _); simpl; [apply IH|done].
Qed.

Lemma lengthAt_default `{Countable K} {V : Type} (k : K) (m : gmap K (list V)) :
  lengthAt k m = Z.of_nat (length (default [] (m !! k))).
Proof. unfold lengthAt. by destruct (m !! k). Qed.

Lemma length_slotsDeclared ty i cs :
  length (slotsDeclared ty i cs)
  = countWhere (fun c => Constraint.type c = ty ∧ Constraint.entityId c = i) cs.
Proof. unfold slotsDeclared, countWhere. by rewrite length_map. Qed.

Lemma length_conflictsDeclared a cs :
  length (conflictsDeclared a cs)
  = (countWhere (fun c => Constraint.type c = "course_conflict"
                          ∧ Num (Constraint.entityId c) = a) cs
     + countWhere (fun c => Constraint.type c = "course_conflict"
                            ∧ parseInt (Constraint.timeSlot c) = a) cs)%nat.
Proof.
  unfold conflictsDeclared, countWhere.
  induction cs as [|c cs IH]; [done|]. cbn [flat_map List.filter].
  rewrite length_app, IH.
  destruct (decide (Constraint.type c = "course_conflict")) as [Ht|Ht].
  - destruct (decide (Num (Constraint.entityId c) = a)) as [H1|H1];
      destruct (decide (parseInt (Constraint.timeSlot c) = a)) as [H2|H2];
      [rewrite !bool_decide_eq_true_2 by done
      |rewrite bool_decide_eq_true_2, bool_decide_eq_false_2 by (by try intros [_ ?])
      |rewrite bool_decide_eq_false_2, bool_decide_eq_true_2 by (by try intros [_ ?])
      |rewrite !bool_decide_eq_false_2 by (by intros [_ ?])];
      simpl; lia.
  - rewrite !bool_decide_eq_false_2 by (by intros [? _]). simpl. lia.
Qed.

(** X12. The score by which the courses are ordered counts records: the
    [course_conflict] records that have the course as [entityId], those
    whose second identifier parses to the course's id (a record that names
    the course on both sides counts twice, a repeated record counts again),
    and the [instructor_unavailable] records of its instructor.  Room
    unavailability does not count. *)
Theorem constraint_score_counts_records (cs : list Constraint.t) (a : Course.t) :
  constraintCount (buildIndex cs) a
  = Z.of_nat
      (countWhere (fun c => Constraint.type c = "course_conflict"
                            ∧ Num (Constraint.entityId c) = Num (Course.id a)) cs
       + countWhere (fun c => Constraint.type c = "course_conflict"
                              ∧ parseInt (Constraint.timeSlot c) = Num (Course.id a)) cs
       + countWhere (fun c => Constraint.type c = "instructor_unavailable"
                              ∧ Constraint.entityId c = Course.instructorId a) cs).
Proof.
  destruct (buildIndex_content cs) as (Hi & _ & Hc).
  unfold constraintCount. rewrite !lengthAt_default.
  unfold cellsOf in Hi. unfold conflictsOf in Hc. rewrite Hi, Hc.
  rewrite length_conflictsDeclared, length_slotsDeclared. lia.
Qed.

(** ** What a returned schedule is made of *)

Section ReturnedRows.
Context {schema : Schema} {random : RandomSource}.

Lemma runGenerator_rows opts g st :
  runGenerator opts g = Some st →
  ∀ row, row ∈ scheduledClasses st →
         ∃ tid c r cell, okRun opts tid c r cell ∧ rowFor row tid c r cell.
Proof.
  intros Hrun. apply (placed_rows _ (initialState g)).
  - by apply runGenerator_placed.
  - intros row Hin. by apply elem_of_nil in Hin.
Qed.

Lemma slotsDeclared_elem ty i cs k :
  k ∈ cs → Constraint.type k = ty → Constraint.entityId k = i →
  mkSlot (Constraint.day k) (Constraint.timeSlot k) ∈ slotsDeclared ty i cs.
Proof.
  intros Hin Ht He. unfold slotsDeclared. apply list_elem_of_In, in_map_iff.
  exists k. split; [done|]. apply filter_In. split; [by apply list_elem_of_In|].
  by apply bool_decide_eq_true.
Qed.

(** X4. Every row of a returned schedule is made from the input: it has
    id 0 and the call's [timetableId], its course is one of [courses] and
    its instructor is that course's instructor, its classroom is one of
    [classrooms] and seats the course, its day is one of [weekDays] and its
    start time is the start of one of the [timeSlots] labels. *)
Theorem rows_are_made_from_the_input (opts : TimetableGeneratorOptions) (g : Rng)
    (rows : list ScheduledClass.t) :
  generateTimetable opts g = Some rows →
  ∀ row, row ∈ rows →
    ScheduledClass.id row = 0
    ∧ ScheduledClass.timetableId row = timetableId opts
    ∧ ScheduledClass.day row ∈ weekDays
    ∧ (∃ label, label ∈ timeSlots ∧ ScheduledClass.startTime row = startOf label)
    ∧ ∃ c r, c ∈ courses opts ∧ r ∈ classrooms opts
             ∧ ScheduledClass.courseId row = Course.id c
             ∧ ScheduledClass.instructorId row = Course.instructorId c
             ∧ ScheduledClass.classroomId row = Classroom.id r
             ∧ Course.capacity c ≤ Classroom.capacity r.
Proof.
  intros Hgen row Hin. unfold generateTimetable in Hgen.
  destruct (runGenerator opts g) as [st|] eqn:Hrun; simpl in Hgen; [|done].
  injection Hgen as <-.
  destruct (runGenerator_rows opts g st Hrun row Hin)
    as (tid & c & r & cell & (-> & Hc & Hr & Hcap & _ & Hday)
        & (Hid & Hcid & Hins & Hroom & Htid & Hd & Hs & i & Hi & _)).
  split; [done|]. split; [done|]. split; [by rewrite Hd|]. split.
  - exists (timeSlot cell). split; [|done]. by eapply list_elem_of_lookup_2.
  - exists c, r. by repeat split.
Qed.

(** X1. Declared unavailability is never overridden.  Every row of a
    returned schedule was booked for a cell of the grid (its day, and a
    label whose start is the row's start time) that no
    [instructor_unavailable] record declares for the row's instructor and
    no [room_unavailable] record declares for the row's classroom.  When the
    labels have pairwise different start times, this reads on the row
    itself: no such record with a label of the grid has the row's day and
    start time. *)
Theorem declared_unavailability_is_respected (opts : TimetableGeneratorOptions) (g : Rng)
    (rows : list ScheduledClass.t) :
  generateTimetable opts g = Some rows →
  (∀ row, row ∈ rows →
     ∃ cell, rowOfCell row cell
       ∧ ∀ k, k ∈ constraints opts →
              Constraint.day k = day cell → Constraint.timeSlot k = timeSlot cell →
              (Constraint.type k = "instructor_unavailable" →
               Constraint.entityId k ≠ ScheduledClass.instructorId row)
              ∧ (Constraint.type k = "room_unavailable" →
                 Constraint.entityId k ≠ ScheduledClass.classroomId row))
  ∧ ((∀ l1 l2, l1 ∈ timeSlots → l2 ∈ timeSlots → startOf l1 = startOf l2 → l1 = l2) →
     ∀ row k, row ∈ rows → k ∈ constraints opts →
       Constraint.timeSlot k ∈ timeSlots →
       Constraint.day k = ScheduledClass.day row →
       startOf (Constraint.timeSlot k) = ScheduledClass.startTime row →
       (Constraint.type k = "instructor_unavailable" →
        Constraint.entityId k ≠ ScheduledClass.instructorId row)
       ∧ (Constraint.type k = "room_unavailable" →
          Constraint.entityId k ≠ ScheduledClass.classroomId row)).
Proof.
  intros Hgen.
  assert (∀ row, row ∈ rows →
     ∃ cell, rowOfCell row cell
       ∧ ∀ k, k ∈ constraints opts →
              Constraint.day k = day cell → Constraint.timeSlot k = timeSlot cell →
              (Constraint.type k = "instructor_unavailable" →
               Constraint.entityId k ≠ ScheduledClass.instructorId row)
              ∧ (Constraint.type k = "room_unavailable" →
                 Constraint.entityId k ≠ ScheduledClass.classroomId row)) as Hcells.
  { intros row Hin. unfold generateTimetable in Hgen.
    destruct (runGenerator opts g) as [st|] eqn:Hrun; simpl in Hgen; [|done].
    injection Hgen as <-.
    destruct (runGenerator_rows opts g st Hrun row Hin)
      as (tid & c & r & cell & (_ & _ & _ & _ & [Hpi Hpr] & _)
          & (_ & _ & Hins & Hroom & _ & Hrow)).
    destruct (buildIndex_content (constraints opts)) as (Hi & Hr & _).
    rewrite Hi in Hpi. rewrite Hr in Hpr.
    exists cell. split; [done|]. intros k Hk Hd Hts.
    assert (mkSlot (Constraint.day k) (Constraint.timeSlot k) = cell) as Hcell
      by (destruct cell; simpl in *; congruence).
    split; intros Hty He.
    - apply Hpi. rewrite <- Hcell. apply slotsDeclared_elem; [done..|congruence].
    - apply Hpr. rewrite <- Hcell. apply slotsDeclared_elem; [done..|congruence]. }
  split; [exact Hcells|].
  intros Hinj row k Hin Hk Hts Hd Hs.
  destruct (Hcells row Hin) as (cell & (Hday & Hstart & i & Hi & _) & Hnone).
  apply (Hnone k Hk); [congruence|].
  apply Hinj; [done|by eapply list_elem_of_lookup_2|congruence].
Qed.

End ReturnedRows.

Lemma rows_are_made_from_the_input_witness :
  ∃ rows, generateTimetable (schema := weekGrid) (random := flipSource) sampleOptions false
          = Some rows
          ∧ ∀ row, row ∈ rows →
              ScheduledClass.id row = 0
              ∧ ScheduledClass.timetableId row = timetableId sampleOptions
              ∧ ScheduledClass.day row ∈ @weekDays weekGrid
              ∧ (∃ label, label ∈ @timeSlots weekGrid
                          ∧ ScheduledClass.startTime row = startOf label)
              ∧ ∃ c r, c ∈ courses sampleOptions ∧ r ∈ classrooms sampleOptions
                       ∧ ScheduledClass.courseId row = Course.id c
                       ∧ ScheduledClass.instructorId row = Course.instructorId c
                       ∧ ScheduledClass.classroomId row = Classroom.id r
                       ∧ Course.capacity c ≤ Classroom.capacity r.
Proof.
  destruct (generateTimetable (schema := weekGrid) (random := flipSource) sampleOptions false)
    as [rows|] eqn:Hgen; [|vm_compute in Hgen; discriminate].
  exists rows. split; [reflexivity|].
  exact (rows_are_made_from_the_input (schema := weekGrid) (random := flipSource)
           sampleOptions false rows Hgen).
Defined.

Lemma declared_unavailability_is_respected_witness :
  ∃ rows, generateTimetable (schema := weekGrid) (random := flipSource) busyOptions false
          = Some rows
    ∧ (∀ row, row ∈ rows →
         ∃ cell, rowOfCell (schema := weekGrid) row cell
           ∧ ∀ k, k ∈ constraints busyOptions →
                  Constraint.day k = day cell → Constraint.timeSlot k = timeSlot cell →
                  (Constraint.type k = "instructor_unavailable" →
                   Constraint.entityId k ≠ ScheduledClass.instructorId row)
                  ∧ (Constraint.type k = "room_unavailable" →
                     Constraint.entityId k ≠ ScheduledClass.classroomId row))
    ∧ (∀ row k, row ∈ rows → k ∈ constraints busyOptions →
         Constraint.timeSlot k ∈ @timeSlots weekGrid →
         Constraint.day k = ScheduledClass.day row →
         startOf (Constraint.timeSlot k) = ScheduledClass.startTime row →
         (Constraint.type k = "instructor_unavailable" →
          Constraint.entityId k ≠ ScheduledClass.instructorId row)
         ∧ (Constraint.type k = "room_unavailable" →
            Constraint.entityId k ≠ ScheduledClass.classroomId row)).
Proof.
  destruct (generateTimetable (schema := weekGrid) (random := flipSource) busyOptions false)
    as [rows|] eqn:Hgen; [|vm_compute in Hgen; discriminate].
  exists rows. split; [reflexivity|].
  destruct (declared_unavailability_is_respected (schema := weekGrid) (random := flipSource)
              busyOptions false rows Hgen) as [Hcells Hrows].
  split; [exact Hcells|]. apply Hrows.
  intros l1 l2 H1 H2 Heq. apply list_elem_of_In in H1, H2. simpl in H1, H2.
  destruct H1 as [<-|[<-|[<-|[<-|[]]]]]; destruct H2 as [<-|[<-|[<-|[<-|[]]]]];
    first [reflexivity | vm_compute in Heq; discriminate].
Defined.

(** ** Edge cases of a run *)

Section RunEdges.
Context {schema : Schema} {random : RandomSource}.
Implicit Types (idx : ConstraintIndex) (st : State).

(** X2. When every time-slot label has a dash, the promise resolves: for
    every input and every outcome of the shuffles a schedule is returned.
    (The only statement that can throw is the [split('-')[1].trim()] of the
    last slot of a block.) *)
Theorem resolves_when_labels_have_a_dash (opts : TimetableGeneratorOptions) (g : Rng) :
  labelsHaveEnd → ∃ rows, generateTimetable opts g = Some rows.
Proof.
  intros Hwf. destruct (runGenerator_total opts g Hwf) as [st Hst].
  exists (scheduledClasses st). unfold generateTimetable. by rewrite Hst.
Qed.

Lemma filter_none {A : Type} (f : A → bool) (l : list A) :
  (∀ x, x ∈ l → f x = false) → List.filter f l = [].
Proof.
  induction l as [|x l IH]; intros Hall; simpl; [done|].
  rewrite (Hall x) by (by left). apply IH. intros y Hy. apply Hall. by right.
Qed.

Lemma placeCourses_no_rooms idx opts cs st :
  (∀ c, c ∈ cs → suitableRooms (classrooms opts) c = []) →
  placeCourses idx opts cs st
  = Some (mkState (scheduledClasses st) (instructorAssignments st)
            (classroomAssignments st) (courseAssignments st)
            (console st ++ map (fun c => NoSuitableRooms (Course.code c)) cs) (rng st)).
Proof.
  revert st. induction cs as [|c cs IH]; intros st Hall; simpl.
  { rewrite app_nil_r. by destruct st. }
  unfold placeCourse. rewrite (Hall c) by (by left). simpl.
  rewrite IH by (intros c' Hc'; apply Hall; by right). simpl.
  by rewrite <- app_assoc.
Qed.

(** X7. When no classroom seats any course (in particular when there is
    no classroom), the run returns the empty schedule, books nothing,
    leaves the random source untouched, and logs one "No suitable rooms"
    warning per course, in the order in which the courses are processed.
    This holds on every grid, also one whose labels have no dash. *)
Theorem no_adequate_room_schedules_nothing (opts : TimetableGeneratorOptions) (g : Rng) :
  (∀ c r, c ∈ courses opts → r ∈ classrooms opts →
          Classroom.capacity r < Course.capacity c) →
  runGenerator opts g
  = Some (mkState [] ∅ ∅ ∅
            (map (fun c => NoSuitableRooms (Course.code c))
               (sortedCourses (buildIndex (constraints opts)) (courses opts))) g)
  ∧ generateTimetable opts g = Some [].
Proof.
  intros Hsmall.
  assert (runGenerator opts g
          = Some (mkState [] ∅ ∅ ∅
                    (map (fun c => NoSuitableRooms (Course.code c))
                       (sortedCourses (buildIndex (constraints opts)) (courses opts))) g))
    as Hrun.
  { unfold runGenerator. rewrite placeCourses_no_rooms; [done|].
    intros c Hc. unfold sortedCourses in Hc. rewrite sortBy_perm in Hc.
    unfold suitableRooms. rewrite filter_none; [done|].
    intros r Hr. apply Z.leb_gt. by apply Hsmall. }
  split; [exact Hrun|]. unfold generateTimetable. by rewrite Hrun.
Qed.

Lemma placeCourses_bookingsKept idx opts cs st st' :
  placeCourses idx opts cs st = Some st' → bookingsKept st st'.
Proof.
  revert st. induction cs as [|c cs IH]; intros st; simpl.
  { intros [= <-]. by repeat split. }
  destruct (placeCourse idx opts c st) as [st1|] eqn:E1; simpl; [|done].
  apply placeCourseIn_placed, placed_bookingsKept in E1 as (Hi & Hr & Hc).
  intros Hrest. destruct (IH _ Hrest) as (Hi' & Hr' & Hc').
  repeat split; intros k; etrans; eauto.
Qed.

Lemma prefix_not_elem {A : Type} (l l' : list A) (x : A) :
  l `prefix_of` l' → x ∉ l' → x ∉ l.
Proof. intros [t ->] Hn Hin. apply Hn, elem_of_app. by left. Qed.

(** X13. Bookings are never released: a slot that the availability check
    refuses for a course and a room at some point of a run is refused for
    them at every later point of the run. *)
Theorem refused_slots_stay_refused idx (opts : TimetableGeneratorOptions)
    (cs : list Course.t) st st' (course : Course.t) (slot : ClassSlot) (roomId : Z) :
  placeCourses idx opts cs st = Some st' →
  isSlotAvailable idx st course slot roomId = false →
  isSlotAvailable idx st' course slot roomId = false.
Proof.
  intros Hrun Hno. apply placeCourses_bookingsKept in Hrun as (Hi & Hr & Hc).
  destruct (isSlotAvailable idx st' course slot roomId) eqn:Hav; [|done].
  apply isSlotAvailable_feasible in Hav as (H1 & H2 & H3 & H4 & H5).
  assert (isSlotAvailable idx st course slot roomId = true) as Hyes; [|congruence].
  apply isSlotAvailable_feasible. repeat split; try done.
  - eapply prefix_not_elem; [apply Hi|done].
  - eapply prefix_not_elem; [apply Hr|done].
  - intros b Hb. eapply prefix_not_elem; [apply Hc|by apply H5].
Qed.

Lemma isSlotAvailable_free idx st course slot roomId :
  cellsOf (instructorUnavailable idx) (Course.instructorId course) = [] →
  cellsOf (roomUnavailable idx) roomId = [] →
  instructorAssignments st = ∅ → classroomAssignments st = ∅ → courseAssignments st = ∅ →
  isSlotAvailable idx st course slot roomId = true.
Proof.
  intros Hiu Hru Hi Hr Hc. apply isSlotAvailable_feasible.
  unfold feasible. rewrite Hiu, Hru. unfold cellsOf. rewrite Hi, Hr, Hc.
  rewrite !lookup_empty. simpl. repeat split; try apply not_elem_of_nil.
  intros b _. rewrite lookup_empty. apply not_elem_of_nil.
Qed.

(** X10. The course that is processed first, when neither its instructor
    nor the smallest classroom that seats it is declared unavailable
    anywhere, always gets a full contiguous block in that smallest
    classroom: on a grid with at least one day, enough slots per day and
    dashed labels, the schedule starts with [slotsNeeded] rows of the
    course, on one day, from one start position, each ending where the next
    starts. *)
Theorem first_course_gets_a_block_in_the_smallest_room
    (opts : TimetableGeneratorOptions) (g : Rng)
    (course : Course.t) (rest : list Course.t) (room : Classroom.t)
    (larger : list Classroom.t) :
  sortedCourses (buildIndex (constraints opts)) (courses opts) = course :: rest →
  suitableRooms (classrooms opts) course = room :: larger →
  slotsDeclared "instructor_unavailable" (Course.instructorId course) (constraints opts) = [] →
  slotsDeclared "room_unavailable" (Classroom.id room) (constraints opts) = [] →
  weekDays ≠ [] → (slotsNeeded course ≤ length timeSlots)%nat → labelsHaveEnd →
  ∃ d (s : nat) block later,
    generateTimetable opts g = Some (block ++ later)
    ∧ d ∈ weekDays ∧ (s + slotsNeeded course ≤ length timeSlots)%nat
    ∧ contiguousBlock d (Classroom.id room) s (slotsNeeded course) block
    ∧ Forall (fun r => ScheduledClass.courseId r = Course.id course
                       ∧ ScheduledClass.instructorId r = Course.instructorId course) block.
Proof.
  intros Hsorted Hrooms Hiu Hru Hdays Hk Hwf.
  destruct (buildIndex_content (constraints opts)) as (Hci & Hcr & _).
  set (idx := buildIndex (constraints opts)) in *.
  destruct (shuffled weekDays (initialState g)) as [shuffledDays st1] eqn:Es.
  pose proof Es as Es'. apply shuffled_inv in Es' as [Hp [g1 ->]].
  destruct shuffledDays as [|d days].
  { apply Permutation_nil_l in Hp. done. }
  destruct (tryDays_first_fit idx (timetableId opts) course room (slotsNeeded course)
              d days (setRng g1 (initialState g)) Hwf Hk) as [st2 Htry].
  { intros g2 s. unfold allAvailable. apply forallb_forall. intros j _.
    apply isSlotAvailable_free; try done; [by rewrite Hci|by rewrite Hcr]. }
  pose proof (tryDays_rows _ _ _ _ _ _ _ _ _ Htry)
    as (d' & s & block & Hd' & Hs & (Hrows & _ & Hcourse) & Hblock & Hins).
  destruct (placeCourses_total idx opts rest st2 Hwf) as [st3 Hrest].
  pose proof (placeCourses_outcomes _ _ _ _ _ Hrest) as (outs & _ & Hlater & _).
  exists d', s, block, (concat (map fst outs)).
  split; [|split; [by rewrite <- Hp|split; [done|split; [done|]]]].
  - unfold generateTimetable, runGenerator. fold idx. rewrite Hsorted.
    cbn [placeCourses]. unfold placeCourse. rewrite Hrooms.
    unfold placeCourseIn. rewrite Es. cbn [tryRooms]. rewrite Htry.
    simpl. rewrite Hrest. simpl. rewrite Hlater, Hrows. done.
  - apply Forall_forall. intros r Hr. split.
    + by apply (proj1 (Forall_forall _ _) Hcourse).
    + by apply (proj1 (Forall_forall _ _) Hins).
Qed.

End RunEdges.

Lemma resolves_when_labels_have_a_dash_witness :
  ∃ rows, generateTimetable (schema := weekGrid) (random := flipSource) busyOptions true
          = Some rows.
Proof.
  exact (resolves_when_labels_have_a_dash (schema := weekGrid) (random := flipSource)
           busyOptions true weekGrid_labelsHaveEnd).
Defined.

Lemma generated_schedule_passes_audit_witness :
  ∃ rows, generateTimetable (schema := weekGrid) (random := flipSource) sampleOptions true
          = Some rows
          ∧ checkConflicts rows = mkReport [] [] [].
Proof.
  destruct (generateTimetable (schema := weekGrid) (random := flipSource) sampleOptions true)
    as [rows|] eqn:Hgen; [|vm_compute in Hgen; discriminate].
  exists rows. split; [reflexivity|].
  apply (generated_schedule_passes_audit (schema := weekGrid) (random := flipSource)
           minutesOfDay sampleOptions true rows); [reflexivity|exact Hgen].
Defined.

Lemma no_adequate_room_schedules_nothing_witness :
  runGenerator (schema := weekGrid) (random := flipSource) noRoomOptions false
  = Some (mkState (random := flipSource) [] ∅ ∅ ∅
            (map (fun c => NoSuitableRooms (Course.code c))
               (sortedCourses (buildIndex (constraints noRoomOptions))
                  (courses noRoomOptions))) false)
  ∧ generateTimetable (schema := weekGrid) (random := flipSource) noRoomOptions false
    = Some [].
Proof.
  apply (no_adequate_room_schedules_nothing (schema := weekGrid) (random := flipSource)
           noRoomOptions false).
  intros c r Hc Hr. apply list_elem_of_In in Hc, Hr. simpl in Hc, Hr.
  destruct Hc as [<-|[]]; destruct Hr as [<-|[]]. reflexivity.
Defined.

(** ** The schedule cannot be extended *)

Section Maximal.
Context {schema : Schema} {random : RandomSource}.
Implicit Types (idx : ConstraintIndex) (st : State).

Lemma bookingsKept_refused idx st st' course slot roomId :
  bookingsKept st st' →
  isSlotAvailable idx st course slot roomId = false →
  isSlotAvailable idx st' course slot roomId = false.
Proof.
  intros (Hi & Hr & Hc) Hno.
  destruct (isSlotAvailable idx st' course slot roomId) eqn:Hav; [|done].
  apply isSlotAvailable_feasible in Hav as (H1 & H2 & H3 & H4 & H5).
  assert (isSlotAvailable idx st course slot roomId = true) as Hyes; [|congruence].
  apply isSlotAvailable_feasible. repeat split; try done.
  - eapply prefix_not_elem; [apply Hi|done].
  - eapply prefix_not_elem; [apply Hr|done].
  - intros b Hb. eapply prefix_not_elem; [apply Hc|by apply H5].
Qed.

(** A slot that was just booked for the course is no longer available to
    it, in any room. *)
Lemma commitSingle_refused idx tid course room slot st roomId :
  isSlotAvailable idx (commitSingle tid course room slot st) course slot roomId = false.
Proof.
  destruct (isSlotAvailable _ _ _ _ _) eqn:Hav; [|done].
  apply isSlotAvailable_feasible in Hav as (_ & H2 & _).
  destruct H2. unfold commitSingle. simpl. rewrite cellsOf_pushTo.
  rewrite decide_True by done. apply elem_of_app. right. by left.
Qed.

Lemma scatterSlots_exhausted idx tid course room (k : nat) slots (n n' : nat) st st' :
  (∀ slot, slot ∈ slots → slot ∈ allSlots) →
  scatterSlots idx tid course room k slots n st = (n', st') → (n' < k)%nat →
  ∀ slot, slot ∈ slots → isSlotAvailable idx st' course slot (Classroom.id room) = false.
Proof.
  revert n st. induction slots as [|slot slots IH]; intros n st Hsub; simpl.
  { intros _ _ slot Hin. by apply elem_of_nil in Hin. }
  destruct (Nat.leb_spec k n).
  { intros [= <- <-] Hlt. lia. }
  assert (∀ s, s ∈ slots → s ∈ allSlots) as Hsub' by (intros s Hs; apply Hsub; by right).
  destruct (isSlotAvailable idx st course slot (Classroom.id room)) eqn:Hav.
  - intros Hrest Hlt s Hs. apply elem_of_cons in Hs as [->|Hs]; [|by eapply IH].
    eapply bookingsKept_refused; [|apply commitSingle_refused].
    eapply placed_bookingsKept.
    by apply (scatterSlots_placed idx tid course room [room] k slots (S n) n');
      [by left|..].
  - intros Hrest Hlt s Hs. apply elem_of_cons in Hs as [->|Hs]; [|by eapply IH].
    eapply bookingsKept_refused; [|exact Hav].
    eapply placed_bookingsKept.
    by apply (scatterSlots_placed idx tid course room [room] k slots n n'); [by left|..].
Qed.

Lemma scatterRooms_exhausted idx tid course (k : nat) slots rooms (n n' : nat) st st' :
  (∀ slot, slot ∈ slots → slot ∈ allSlots) →
  scatterRooms idx tid course k slots rooms n st = (n', st') → (n' < k)%nat →
  ∀ room slot, room ∈ rooms → slot ∈ slots →
               isSlotAvailable idx st' course slot (Classroom.id room) = false.
Proof.
  intros Hsub. revert n st. induction rooms as [|room rooms IH]; intros n st; simpl.
  { intros _ _ room slot Hin. by apply elem_of_nil in Hin. }
  destruct (Nat.leb_spec k n).
  { intros [= <- <-] Hlt. lia. }
  destruct (scatterSlots idx tid course room k slots n st) as [n1 st1] eqn:E1.
  intros Hrest Hlt r s Hr Hs. apply elem_of_cons in Hr as [->|Hr]; [|by eapply IH].
  pose proof (scatterRooms_rows _ _ _ _ _ _ _ _ _ _ Hrest) as (rows & _ & Hn & _).
  eapply bookingsKept_refused.
  - eapply placed_bookingsKept.
    by apply (scatterRooms_placed idx tid course rooms k slots rooms n1 n').
  - eapply scatterSlots_exhausted; [exact Hsub|exact E1|lia|exact Hs].
Qed.

(** A turn of the course loop that leaves the course short of rows leaves
    no cell of the grid available to it in any of its rooms. *)
Lemma placeCourseIn_exhausted idx tid rooms course st st' :
  placeCourseIn idx tid rooms course st = Some st' →
  (length (scheduledClasses st') < length (scheduledClasses st) + slotsNeeded course)%nat →
  ∀ room slot, room ∈ rooms → slot ∈ allSlots →
               isSlotAvailable idx st' course slot (Classroom.id room) = false.
Proof.
  unfold placeCourseIn. destruct rooms as [|room0 rooms'] eqn:Hrooms.
  { intros _ _ room slot Hin. by apply elem_of_nil in Hin. }
  rewrite <- Hrooms. clear Hrooms.
  destruct (shuffled weekDays st) as [shuffledDays st1] eqn:Es.
  apply shuffled_inv in Es as [_ [g ->]].
  destruct (tryRooms _ _ _ _ _ _ _) as [[assigned st2]|] eqn:Er; simpl; [|done].
  apply tryRooms_rows in Er. destruct assigned; intros [= <-].
  { destruct Er as (r & d & s & rows & _ & _ & _ & (Hrows & _) & (Hlen & _) & _).
    rewrite Hrows, length_app, Hlen. simpl. lia. }
  destruct Er as (Hrows & _). simpl in Hrows. rewrite app_nil_r in Hrows.
  unfold scatter.
  destruct (shuffled allSlots st2) as [shuffledSlots st3] eqn:Es.
  apply shuffled_inv in Es as [Hp [g' ->]].
  destruct (scatterRooms _ _ _ _ _ _ _ _) as [n st4] eqn:Esc.
  pose proof (scatterRooms_rows _ _ _ _ _ _ _ _ _ _ Esc) as (rows & (Hrows' & _) & Hn & _).
  assert (scheduledClasses (if (n <? slotsNeeded course)%nat
                            then warn (CouldOnlyAssign n (slotsNeeded course)
                                         (Course.code course)) st4
                            else st4) = scheduledClasses st4) as Hsame
    by (by destruct (n <? slotsNeeded course)%nat).
  rewrite Hsame, Hrows', length_app. simpl. rewrite Hrows. intros Hlt.
  assert (n < slotsNeeded course)%nat as Hshort by lia.
  rewrite (proj2 (Nat.ltb_lt _ _) Hshort).
  intros room slot Hroom Hslot.
  assert (isSlotAvailable idx st4 course slot (Classroom.id room) = false) as Hno.
  { eapply scatterRooms_exhausted; [|exact Esc|exact Hshort|exact Hroom|].
    - intros s Hs. by rewrite <- Hp.
    - by rewrite Hp. }
  exact Hno.
Qed.

Lemma placeCourses_app idx opts cs1 cs2 st st' :
  placeCourses idx opts (cs1 ++ cs2) st = Some st' →
  ∃ st1, placeCourses idx opts cs1 st = Some st1
         ∧ placeCourses idx opts cs2 st1 = Some st'.
Proof.
  revert st. induction cs1 as [|c cs1 IH]; intros st; simpl.
  { intros H. by exists st. }
  destruct (placeCourse idx opts c st) as [st1|]; simpl; [apply IH|done].
Qed.

(** X14. The returned schedule cannot be extended for a course that is
    short of rows: when fewer than [slotsNeeded] rows carry the id of an
    input course, then in the final state of the run the availability check
    refuses every cell of the grid for that course in every classroom that
    seats it. *)
Theorem short_course_has_no_free_slot (opts : TimetableGeneratorOptions) (g : Rng)
    (st : State) (course : Course.t) (room : Classroom.t) (slot : ClassSlot) :
  runGenerator opts g = Some st →
  course ∈ courses opts →
  (length (rowsOfCourse (Course.id course) (scheduledClasses st))
   < slotsNeeded course)%nat →
  room ∈ classrooms opts → Course.capacity course ≤ Classroom.capacity room →
  slot ∈ allSlots →
  isSlotAvailable (buildIndex (constraints opts)) st course slot (Classroom.id room) = false.
Proof.
  intros Hrun Hc Hshort Hroom Hcap Hslot. unfold runGenerator in Hrun.
  set (idx := buildIndex (constraints opts)) in *.
  assert (course ∈ sortedCourses idx (courses opts)) as Hin
    by (unfold sortedCourses; by rewrite sortBy_perm).
  apply list_elem_of_split in Hin as (pre & post & Hsplit). rewrite Hsplit in Hrun.
  apply placeCourses_app in Hrun as (st1 & _ & Hrun).
  cbn [placeCourses] in Hrun.
  destruct (placeCourse idx opts course st1) as [st2|] eqn:Hturn; simpl in Hrun; [|done].
  pose proof (placeCourseIn_outcome _ _ _ _ _ _ Hturn) as (rows & ws & Hrows & _ & Hall & _).
  pose proof (placeCourses_outcomes _ _ _ _ _ Hrun) as (outs & _ & Hlater & _).
  eapply bookingsKept_refused; [by eapply placeCourses_bookingsKept|].
  eapply placeCourseIn_exhausted; [exact Hturn| |by apply suitableRooms_elem|exact Hslot].
  rewrite Hlater, Hrows, !rowsOfCourse_app, !length_app in Hshort.
  rewrite (rowsOfCourse_same _ rows Hall) in Hshort.
  rewrite Hrows, length_app. lia.
Qed.

End Maximal.

(** ** The two sorts *)

Lemma sortBy_ext {A : Type} (cmp cmp' : A → A → Z) (l : list A) :
  (∀ a b, cmp a b = cmp' a b) → sortBy cmp l = sortBy cmp' l.
Proof.
  intros Hext. unfold sortBy. induction l as [|x l IH]; simpl; [done|].
  rewrite IH. generalize (foldr (insertSorted cmp') [] l). intros s.
  induction s as [|y s IHs]; simpl; [done|]. by rewrite Hext, IHs.
Qed.

Section SortByKey.
Context {A : Type} (key : A → Z).

Lemma ascending_cons x l :
  ascending key (x :: l) ↔ (∀ y, y ∈ l → key x ≤ key y) ∧ ascending key l.
Proof.
  split.
  - intros Hasc. split.
    + intros y Hy. apply list_elem_of_lookup in Hy as [j Hj].
      apply (Hasc 0%nat (S j) x y); [lia|done..].
    + intros i j a b Hij Hi Hj. apply (Hasc (S i) (S j) a b); [lia|done..].
  - intros [Hx Hasc] i j a b Hij Hi Hj. destruct j as [|j]; [lia|]. simpl in Hj.
    destruct i as [|i]; simpl in Hi.
    + injection Hi as <-. apply Hx. by eapply list_elem_of_lookup_2.
    + apply (Hasc i j a b); [lia|done..].
Qed.

Lemma insertSorted_ascending x l :
  ascending key l → ascending key (insertSorted (byKey key) x l).
Proof.
  induction l as [|y l IH]; intros Hasc; simpl.
  { intros i j a b Hij Hi Hj. destruct i, j; simpl in *; try lia; done. }
  apply ascending_cons in Hasc as [Hy Hasc].
  unfold byKey at 1. destruct (Z.leb_spec (key x - key y) 0) as [Hle|Hgt].
  - apply ascending_cons. split.
    + intros z Hz. apply elem_of_cons in Hz as [->|Hz]; [lia|].
      specialize (Hy z Hz). lia.
    + by apply ascending_cons.
  - apply ascending_cons. split; [|by apply IH].
    intros z Hz. rewrite insertSorted_perm in Hz.
    apply elem_of_cons in Hz as [->|Hz]; [lia|by apply Hy].
Qed.

Lemma sortBy_ascending l : ascending key (sortBy (byKey key) l).
Proof.
  induction l as [|x l IH]; simpl.
  { intros i j a b _ Hi. done. }
  by apply insertSorted_ascending.
Qed.

(** Elements of one key keep their order. *)
Lemma insertSorted_stable (v : Z) x l :
  List.filter (fun a => bool_decide (key a = v)) (insertSorted (byKey key) x l)
  = List.filter (fun a => bool_decide (key a = v)) (x :: l).
Proof.
  induction l as [|y l IH]; [done|]. cbn [insertSorted].
  unfold byKey at 1. destruct (Z.leb_spec (key x - key y) 0) as [Hle|Hgt]; [done|].
  cbn [List.filter] in *. rewrite IH.
  destruct (decide (key y = v)) as [Hy|Hy].
  - rewrite (bool_decide_eq_true_2 _ Hy).
    rewrite (bool_decide_eq_false_2 (key x = v)) by lia. done.
  - by rewrite (bool_decide_eq_false_2 _ Hy).
Qed.

Lemma sortBy_stable (v : Z) l :
  List.filter (fun a => bool_decide (key a = v)) (sortBy (byKey key) l)
  = List.filter (fun a => bool_decide (key a = v)) l.
Proof.
  induction l as [|x l IH]; [done|].
  change (sortBy (byKey key) (x :: l)) with (insertSorted (byKey key) x (sortBy (byKey key) l)).
  rewrite insertSorted_stable. cbn [List.filter]. by rewrite IH.
Qed.

End SortByKey.

(** X5. The candidate rooms of a course are exactly the classrooms that
    seat it, each as often as it is listed, in ascending order of capacity;
    rooms of equal capacity keep the order of the input. *)
Theorem suitable_rooms_are_adequate_and_ascending (rooms : list Classroom.t)
    (course : Course.t) :
  (∀ r, r ∈ suitableRooms rooms course
        ↔ r ∈ rooms ∧ Course.capacity course ≤ Classroom.capacity r)
  ∧ suitableRooms rooms course
    ≡ₚ List.filter (fun r => Course.capacity course <=? Classroom.capacity r) rooms
  ∧ (∀ (i j : nat) a b, (i < j)%nat →
       suitableRooms rooms course !! i = Some a →
       suitableRooms rooms course !! j = Some b →
       Classroom.capacity a ≤ Classroom.capacity b)
  ∧ (∀ v, List.filter (fun r => bool_decide (Classroom.capacity r = v))
            (suitableRooms rooms course)
          = List.filter (fun r => bool_decide (Classroom.capacity r = v))
              (List.filter (fun r => Course.capacity course <=? Classroom.capacity r)
                 rooms)).
Proof.
  split; [apply suitableRooms_elem|]. split; [apply sortBy_perm|]. split.
  - apply (sortBy_ascending Classroom.capacity).
  - intros v. apply (sortBy_stable Classroom.capacity).
Qed.

(** X6. The courses are processed most constrained first: the processing
    order is a rearrangement of the input in descending order of the
    constraint score; courses of equal score keep the order of the input. *)
Theorem courses_are_processed_most_constrained_first (idx : ConstraintIndex)
    (cs : list Course.t) :
  sortedCourses idx cs ≡ₚ cs
  ∧ (∀ (i j : nat) a b, (i < j)%nat →
       sortedCourses idx cs !! i = Some a → sortedCourses idx cs !! j = Some b →
       constraintCount idx b ≤ constraintCount idx a)
  ∧ (∀ v, List.filter (fun c => bool_decide (constraintCount idx c = v))
            (sortedCourses idx cs)
          = List.filter (fun c => bool_decide (constraintCount idx c = v)) cs).
Proof.
  split; [apply sortBy_perm|].
  assert (sortedCourses idx cs = sortBy (byKey (fun c => - constraintCount idx c)) cs)
    as -> by (apply sortBy_ext; intros a b; unfold byKey; lia).
  split.
  - intros i j a b Hij Hi Hj.
    pose proof (sortBy_ascending (fun c => - constraintCount idx c) cs i j a b Hij Hi Hj).
    simpl in *. lia.
  - intros v.
    pose proof (sortBy_stable (fun c => - constraintCount idx c) (- v) cs) as Hst.
    assert (∀ l, List.filter (fun c => bool_decide (constraintCount idx c = v)) l
                 = List.filter (fun c => bool_decide (- constraintCount idx c = - v)) l)
      as Hf by (intros l; apply filter_ext; intros c; apply bool_decide_ext; lia).
    rewrite !Hf. exact Hst.
Qed.

(** ** How much the auditor reports *)

Section AuditCount.
Context {C : Type} `{!EqDecision C} (who : ScheduledClass.t → Z)
  (mk : Z → list ScheduledClass.t → C).
Hypothesis mk_inj : ∀ i l i' l', mk i l = mk i' l' → i = i' ∧ l = l'.

Lemma audit_nil_iff rows :
  audit who mk rows = [] ↔ NoDup (map (filingOf who) rows).
Proof.
  split.
  - intros Hnil. apply NoDup_alt. intros p q f Hp Hq.
    destruct (decide (p = q)) as [|Hpq]; [done|]. exfalso.
    change (map (filingOf who) rows) with (filingOf who <$> rows) in Hp, Hq.
    rewrite list_lookup_fmap in Hp, Hq.
    destruct (rows !! p) as [r1|] eqn:Hr1; [|done].
    destruct (rows !! q) as [r2|] eqn:Hr2; [|done].
    simpl in Hp, Hq. rewrite <- Hq in Hp. injection Hp as Hw Hk.
    destruct (audit_complete who mk rows p q r1 r2 Hpq Hr1 Hr2 Hw Hk) as [Hin _].
    rewrite Hnil in Hin. by apply elem_of_nil in Hin.
  - intros Hnd. destruct (audit who mk rows) as [|c l] eqn:Ha; [done|]. exfalso.
    assert (c ∈ audit who mk rows) as Hc by (rewrite Ha; by left).
    apply audit_reports in Hc as (r0 & _ & _ & Hlen).
    apply filter_two in Hlen as (p & q & x & y & Hpq & Hp & Hq & Hx & Hy).
    apply bool_decide_eq_true in Hx as [Hwx Hkx], Hy as [Hwy Hky].
    apply Hpq. apply (proj1 (NoDup_alt _) Hnd p q (filingOf who x)).
    + change (map (filingOf who) rows) with (filingOf who <$> rows).
      by rewrite list_lookup_fmap, Hp.
    + change (map (filingOf who) rows) with (filingOf who <$> rows).
      rewrite list_lookup_fmap, Hq. simpl. unfold filingOf. congruence.
Qed.

Lemma filedUnder_snoc rows sc i key :
  filedUnder who i key (rows ++ [sc])
  = filedUnder who i key rows
    ++ (if bool_decide (who sc = i ∧ slotKey sc = key) then [sc] else []).
Proof. unfold filedUnder. by rewrite filter_snoc. Qed.

(** A reference is pushed once for every row that joins its array after
    the first. *)
Lemma pushed_count rows i key :
  length (List.filter (fun ref => bool_decide (ref = (i, key)))
            (pushed (fold_left (auditRow who) rows (mkAudit ∅ []))))
  = (length (filedUnder who i key rows) - 1)%nat.
Proof.
  induction rows as [|sc rows IH] using rev_ind; [done|].
  rewrite fold_left_app. cbn [fold_left].
  destruct (audit_loop who rows) as [Hgroups _].
  set (a := fold_left (auditRow who) rows (mkAudit ∅ [])) in *.
  rewrite pushed_auditRow, Hgroups, filedUnder_snoc, !length_app.
  cbn [length]. rewrite Nat.add_1_r.
  destruct (decide (who sc = i ∧ slotKey sc = key)) as [[Hw Hk]|Hne].
  - rewrite bool_decide_eq_true_2 by done. subst i key. cbn [length].
    destruct (filedUnder who (who sc) (slotKey sc) rows) as [|r rest] eqn:Hf.
    + simpl in *. lia.
    + cbn [length Nat.ltb Nat.leb].
      rewrite filter_snoc, length_app, IH.
      rewrite bool_decide_eq_true_2 by done. simpl. lia.
  - rewrite bool_decide_eq_false_2 by done. cbn [length]. rewrite Nat.add_0_r.
    destruct (1 <? _)%nat; [|done].
    rewrite filter_snoc, bool_decide_eq_false_2, app_nil_r; [done|].
    intros [= Hw Hk]. by apply Hne.
Qed.

Lemma filter_map_count {X : Type} `{!EqDecision X} (f : X → C) (c0 : C) (x0 : X)
    (l : list X) :
  (∀ x, f x = c0 ↔ x = x0) →
  length (List.filter (fun c => bool_decide (c = c0)) (map f l))
  = length (List.filter (fun x => bool_decide (x = x0)) l).
Proof.
  intros Hiff. induction l as [|x l IH]; [done|]. simpl.
  rewrite (bool_decide_ext (f x = c0) (x = x0)) by apply Hiff.
  destruct (bool_decide (x = x0)); simpl; by rewrite IH.
Qed.

(** The conflict of a row's array is reported once for every row of the
    array after the first. *)
Lemma audit_count rows r0 :
  r0 ∈ rows →
  length (List.filter
            (fun c => bool_decide
                        (c = mk (who r0) (filedUnder who (who r0) (slotKey r0) rows)))
            (audit who mk rows))
  = (length (filedUnder who (who r0) (slotKey r0) rows) - 1)%nat.
Proof.
  intros Hin. unfold audit. destruct (audit_loop who rows) as [Hgroups _].
  set (a := fold_left (auditRow who) rows (mkAudit ∅ [])) in *.
  rewrite (filter_map_count _ _ (who r0, slotKey r0)); [apply pushed_count|].
  intros [i key]. simpl. rewrite Hgroups. split.
  - intros Heq. apply mk_inj in Heq as [-> Hl].
    assert (r0 ∈ filedUnder who (who r0) key rows) as Hr0.
    { rewrite Hl. apply list_elem_of_In, filter_In.
      split; [by apply list_elem_of_In|]. by apply bool_decide_eq_true. }
    apply list_elem_of_In, filter_In in Hr0 as [_ Hk].
    apply bool_decide_eq_true in Hk as [_ <-]. done.
  - by intros [= -> ->].
Qed.

End AuditCount.

(** X16. The auditor reports nothing about instructors exactly when no two
    rows share an instructor and a key [day-startTime-endTime], and nothing
    about classrooms exactly when no two rows share a classroom and a key;
    it never reports a student conflict. *)
Theorem audit_is_clean_iff_no_shared_key (rows : list ScheduledClass.t) :
  (instructorConflicts (checkConflicts rows) = []
   ↔ NoDup (map (filingOf ScheduledClass.instructorId) rows))
  ∧ (classroomConflicts (checkConflicts rows) = []
     ↔ NoDup (map (filingOf ScheduledClass.classroomId) rows))
  ∧ studentConflicts (checkConflicts rows) = [].
Proof.
  split; [apply audit_nil_iff|]. split; [apply audit_nil_iff|done].
Qed.

(** X8. A group of [n] rows that share an instructor (a classroom) and a
    key is reported [n - 1] times: the conflict that holds the group of a
    row occurs in the report once for every row of the group after the
    first. *)
Theorem group_is_reported_once_per_extra_row (rows : list ScheduledClass.t)
    (r0 : ScheduledClass.t) :
  r0 ∈ rows →
  length (List.filter
            (fun c => bool_decide
               (c = InstructorConflict.mk (ScheduledClass.instructorId r0)
                      (filedUnder ScheduledClass.instructorId
                         (ScheduledClass.instructorId r0) (slotKey r0) rows)))
            (instructorConflicts (checkConflicts rows)))
  = (length (filedUnder ScheduledClass.instructorId
               (ScheduledClass.instructorId r0) (slotKey r0) rows) - 1)%nat
  ∧ length (List.filter
              (fun c => bool_decide
                 (c = ClassroomConflict.mk (ScheduledClass.classroomId r0)
                        (filedUnder ScheduledClass.classroomId
                           (ScheduledClass.classroomId r0) (slotKey r0) rows)))
              (classroomConflicts (checkConflicts rows)))
    = (length (filedUnder ScheduledClass.classroomId
                 (ScheduledClass.classroomId r0) (slotKey r0) rows) - 1)%nat.
Proof.
  intros Hin. split; apply audit_count; try done.
  - by intros i l i' l' [= -> ->].
  - by intros i l i' l' [= -> ->].
Qed.

(** ** The run, course by course *)

(** X15. A run is the sequence of its turns: the schedule lists the rows
    course by course in processing order, and the console the warnings in
    the same order, where the turn of a course gives rows of that course
    only and either all [slotsNeeded] rows and no warning, or fewer rows
    and exactly one warning ("No suitable rooms" and no row when no
    classroom seats it). *)
Theorem run_is_the_sequence_of_its_turns {schema : Schema} {random : RandomSource}
    (opts : TimetableGeneratorOptions) (g : Rng) (st : State) :
  runGenerator opts g = Some st →
  ∃ outs : list (list ScheduledClass.t * list Warning),
    Forall2 (fun c o => courseOutcome (suitableRooms (classrooms opts) c) c o.1 o.2)
            (sortedCourses (buildIndex (constraints opts)) (courses opts)) outs
    ∧ scheduledClasses st = concat (map fst outs)
    ∧ console st = concat (map snd outs).
Proof.
  intros Hrun. unfold runGenerator in Hrun.
  apply placeCourses_outcomes in Hrun as (outs & Houts & Hrows & Hcon).
  exists outs. by repeat split.
Qed.

Lemma run_is_the_sequence_of_its_turns_witness :
  ∃ st outs,
    runGenerator (schema := weekGrid) (random := flipSource) sampleOptions false = Some st
    ∧ Forall2 (fun c o => courseOutcome (suitableRooms (classrooms sampleOptions) c) c o.1 o.2)
              (sortedCourses (buildIndex (constraints sampleOptions)) (courses sampleOptions))
              outs
    ∧ scheduledClasses st = concat (map fst outs)
    ∧ console st = concat (map snd outs).
Proof.
  destruct (runGenerator (schema := weekGrid) (random := flipSource) sampleOptions false)
    as [st|] eqn:Hrun; [|vm_compute in Hrun; discriminate].
  destruct (run_is_the_sequence_of_its_turns (schema := weekGrid) (random := flipSource)
              sampleOptions false st Hrun) as (outs & Houts).
  exists st, outs. split; [reflexivity|exact Houts].
Defined.

Lemma refused_slots_stay_refused_witness :
  ∃ st st',
    placeCourses (schema := weekGrid) (random := flipSource)
      (buildIndex (constraints sampleOptions)) sampleOptions [cs101]
      (initialState (random := flipSource) false)
    = Some st
    ∧ placeCourses (schema := weekGrid) (random := flipSource)
        (buildIndex (constraints sampleOptions)) sampleOptions [cs102] st = Some st'
    ∧ isSlotAvailable (buildIndex (constraints sampleOptions)) st cs102 mondayEleven 10 = false
    ∧ isSlotAvailable (buildIndex (constraints sampleOptions)) st' cs102 mondayEleven 10 = false.
Proof.
  destruct (placeCourses_total (schema := weekGrid) (random := flipSource)
              (buildIndex (constraints sampleOptions)) sampleOptions [cs101]
              (initialState (random := flipSource) false) weekGrid_labelsHaveEnd) as [st H1].
  destruct (placeCourses_total (schema := weekGrid) (random := flipSource)
              (buildIndex (constraints sampleOptions)) sampleOptions [cs102]
              st weekGrid_labelsHaveEnd) as [st' H2].
  exists st, st'. split; [exact H1|]. split; [exact H2|].
  assert (isSlotAvailable (random := flipSource)
            (buildIndex (constraints sampleOptions)) st cs102 mondayEleven 10 = false) as Hno.
  { pose proof H1 as H1'. vm_compute in H1'. injection H1' as H1'.
    rewrite <- H1'. vm_compute. reflexivity. }
  split; [exact Hno|].
  exact (refused_slots_stay_refused (schema := weekGrid) (random := flipSource)
           _ sampleOptions [cs102] st st' cs102 mondayEleven 10 H2 Hno).
Defined.

Lemma first_course_gets_a_block_in_the_smallest_room_witness :
  ∃ d (s : nat) block later,
    generateTimetable (schema := weekGrid) (random := flipSource) twoRoomOptions false
    = Some (block ++ later)
    ∧ d ∈ @weekDays weekGrid ∧ (s + slotsNeeded cs101 ≤ length (@timeSlots weekGrid))%nat
    ∧ contiguousBlock (schema := weekGrid) d (Classroom.id roomA) s (slotsNeeded cs101) block
    ∧ Forall (fun r => ScheduledClass.courseId r = Course.id cs101
                       ∧ ScheduledClass.instructorId r = Course.instructorId cs101) block.
Proof.
  apply (first_course_gets_a_block_in_the_smallest_room
           (schema := weekGrid) (random := flipSource)
           twoRoomOptions false cs101 [cs102] roomA [Classroom.mk 12 80]).
  - reflexivity.
  - reflexivity.
  - reflexivity.
  - reflexivity.
  - intros H. vm_compute in H. discriminate.
  - vm_compute. lia.
  - exact weekGrid_labelsHaveEnd.
Defined.

Lemma short_course_has_no_free_slot_witness :
  ∃ st, runGenerator (schema := oneDayGrid) (random := flipSource) shortOptions false
        = Some st
        ∧ isSlotAvailable (buildIndex (constraints shortOptions)) st cs102 mondayNine 10
          = false.
Proof.
  destruct (runGenerator (schema := oneDayGrid) (random := flipSource) shortOptions false)
    as [st|] eqn:Hrun; [|vm_compute in Hrun; discriminate].
  exists st. split; [reflexivity|].
  apply (short_course_has_no_free_slot (schema := oneDayGrid) (random := flipSource)
           shortOptions false st cs102 roomA mondayNine Hrun).
  - by left.
  - pose proof Hrun as Hrun'. vm_compute in Hrun'. injection Hrun' as Hrun'.
    rewrite <- Hrun'. apply Nat.ltb_lt. vm_compute. reflexivity.
  - by left.
  - vm_compute. discriminate.
  - apply list_elem_of_In. left. reflexivity.
Defined.

Lemma group_is_reported_once_per_extra_row_witness :
  length (List.filter
            (fun c => bool_decide
               (c = InstructorConflict.mk 7
                      [mondayNineRoomA; mondayNineRoomB; mondayNineRoomA]))
            (instructorConflicts
               (checkConflicts [mondayNineRoomA; mondayNineRoomB; mondayNineRoomA])))
  = 2%nat
  ∧ length (List.filter
              (fun c => bool_decide
                 (c = ClassroomConflict.mk 10 [mondayNineRoomA; mondayNineRoomA]))
              (classroomConflicts
                 (checkConflicts [mondayNineRoomA; mondayNineRoomB; mondayNineRoomA])))
    = 1%nat.
Proof.
  apply (group_is_reported_once_per_extra_row
           [mondayNineRoomA; mondayNineRoomB; mondayNineRoomA] mondayNineRoomA).
  by left.
Defined.

(** ** Courses in conflict never share a cell *)

Section ExclusionTrace.
Context {schema : Schema} {random : RandomSource}.
Implicit Types (idx : ConstraintIndex) (st : State) (course : Course.t)
  (room : Classroom.t) (cell slot : ClassSlot).

Lemma feasible_clear idx st course roomId cell :
  feasible idx st course roomId cell → clearOfConflicts idx st course cell.
Proof. intros (_ & _ & _ & _ & Hfree) b Hb _. by apply Hfree. Qed.

(** Booking a cell for a course leaves the cells of the other courses
    alone. *)
Lemma clearOfConflicts_commit idx st tid course room cell s e cell' :
  clearOfConflicts idx st course cell' →
  clearOfConflicts idx (emit tid course room cell s e (assign course room cell st))
    course cell'.
Proof.
  intros Hclear b Hb Hne. simpl. rewrite cellsOf_pushTo.
  rewrite decide_False by done. rewrite app_nil_r. by apply Hclear.
Qed.

Lemma commitBlockFrom_booked idx tid course room d (s k : nat) (js : list nat) st st' :
  (s + k ≤ length timeSlots)%nat →
  (∀ j, j ∈ js → (j < k)%nat ∧ clearOfConflicts idx st course (blockSlot d s j)) →
  commitBlockFrom tid course room d s k js st = Some st' →
  rtc (booked idx) st st'.
Proof.
  intros Hk. revert st.
  induction js as [|j js IH]; intros st Hall; simpl.
  { by intros [= <-]. }
  unfold commitBlockSlot. simpl.
  destruct (Hall j) as [Hjk Hp]; [by left|].
  destruct (if (j =? k - 1)%nat then _ else _) as [e|] eqn:He; simpl; [|done].
  intros Hrest. eapply rtc_l.
  - apply (booked_cell idx st tid course room (blockSlot d s j)
             (startOf (slotLabel (s + j))) (Some e)); [exact Hp|].
    repeat split; simpl. exists (s + j)%nat.
    split; [apply slotLabel_lookup; lia|].
    destruct (Nat.eqb_spec j (k - 1)) as [Hlast|Hlast].
    + left. by rewrite He.
    + right. injection He as <-. exists (slotLabel (s + j + 1)). split; [|done].
      replace (S (s + j)) with (s + j + 1)%nat by lia.
      apply slotLabel_lookup. lia.
  - apply IH; [|exact Hrest]. intros j' Hj'.
    destruct (Hall j') as [Hlt Hclear]; [by right|]. split; [done|].
    by apply clearOfConflicts_commit.
Qed.

Lemma tryDays_booked idx tid course room (k : nat) days st b st' :
  tryDays idx tid course room k days st = Some (b, st') → rtc (booked idx) st st'.
Proof.
  revert st. induction days as [|d days IH]; intros st; simpl.
  { by intros [= <- <-]. }
  destruct (shuffled (seq 0 (length timeSlots + 1 - k)) st) as [slotIndices st1] eqn:Es.
  apply shuffled_inv in Es as [Hp [g ->]].
  destruct (find _ slotIndices) as [startIdx|] eqn:Ef.
  - apply find_some in Ef as [Hin Hall].
    destruct (commitBlock _ _ _ _ _ _ _) as [st2|] eqn:Ec; simpl; [|done].
    intros [= <- <-].
    eapply rtc_l; [apply booked_rng|].
    eapply commitBlockFrom_booked; [| |exact Ec].
    + eapply slotIndices_in_range; [exact Hp|by apply list_elem_of_In].
    + intros j Hj. apply elem_of_seq in Hj. split; [lia|].
      eapply feasible_clear, allAvailable_feasible; [exact Hall|lia].
  - intros Hrest. eapply rtc_l; [apply booked_rng|]. by apply IH.
Qed.

Lemma tryRooms_booked idx tid course (k : nat) days rooms st b st' :
  tryRooms idx tid course k days rooms st = Some (b, st') → rtc (booked idx) st st'.
Proof.
  revert st. induction rooms as [|room rooms IH]; intros st; simpl.
  { by intros [= <- <-]. }
  destruct (tryDays idx tid course room k days st) as [[assigned st1]|] eqn:Ed;
    simpl; [|done].
  apply tryDays_booked in Ed. destruct assigned.
  - by intros [= <- <-].
  - intros Hrest. etrans; [exact Ed|]. by apply IH.
Qed.

Lemma scatterSlots_booked idx tid course room (k : nat) slots (n n' : nat) st st' :
  (∀ slot, slot ∈ slots → slot ∈ allSlots) →
  scatterSlots idx tid course room k slots n st = (n', st') → rtc (booked idx) st st'.
Proof.
  revert n st. induction slots as [|slot slots IH]; intros n st Hsub; simpl.
  { by intros [= <- <-]. }
  destruct (k <=? n)%nat; [by intros [= <- <-]|].
  assert (∀ s, s ∈ slots → s ∈ allSlots) as Hsub' by (intros s Hs; apply Hsub; by right).
  destruct (isSlotAvailable idx st course slot (Classroom.id room)) eqn:Hav.
  - intros Hrest. eapply rtc_l; [|by eapply IH].
    apply (booked_cell idx st tid course room slot (startOf (timeSlot slot))
             (endOf (timeSlot slot))).
    + by apply isSlotAvailable_feasible, feasible_clear in Hav.
    + repeat split; simpl.
      destruct (allSlots_label slot) as [i Hi]; [apply Hsub; by left|].
      exists i. split; [done|by left].
  - by apply IH.
Qed.

Lemma scatterRooms_booked idx tid course (k : nat) slots rooms (n n' : nat) st st' :
  (∀ slot, slot ∈ slots → slot ∈ allSlots) →
  scatterRooms idx tid course k slots rooms n st = (n', st') → rtc (booked idx) st st'.
Proof.
  intros Hslots. revert n st.
  induction rooms as [|room rooms IH]; intros n st; simpl.
  { by intros [= <- <-]. }
  destruct (k <=? n)%nat; [by intros [= <- <-]|].
  destruct (scatterSlots idx tid course room k slots n st) as [n1 st1] eqn:E1.
  apply scatterSlots_booked in E1; [|done].
  intros Hrest. etrans; [exact E1|]. by eapply IH.
Qed.

Lemma placeCourseIn_booked idx tid rooms course st st' :
  placeCourseIn idx tid rooms course st = Some st' → rtc (booked idx) st st'.
Proof.
  unfold placeCourseIn. destruct rooms as [|room rooms'] eqn:Hrooms.
  { intros [= <-]. apply rtc_once, booked_warn. }
  rewrite <- Hrooms. clear Hrooms.
  destruct (shuffled weekDays st) as [shuffledDays st1] eqn:Es.
  apply shuffled_inv in Es as [_ [g ->]].
  destruct (tryRooms _ _ _ _ _ _ _) as [[assigned st2]|] eqn:Er; simpl; [|done].
  apply tryRooms_booked in Er.
  intros Hres. eapply rtc_l; [apply booked_rng|]. etrans; [exact Er|].
  destruct assigned; injection Hres as <-; [done|].
  unfold scatter.
  destruct (shuffled allSlots st2) as [shuffledSlots st3] eqn:Es.
  apply shuffled_inv in Es as [Hp' [g' ->]].
  destruct (scatterRooms _ _ _ _ _ _ _ _) as [n st4] eqn:Esc.
  apply scatterRooms_booked in Esc; [|by intros slot Hs; rewrite <- Hp'].
  eapply rtc_l; [apply booked_rng|]. etrans; [exact Esc|].
  destruct (n <? slotsNeeded course)%nat; [|done]. apply rtc_once, booked_warn.
Qed.

Lemma placeCourses_booked idx opts cs st st' :
  placeCourses idx opts cs st = Some st' → rtc (booked idx) st st'.
Proof.
  revert st. induction cs as [|course cs IH]; intros st; simpl.
  { by intros [= <-]. }
  destruct (placeCourse idx opts course st) as [st1|] eqn:E1; simpl; [|done].
  apply placeCourseIn_booked in E1.
  intros Hrest. etrans; [exact E1|]. by apply IH.
Qed.

Lemma exclusiveBookings_initial idx g : exclusiveBookings idx (initialState g) [].
Proof. repeat split; try done. Qed.

Lemma exclusiveBookings_step idx st st' cells :
  booked idx st st' → exclusiveBookings idx st cells →
  ∃ cells', exclusiveBookings idx st' cells'.
Proof.
  intros Hstep (Hrows & Hheld & Hexcl).
  destruct Hstep as [st tid course room cell s e Hclear Hrow| |];
    [|by exists cells..].
  pose proof (Forall2_length _ _ _ Hrows) as Hlen.
  set (row := ScheduledClass.mk 0 (Course.id course) (Course.instructorId course)
                (Classroom.id room) (day cell) s e tid) in *.
  assert (∀ (p : nat) r c,
            (scheduledClasses st ++ [row]) !! p = Some r →
            (cells ++ [cell]) !! p = Some c →
            (scheduledClasses st !! p = Some r ∧ cells !! p = Some c)
            ∨ (r = row ∧ c = cell)) as Hcases.
  { intros p r c Hr Hc.
    apply lookup_app_Some in Hr as [Hr|[Hge Hr]];
      apply lookup_app_Some in Hc as [Hc|[Hge' Hc]].
    - by left.
    - apply lookup_lt_Some in Hr. lia.
    - apply lookup_lt_Some in Hc. lia.
    - apply list_lookup_singleton_Some in Hr as [_ <-].
      apply list_lookup_singleton_Some in Hc as [_ <-]. by right. }
  exists (cells ++ [cell]). split; [|split].
  - simpl. apply Forall2_app; [done|]. by constructor.
  - intros p r c Hr Hc. simpl in Hr |- *. rewrite cellsOf_pushTo.
    apply elem_of_app.
    destruct (Hcases p r c Hr Hc) as [[Hr' Hc']|[-> ->]].
    + left. by eapply Hheld.
    + right. simpl. rewrite decide_True by done. by left.
  - intros p q r1 r2 c1 c2 Hr1 Hr2 Hc1 Hc2 Hne Hb Ha. simpl in Hr1, Hr2.
    destruct (Hcases p r1 c1 Hr1 Hc1) as [[Hr1' Hc1']|[-> ->]];
      destruct (Hcases q r2 c2 Hr2 Hc2) as [[Hr2' Hc2']|[-> ->]].
    + by eapply (Hexcl p q).
    + simpl in *. intros ->.
      apply (Hclear (Num (ScheduledClass.courseId r1))); [done..|].
      by eapply Hheld.
    + simpl in *. intros <-.
      apply (Hclear (Num (ScheduledClass.courseId r2))); [done|congruence|].
      by eapply Hheld.
    + done.
Qed.

Lemma exclusiveBookings_steps idx st st' cells :
  rtc (booked idx) st st' → exclusiveBookings idx st cells →
  ∃ cells', exclusiveBookings idx st' cells'.
Proof.
  intros Hsteps. revert cells. induction Hsteps as [|x y z Hxy _ IH]; intros cells Hex.
  { by exists cells. }
  destruct (exclusiveBookings_step _ _ _ _ Hxy Hex) as [cells1 Hex1]. by eapply IH.
Qed.

Lemma mutuallyExclusive_booked idx st st' :
  booked idx st st' → mutuallyExclusive idx st → mutuallyExclusive idx st'.
Proof.
  intros Hstep Hex.
  destruct Hstep as [st tid course room cell s e Hfree Hrow| |]; [|done..].
  intros a b cell' Hab Hb Ha. simpl. rewrite !cellsOf_pushTo.
  rewrite !elem_of_app. intros [Hold|Hnew] [Hold'|Hnew'].
  - by apply (Hex a b cell').
  - case_decide as Hk; [|by apply elem_of_nil in Hnew'].
    apply list_elem_of_singleton in Hnew'. subst cell' b.
    by apply (Hfree a Ha).
  - case_decide as Hk; [|by apply elem_of_nil in Hnew].
    apply list_elem_of_singleton in Hnew. subst cell' a.
    apply (Hfree b Hb); [congruence|done].
  - repeat case_decide; try by (apply elem_of_nil in Hnew || apply elem_of_nil in Hnew').
    congruence.
Qed.

Lemma mutuallyExclusive_booked_steps idx st st' :
  rtc (booked idx) st st' → mutuallyExclusive idx st → mutuallyExclusive idx st'.
Proof. induction 1; eauto using mutuallyExclusive_booked. Qed.

End ExclusionTrace.

(** C5.  Conflict symmetry.  A course-conflict record naming course [a]
    ([entityId]) and course [b] (the parsed second identifier) puts [b] in
    the conflict list of [a] and [a] in the conflict list of [b]; the
    oracle then refuses a slot to either course when the other one holds
    it; and in every run, for [a] and [b] different, the two courses hold
    no cell in common and the returned rows say so: the rows can be
    matched, position by position, with the cells they were booked for
    (each row describes its cell, which its course holds), and a row of
    [a] and a row of [b] never have the same cell.  When the labels have
    pairwise different start times, this reads on the rows alone: a row of
    [a] and a row of [b] never have the same day and start time. *)
Theorem conflict_symmetry {schema : Schema} {random : RandomSource}
    (opts : TimetableGeneratorOptions) (k : Constraint.t) :
  k ∈ constraints opts →
  Constraint.type k = "course_conflict" →
  let idx := buildIndex (constraints opts) in
  let a := Num (Constraint.entityId k) in
  let b := parseInt (Constraint.timeSlot k) in
  (b ∈ conflictsOf idx a ∧ a ∈ conflictsOf idx b)
  ∧ (∀ (st : State) course slot roomId,
       (Num (Course.id course) = a ∧ slot ∈ cellsOf (courseAssignments st) b)
       ∨ (Num (Course.id course) = b ∧ slot ∈ cellsOf (courseAssignments st) a) →
       isSlotAvailable idx st course slot roomId = false)
  ∧ (∀ (g : Rng) (st : State),
       runGenerator opts g = Some st → a ≠ b →
       generateTimetable opts g = Some (scheduledClasses st)
       ∧ (∀ cell, cell ∈ cellsOf (courseAssignments st) a →
                  cell ∉ cellsOf (courseAssignments st) b)
       ∧ ∃ cells : list ClassSlot,
           Forall2 rowOfCell (scheduledClasses st) cells
           ∧ (∀ (p : nat) r c,
                scheduledClasses st !! p = Some r → cells !! p = Some c →
                c ∈ cellsOf (courseAssignments st) (Num (ScheduledClass.courseId r)))
           ∧ (∀ (p q : nat) r1 r2 c1 c2,
                scheduledClasses st !! p = Some r1 → scheduledClasses st !! q = Some r2 →
                cells !! p = Some c1 → cells !! q = Some c2 →
                Num (ScheduledClass.courseId r1) = a →
                Num (ScheduledClass.courseId r2) = b →
                c1 ≠ c2))
  ∧ (∀ (g : Rng) (rows : list ScheduledClass.t),
       generateTimetable opts g = Some rows → a ≠ b →
       (∀ l1 l2, l1 ∈ timeSlots → l2 ∈ timeSlots → startOf l1 = startOf l2 → l1 = l2) →
       ∀ r1 r2, r1 ∈ rows → r2 ∈ rows →
         Num (ScheduledClass.courseId r1) = a →
         Num (ScheduledClass.courseId r2) = b →
         ¬ (ScheduledClass.day r1 = ScheduledClass.day r2
            ∧ ScheduledClass.startTime r1 = ScheduledClass.startTime r2)).
Proof.
  intros Hin Hty idx a b.
  destruct (buildIndex_conflict_from emptyIndex _ k Hin Hty) as [Hab Hba].
  assert (∀ (g : Rng) (st : State),
            runGenerator opts g = Some st → a ≠ b →
            ∃ cells : list ClassSlot,
              Forall2 rowOfCell (scheduledClasses st) cells
              ∧ (∀ (p : nat) r c,
                   scheduledClasses st !! p = Some r → cells !! p = Some c →
                   c ∈ cellsOf (courseAssignments st) (Num (ScheduledClass.courseId r)))
              ∧ (∀ (p q : nat) r1 r2 c1 c2,
                   scheduledClasses st !! p = Some r1 →
                   scheduledClasses st !! q = Some r2 →
                   cells !! p = Some c1 → cells !! q = Some c2 →
                   Num (ScheduledClass.courseId r1) = a →
                   Num (ScheduledClass.courseId r2) = b →
                   c1 ≠ c2)) as Hrows.
  { intros g st Hrun Hne.
    destruct (exclusiveBookings_steps idx (initialState g) st [])
      as (cells & Hdesc & Hheld & Hexcl).
    - by apply placeCourses_booked in Hrun.
    - apply exclusiveBookings_initial.
    - exists cells. split; [done|]. split; [done|].
      intros p q r1 r2 c1 c2 Hr1 Hr2 Hc1 Hc2 Ha Hb.
      apply (Hexcl p q r1 r2); try done; by rewrite Ha, Hb. }
  split; [done|]. split; [|split].
  - intros st course slot roomId [[Hid Hslot]|[Hid Hslot]].
    + apply (isSlotAvailable_conflict idx st course slot roomId b); [|done].
      by rewrite Hid.
    + apply (isSlotAvailable_conflict idx st course slot roomId a); [|done].
      by rewrite Hid.
  - intros g st Hrun Hne.
    split; [unfold generateTimetable; by rewrite Hrun|]. split; [|by eapply Hrows].
    intros cell.
    apply (mutuallyExclusive_booked_steps idx (initialState g) st); try done.
    + by apply placeCourses_booked in Hrun.
    + apply mutuallyExclusive_initial.
  - intros g rows Hgen Hne Hinj r1 r2 Hr1 Hr2 Ha Hb [Hday Hstart].
    unfold generateTimetable in Hgen.
    destruct (runGenerator opts g) as [st|] eqn:Hrun; simpl in Hgen; [|done].
    injection Hgen as <-.
    destruct (Hrows g st Hrun Hne) as (cells & Hdesc & _ & Hexcl).
    apply list_elem_of_lookup in Hr1 as [p Hp], Hr2 as [q Hq].
    destruct (Forall2_lookup_l _ _ _ _ _ Hdesc Hp) as (c1 & Hc1 & Hd1 & Hs1 & i1 & Hi1 & _).
    destruct (Forall2_lookup_l _ _ _ _ _ Hdesc Hq) as (c2 & Hc2 & Hd2 & Hs2 & i2 & Hi2 & _).
    apply (Hexcl p q r1 r2 c1 c2); try done.
    assert (timeSlot c1 = timeSlot c2) as Hts.
    { apply Hinj; [by eapply list_elem_of_lookup_2..|congruence]. }
    destruct c1, c2; simpl in *; congruence.
Qed.

Lemma conflict_symmetry_witness :
  conflictsOf (buildIndex (constraints sampleOptions)) (Num 1) = [Num 2]
  ∧ conflictsOf (buildIndex (constraints sampleOptions)) (Num 2) = [Num 1]
  ∧ Num 2 ∈ conflictsOf (buildIndex (constraints sampleOptions)) (Num 1)
  ∧ Num 1 ∈ conflictsOf (buildIndex (constraints sampleOptions)) (Num 2)
  ∧ ∃ rows,
      generateTimetable (schema := weekGrid) (random := flipSource) sampleOptions false
      = Some rows
      ∧ length (rowsOfCourse 1 rows) = 2%nat ∧ length (rowsOfCourse 2 rows) = 3%nat
      ∧ ∀ r1 r2, r1 ∈ rows → r2 ∈ rows →
          Num (ScheduledClass.courseId r1) = Num 1 →
          Num (ScheduledClass.courseId r2) = Num 2 →
          ¬ (ScheduledClass.day r1 = ScheduledClass.day r2
             ∧ ScheduledClass.startTime r1 = ScheduledClass.startTime r2).
Proof.
  split; [reflexivity|]. split; [reflexivity|].
  pose proof (conflict_symmetry (schema := weekGrid) (random := flipSource)
                sampleOptions (Constraint.mk "course_conflict" 1 "" "2")) as H.
  destruct H as ([H1 H2] & _ & _ & Hrows); [by left|reflexivity|].
  split; [exact H1|]. split; [exact H2|].
  destruct (generateTimetable (schema := weekGrid) (random := flipSource) sampleOptions false)
    as [rows|] eqn:Hgen; [|vm_compute in Hgen; discriminate].
  exists rows. split; [reflexivity|].
  split; [by vm_compute in Hgen; injection Hgen as <-|].
  split; [by vm_compute in Hgen; injection Hgen as <-|].
  apply (Hrows false rows Hgen); [discriminate|].
  intros l1 l2 Hl1 Hl2 Heq. apply list_elem_of_In in Hl1, Hl2. simpl in Hl1, Hl2.
  destruct Hl1 as [<-|[<-|[<-|[<-|[]]]]]; destruct Hl2 as [<-|[<-|[<-|[<-|[]]]]];
    first [reflexivity | vm_compute in Heq; discriminate].
Defined.

(** ** Inputs on which the unconditional readings fail *)

(** C1, counterexample.  Labels that are pairwise distinct and pairwise
    non-overlapping, but not listed in chronological order: an inner row
    of a block ends where the next label of the list starts, so the block
    of one course runs from 09:00 to 14:00 and the single slot of another
    course of the same instructor, from 11:00 to 12:00, lies inside it. *)
Lemma disjoint_labels_out_of_order_overlap :
  pairwiseDisjoint minutesOfDay (@timeSlots unorderedGrid) = true
  ∧ NoDup (@timeSlots unorderedGrid)
  ∧ chronological minutesOfDay (@timeSlots unorderedGrid) = false
  ∧ ∃ block1 block2 single,
      generateTimetable (schema := unorderedGrid) (random := flipSource)
        blockAndSingleOptions true
      = Some [block1; block2; single]
      ∧ ScheduledClass.instructorId block1 = ScheduledClass.instructorId single
      ∧ ScheduledClass.classroomId block1 = ScheduledClass.classroomId single
      ∧ ScheduledClass.day block1 = ScheduledClass.day single
      ∧ (ScheduledClass.startTime block1, ScheduledClass.endTime block1)
        = ("09:00", Some "14:00")
      ∧ (ScheduledClass.startTime single, ScheduledClass.endTime single)
        = ("11:00", Some "12:00")
      ∧ overlapping minutesOfDay block1 single = true.
Proof.
  split; [reflexivity|].
  split; [apply (bool_decide_unpack _); vm_compute; exact I|].
  split; [reflexivity|].
  eexists _, _, _. split; [vm_compute; reflexivity|]. by repeat split.
Qed.

(** C8, counterexample.  The auditor compares the key text, not the
    tuple: two rows of one instructor with different days and different
    start times, whose keys read the same, are reported as one conflict. *)
Lemma different_slots_share_a_key :
  ScheduledClass.day dashInStartRow ≠ ScheduledClass.day dashInDayRow
  ∧ ScheduledClass.startTime dashInStartRow ≠ ScheduledClass.startTime dashInDayRow
  ∧ slotKey dashInStartRow = slotKey dashInDayRow
  ∧ instructorConflicts (checkConflicts [dashInStartRow; dashInDayRow])
    = [InstructorConflict.mk 7 [dashInStartRow; dashInDayRow]].
Proof. split; [done|]. split; [done|]. split; reflexivity. Qed.

(** C10, counterexample.  Two courses listed under one identifier, which
    need 2 and 3 slots: five rows carry the identifier. *)
Lemma shared_id_exceeds_slots_needed :
  map Course.id (courses sharedIdOptions) = [1; 1]
  ∧ map slotsNeeded (courses sharedIdOptions) = [2%nat; 3%nat]
  ∧ ∃ rows,
      generateTimetable (schema := weekGrid) (random := flipSource) sharedIdOptions false
      = Some rows
      ∧ length (rowsOfCourse 1 rows) = 5%nat.
Proof.
  split; [reflexivity|]. split; [reflexivity|].
  eexists. split; [vm_compute; reflexivity|]. reflexivity.
Qed.
